(** * manifest-server: the aggregation and broadcast engine

  A shallow embedding of the parts of the Go sources that the
  specification talks about:

  - [Core]   : [pkg/core/controller.go]  (the [DataSource] flags and the
               sunrise/sunset loop [runAtSunriseSunset]);
  - [Metar]  : [pkg/metar/controller.go] ([CardinalDirection], on IEEE-754
               binary64 values);
  - [Server] : [pkg/server/grpc.go] and [pkg/server/legacy.go] (the
               [ManifestUpdate] messages, [constructUpdate], [diff], the
               actor loop [processUpdates], [addClient], [removeClient] and
               the legacy static-content updater).

  Integers of a fixed width are [Z] with the wrap-around written where the
  code can wrap; Go maps are [gmap]s; channels are FIFO queues. *)

From Stdlib Require Import ZArith Lia List Ascii.
From Stdlib Require Import Floats.SpecFloat.
From stdpp Require Import base decidable option list sorting gmap strings pretty.

Local Open Scope Z_scope.

(* ===================================================================== *)
(** * pkg/core/controller.go                                              *)
(* ===================================================================== *)

Module Core.

(** [type DataSource uint64] *)
Definition DataSource : Type := Z.

(** The [const] block, expression by expression. *)
Definition BurbleDataSource     : DataSource := Z.shiftl 0 1.
Definition JumprunDataSource    : DataSource := Z.shiftl 1 1.
Definition METARDataSource      : DataSource := Z.shiftl 2 1.
Definition WindsAloftDataSource : DataSource := Z.shiftl 3 1.
Definition SettingsDataSource   : DataSource := Z.shiftl 4 1.

(** Modelled from the spec: [grpc.go] names the settings flag
    [core.OptionsDataSource]; the [const] block of [controller.go] declares
    it as [SettingsDataSource], and the specification has one
    Settings/Options category. *)
Definition OptionsDataSource : DataSource := SettingsDataSource.

(** The five categories, to speak about "the flag of a category". *)
Inductive Category : Type :=
| Options | Weather | Jumprun | WindsAloft | Loads.

#[global] Instance Category_eq_dec : EqDecision Category.
Proof. solve_decision. Defined.

Definition categories : list Category :=
  [Options; Weather; Jumprun; WindsAloft; Loads].

Definition flag (c : Category) : DataSource :=
  match c with
  | Options    => SettingsDataSource
  | Weather    => METARDataSource
  | Jumprun    => JumprunDataSource
  | WindsAloft => WindsAloftDataSource
  | Loads      => BurbleDataSource
  end.

(** [source |= s] over the notifications of a burst. *)
Definition coalesce (notified : list Category) : DataSource :=
  fold_left (fun source c => Z.lor source (flag c)) notified 0.

(** [source & flag != 0] *)
Definition test (source : DataSource) (c : Category) : bool :=
  negb (Z.land source (flag c) =? 0).

(** ** The day-boundary loop *)

(** A calendar date as [Date()] returns it and as the markers store it:
    [[]int{y, int(m), d}]. [reflect.DeepEqual] on two such slices is
    equality of the three components. *)
Definition Date : Type := (Z * Z * Z)%type.

Definition DeepEqual (a b : Date) : bool := bool_decide (a = b).

(** [time.Time] as the loop uses it: an instant ([Equal], [After]) and the
    calendar date of that instant in the drop zone's location. *)
Record Time : Type := mkTime { unix : Z; date : Date }.

Definition Equal (t u : Time) : bool := unix t =? unix u.
Definition After (t u : Time) : bool := unix u <? unix t.

(** What one pass of the loop body observes: the result of
    [SunriseAndSunsetTimes] ([None] when [err != nil], which is what a
    failing [Coordinates] gives) and [CurrentTime]. *)
Record Tick : Type := mkTick {
  times : option (Time * Time);   (* (sunrise, sunset) *)
  now   : Time
}.

Record Markers : Type := mkMarkers {
  lastSunrise : Date;
  lastSunset  : Date
}.

(** [lastSunrise := []int{0, 0, 0}], [lastSunset := []int{0, 0, 0}] *)
Definition initialMarkers : Markers := mkMarkers (0, 0, 0) (0, 0, 0).

(** What the loop does that can be seen from outside. *)
Inductive Action : Type :=
| ReportError                (* the Fprintf of the error branch *)
| RunSunset  (d : Date)      (* c.sunset()  *)
| RunSunrise (d : Date).     (* c.sunrise() *)

(** One of the two guarded blocks:
    [if now.Equal(e) || now.After(e) { this := e.Date();
       if !DeepEqual(last, this) { fire(); last = this } }] *)
Definition transition (fire : Date -> Action) (now e : Time) (last : Date)
  : list Action * Date :=
  if Equal now e || After now e then
    let this := date e in
    if negb (DeepEqual last this) then ([fire this], this) else ([], last)
  else ([], last).

(** The loop body up to the [select]. [None] is the [return] of the error
    branch. *)
Definition iteration (st : Markers) (t : Tick) : list Action * option Markers :=
  match times t with
  | None => ([ReportError], None)
  | Some (sunrise, sunset) =>
      let '(a1, lastSunset')  := transition RunSunset  (now t) sunset  (lastSunset st) in
      let '(a2, lastSunrise') := transition RunSunrise (now t) sunrise (lastSunrise st) in
      (a1 ++ a2, Some (mkMarkers lastSunrise' lastSunset'))
  end.

(** The loop over the ticks delivered by the ticker before [Done] is
    closed (the list ends where [<-c.Done()] is taken). The result is the
    trace of actions and whether the loop is still running after the last
    tick. *)
Fixpoint loop (st : Markers) (ticks : list Tick) : list Action * option Markers :=
  match ticks with
  | [] => ([], Some st)
  | t :: ticks' =>
      match iteration st t with
      | (acts, None) => (acts, None)
      | (acts, Some st') =>
          let '(acts', r) := loop st' ticks' in (acts ++ acts', r)
      end
  end.

Definition runAtSunriseSunset (ticks : list Tick) : list Action * option Markers :=
  loop initialMarkers ticks.

(** Projections of a trace. *)
Definition sunrises (acts : list Action) : list Date :=
  omap (fun a => match a with RunSunrise d => Some d | _ => None end) acts.
Definition sunsets (acts : list Action) : list Date :=
  omap (fun a => match a with RunSunset d => Some d | _ => None end) acts.

(** The dates of the events the ticks were computed for. *)
Definition sunriseDates (ticks : list Tick) : list Date :=
  omap (fun t => (fun p : Time * Time => date (fst p)) <$> times t) ticks.
Definition sunsetDates (ticks : list Tick) : list Date :=
  omap (fun t => (fun p : Time * Time => date (snd p)) <$> times t) ticks.

(** The calendar order on dates. *)
Definition date_lt (a b : Date) : Prop :=
  let '(y1, m1, d1) := a in
  let '(y2, m2, d2) := b in
  y1 < y2 \/ (y1 = y2 /\ (m1 < m2 \/ (m1 = m2 /\ d1 < d2))).
Definition date_le (a b : Date) : Prop := a = b \/ date_lt a b.

(** The two transitions are the same code on different variables. A
    [Kind] picks one of them: its firings in a trace, its marker, and the
    event dates of the ticks. *)
Record Kind : Type := mkKind {
  fired   : list Action -> list Date;
  marker  : Markers -> Date;
  dates   : list Tick -> list Date
}.

Definition sunriseKind : Kind := mkKind sunrises lastSunrise sunriseDates.
Definition sunsetKind  : Kind := mkKind sunsets  lastSunset  sunsetDates.

(** What one pass of the loop does to a transition of kind [k]. *)
Definition kind_ok (k : Kind) : Prop :=
  fired k [] = [] /\
  (forall a b, fired k (a ++ b) = fired k a ++ fired k b) /\
  dates k [] = [] /\
  (forall t ticks, dates k (t :: ticks) = dates k [t] ++ dates k ticks) /\
  forall st t,
    match times t with
    | None =>
        snd (iteration st t) = None /\
        fired k (fst (iteration st t)) = [] /\ dates k [t] = []
    | Some _ =>
        exists d st',
          snd (iteration st t) = Some st' /\ dates k [t] = [d] /\
          ((fired k (fst (iteration st t)) = [d] /\ marker k st <> d /\ marker k st' = d) \/
           (fired k (fst (iteration st t)) = [] /\ marker k st' = marker k st))
    end.

End Core.

(* ===================================================================== *)
(** * pkg/metar/controller.go                                             *)
(* ===================================================================== *)

Module Metar.

(** [float64]: IEEE-754 binary64, as the standard library's executable
    specification of it (53 bits of precision, exponents below 1024,
    round to nearest even). *)
Definition float64 : Type := spec_float.

(** The binary64 value nearest to [m * 2^e]; exact for every literal
    below. *)
Definition f64 (m e : Z) : float64 := binary_normalize 53 1024 m e false.

Definition add (x y : float64) : float64 := SFadd 53 1024 x y.
Definition div (x y : float64) : float64 := SFdiv 53 1024 x y.
Definition lt  (x y : float64) : bool := SFltb x y.

(** [math.Mod(x, y)]: the remainder of [x/y], with the sign of [x] and a
    magnitude below [|y|]; it is exact. Special cases as documented:
    [Mod(±Inf, y) = NaN], [Mod(NaN, y) = NaN], [Mod(x, 0) = NaN],
    [Mod(x, ±Inf) = x], [Mod(x, NaN) = NaN]. *)
Definition Mod (x y : float64) : float64 :=
  match x, y with
  | S754_nan, _ | _, S754_nan => S754_nan
  | S754_infinity _, _ => S754_nan
  | _, S754_zero _ => S754_nan
  | _, S754_infinity _ => x
  | S754_zero _, _ => x
  | S754_finite sx mx ex, S754_finite _ my ey =>
      let e := Z.min ex ey in
      let X := Zpos mx * 2 ^ (ex - e) in
      let Y := Zpos my * 2 ^ (ey - e) in
      let R := X mod Y in
      if R =? 0 then S754_zero sx
      else binary_normalize 53 1024 (cond_Zopp sx R) e false
  end.

(** [math.Floor(x)]: the greatest integer value not above [x];
    [Floor(±0) = ±0], [Floor(±Inf) = ±Inf], [Floor(NaN) = NaN]. *)
Definition Floor (x : float64) : float64 :=
  match x with
  | S754_finite s m e =>
      if 0 <=? e then x
      else binary_normalize 53 1024 (cond_Zopp s (Zpos m) / 2 ^ (- e)) 0 false
  | _ => x
  end.

(** [int(n)]: the conversion truncates towards zero; the language leaves
    the result open when the value is not a number or not finite. *)
Definition toInt (x : float64) : option Z :=
  match x with
  | S754_zero _ => Some 0
  | S754_finite s m e =>
      Some (cond_Zopp s (if 0 <=? e then Zpos m * 2 ^ e
                         else Zpos m / 2 ^ (- e)))
  | _ => None
  end.

Definition cardinalDirections : list string :=
  [ "N"; "NNE"; "NE"; "ENE"; "E"; "ESE"; "SE"; "SSE";
    "S"; "SSW"; "SW"; "WSW"; "W"; "WNW"; "NW"; "NNW" ]%string.

(** [for degrees < 0.0 { degrees += 360.0 }]; [fuel] bounds the number of
    times the body runs, [None] says the loop is still running when the
    fuel is used up. *)
Fixpoint normalize (fuel : nat) (degrees : float64) : option float64 :=
  if lt degrees (f64 0 0) then
    match fuel with
    | O => None
    | S fuel' => normalize fuel' (add degrees (f64 360 0))
    end
  else Some degrees.

(** [n := math.Floor(math.Mod(degrees+11.25, 360.0) / 22.5)] *)
Definition index (degrees : float64) : float64 :=
  Floor (div (Mod (add degrees (f64 45 (-2))) (f64 360 0)) (f64 45 (-1))).

Inductive Outcome : Type :=
| Returns (s : string)     (* the function returns [s] *)
| Panics                   (* index out of range, or no defined index *)
| StillLooping.            (* the normalisation loop has not ended *)

Definition CardinalDirection (fuel : nat) (degrees : float64) : Outcome :=
  match normalize fuel degrees with
  | None => StillLooping
  | Some degrees' =>
      match toInt (index degrees') with
      | None => Panics
      | Some i =>
          if (0 <=? i) && (i <? Z.of_nat (length cardinalDirections)) then
            match cardinalDirections !! Z.to_nat i with
            | Some s => Returns s
            | None => Panics
            end
          else Panics
      end
  end.

(** [float64(math.MinInt64)], that is [-2^63]. *)
Definition minInt64 : float64 := binary_normalize 53 1024 (- 2 ^ 63) 0 false.

End Metar.

(* ===================================================================== *)
(** * pkg/server: the messages of service.proto                           *)
(* ===================================================================== *)

Module Server.
Import Core.

(** ** Messages

    The generated [service.pb.go] is not part of the sources; the fields
    and their Go types are those [constructUpdate], [translateJumper] and
    [slotFromJumper] assign. A field of message type is a pointer
    ([option]), a repeated field is a slice ([list]), every scalar field is
    assigned a plain [bool], [string], [int32] or [uint64] and so has no
    presence of its own. *)

Record Options : Type := mkOptions {
  Options_DisplayNicknames : bool;
  Options_DisplayWeather   : bool;
  Options_DisplayWinds     : bool;
  Options_Message          : string;
  Options_MessageColor     : string
}.

Record Status : Type := mkStatus {
  Status_Winds            : string;
  Status_WindsColor       : string;
  Status_Clouds           : string;
  Status_CloudsColor      : string;
  Status_Weather          : string;
  Status_WeatherColor     : string;
  Status_Separation       : string;
  Status_SeparationColor  : string;
  Status_Temperature      : string;
  Status_TemperatureColor : string
}.

Record JumprunOrigin : Type := mkJumprunOrigin {
  JumprunOrigin_Latitude          : string;
  JumprunOrigin_Longitude         : string;
  JumprunOrigin_MagneticDeviation : Z;
  JumprunOrigin_CameraHeight      : Z
}.

Record JumprunTurn : Type := mkJumprunTurn {
  JumprunTurn_Distance : Z;
  JumprunTurn_Heading  : Z
}.

Record JumprunPath : Type := mkJumprunPath {
  JumprunPath_Heading        : Z;
  JumprunPath_ExitDistance   : Z;
  JumprunPath_OffsetHeading  : Z;
  JumprunPath_OffsetDistance : Z;
  JumprunPath_Turns          : list JumprunTurn
}.

Record Jumprun : Type := mkJumprun {
  Jumprun_Origin : option JumprunOrigin;
  Jumprun_Path   : option JumprunPath
}.

Record WindsAloftSample : Type := mkWindsAloftSample {
  WindsAloftSample_Altitude    : Z;
  WindsAloftSample_Heading     : Z;
  WindsAloftSample_Speed       : Z;
  WindsAloftSample_Temperature : Z;
  WindsAloftSample_Variable    : bool
}.

Record WindsAloft : Type := mkWindsAloft {
  WindsAloft_Samples : list WindsAloftSample
}.

Inductive JumperType : Type :=
| JumperType_EXPERIENCED
| JumperType_VIDEOGRAPHER
| JumperType_TANDEM_STUDENT
| JumperType_TANDEM_INSTRUCTOR
| JumperType_AFF_STUDENT
| JumperType_AFF_INSTRUCTOR
| JumperType_COACH_STUDENT
| JumperType_COACH.

Record Jumper : Type := mkJumper {
  Jumper_Id        : Z;
  Jumper_Type      : JumperType;
  Jumper_Name      : string;
  Jumper_ShortName : string;
  Jumper_Nickname  : string;
  Jumper_Color     : string;
  Jumper_Repr      : string
}.

Record JumperGroup : Type := mkJumperGroup {
  JumperGroup_Leader  : option Jumper;
  JumperGroup_Members : list Jumper
}.

(** The [oneof Slot] of [LoadSlot] and its two wrappers. *)
Inductive isLoadSlot_Slot : Type :=
| LoadSlot_Jumper (Jumper : option Jumper)
| LoadSlot_Group  (Group : option JumperGroup).

Record LoadSlot : Type := mkLoadSlot {
  LoadSlot_Slot : option isLoadSlot_Slot
}.

Record Load : Type := mkLoad {
  Load_Id                   : Z;
  Load_AircraftName         : string;
  Load_LoadNumber           : string;
  Load_CallMinutes          : Z;
  Load_CallMinutesString    : string;
  Load_SlotsAvailable       : Z;
  Load_SlotsAvailableString : string;
  Load_IsFueling            : bool;
  Load_IsTurning            : bool;
  Load_IsNoTime             : bool;
  Load_Slots                : list LoadSlot
}.

Record Loads : Type := mkLoads {
  Loads_ColumnCount : Z;
  Loads_Loads       : list Load
}.

Record ManifestUpdate : Type := mkManifestUpdate {
  ManifestUpdate_Status     : option Status;
  ManifestUpdate_Options    : option Options;
  ManifestUpdate_Jumprun    : option Jumprun;
  ManifestUpdate_WindsAloft : option WindsAloft;
  ManifestUpdate_Loads      : option Loads
}.

#[global] Instance Options_eq_dec : EqDecision Options.
Proof. solve_decision. Defined.
#[global] Instance Status_eq_dec : EqDecision Status.
Proof. solve_decision. Defined.
#[global] Instance JumprunOrigin_eq_dec : EqDecision JumprunOrigin.
Proof. solve_decision. Defined.
#[global] Instance JumprunTurn_eq_dec : EqDecision JumprunTurn.
Proof. solve_decision. Defined.
#[global] Instance JumprunPath_eq_dec : EqDecision JumprunPath.
Proof. solve_decision. Defined.
#[global] Instance Jumprun_eq_dec : EqDecision Jumprun.
Proof. solve_decision. Defined.
#[global] Instance WindsAloftSample_eq_dec : EqDecision WindsAloftSample.
Proof. solve_decision. Defined.
#[global] Instance WindsAloft_eq_dec : EqDecision WindsAloft.
Proof. solve_decision. Defined.
#[global] Instance JumperType_eq_dec : EqDecision JumperType.
Proof. solve_decision. Defined.
#[global] Instance Jumper_eq_dec : EqDecision Jumper.
Proof. solve_decision. Defined.
#[global] Instance JumperGroup_eq_dec : EqDecision JumperGroup.
Proof. solve_decision. Defined.
#[global] Instance isLoadSlot_Slot_eq_dec : EqDecision isLoadSlot_Slot.
Proof. solve_decision. Defined.
#[global] Instance LoadSlot_eq_dec : EqDecision LoadSlot.
Proof. solve_decision. Defined.
#[global] Instance Load_eq_dec : EqDecision Load.
Proof. solve_decision. Defined.
#[global] Instance Loads_eq_dec : EqDecision Loads.
Proof. solve_decision. Defined.
#[global] Instance ManifestUpdate_eq_dec : EqDecision ManifestUpdate.
Proof. solve_decision. Defined.

(** ** google.golang.org/protobuf/proto

    [proto.Equal] and [proto.Merge] are the protobuf library's; they are
    written here after the library's documented behaviour on the messages
    above. *)

(** [proto.Equal(x, y)] on two message pointers of one type: two nil
    pointers are equal, a nil pointer equals no message, and two messages
    are equal when they have the same populated fields with equal values
    (recursively, lists element by element). On the records above that is
    equality. *)
Definition proto_Equal {M : Type} `{EqDecision M} (x y : option M) : bool :=
  bool_decide (x = y).

(** [proto.Merge(dst, src)]: "populated scalar fields in src are copied to
    dst, while populated singular messages in src are merged into dst by
    recursively calling Merge. The elements of every list field in src is
    appended to the corresponded list fields in dst." A scalar field
    without presence is populated when it is not the zero value. *)
Definition merge_bool (dst src : bool) : bool := if src then src else dst.
Definition merge_string (dst src : string) : string :=
  if decide (src = ""%string) then dst else src.
Definition merge_int (dst src : Z) : Z := if decide (src = 0) then dst else src.
Definition merge_list {A : Type} (dst src : list A) : list A := dst ++ src.
(** A message field: nothing to do when [src] is nil; otherwise [dst] is
    allocated empty when it is nil and [src] is merged into it. *)
Definition merge_message {M : Type} (empty : M) (merge : M -> M -> M)
    (dst src : option M) : option M :=
  match src with
  | None => dst
  | Some s => Some (merge (default empty dst) s)
  end.

Definition empty_Options : Options := mkOptions false false false "" "".
Definition empty_Status : Status := mkStatus "" "" "" "" "" "" "" "" "" "".
Definition empty_JumprunOrigin : JumprunOrigin := mkJumprunOrigin "" "" 0 0.
Definition empty_JumprunPath : JumprunPath := mkJumprunPath 0 0 0 0 [].
Definition empty_Jumprun : Jumprun := mkJumprun None None.
Definition empty_WindsAloft : WindsAloft := mkWindsAloft [].
Definition empty_Loads : Loads := mkLoads 0 [].

Definition Merge_Options (dst src : Options) : Options :=
  {| Options_DisplayNicknames := merge_bool (Options_DisplayNicknames dst) (Options_DisplayNicknames src);
     Options_DisplayWeather   := merge_bool (Options_DisplayWeather dst) (Options_DisplayWeather src);
     Options_DisplayWinds     := merge_bool (Options_DisplayWinds dst) (Options_DisplayWinds src);
     Options_Message          := merge_string (Options_Message dst) (Options_Message src);
     Options_MessageColor     := merge_string (Options_MessageColor dst) (Options_MessageColor src) |}.

Definition Merge_Status (dst src : Status) : Status :=
  {| Status_Winds            := merge_string (Status_Winds dst) (Status_Winds src);
     Status_WindsColor       := merge_string (Status_WindsColor dst) (Status_WindsColor src);
     Status_Clouds           := merge_string (Status_Clouds dst) (Status_Clouds src);
     Status_CloudsColor      := merge_string (Status_CloudsColor dst) (Status_CloudsColor src);
     Status_Weather          := merge_string (Status_Weather dst) (Status_Weather src);
     Status_WeatherColor     := merge_string (Status_WeatherColor dst) (Status_WeatherColor src);
     Status_Separation       := merge_string (Status_Separation dst) (Status_Separation src);
     Status_SeparationColor  := merge_string (Status_SeparationColor dst) (Status_SeparationColor src);
     Status_Temperature      := merge_string (Status_Temperature dst) (Status_Temperature src);
     Status_TemperatureColor := merge_string (Status_TemperatureColor dst) (Status_TemperatureColor src) |}.

Definition Merge_JumprunOrigin (dst src : JumprunOrigin) : JumprunOrigin :=
  {| JumprunOrigin_Latitude          := merge_string (JumprunOrigin_Latitude dst) (JumprunOrigin_Latitude src);
     JumprunOrigin_Longitude         := merge_string (JumprunOrigin_Longitude dst) (JumprunOrigin_Longitude src);
     JumprunOrigin_MagneticDeviation := merge_int (JumprunOrigin_MagneticDeviation dst) (JumprunOrigin_MagneticDeviation src);
     JumprunOrigin_CameraHeight      := merge_int (JumprunOrigin_CameraHeight dst) (JumprunOrigin_CameraHeight src) |}.

Definition Merge_JumprunPath (dst src : JumprunPath) : JumprunPath :=
  {| JumprunPath_Heading        := merge_int (JumprunPath_Heading dst) (JumprunPath_Heading src);
     JumprunPath_ExitDistance   := merge_int (JumprunPath_ExitDistance dst) (JumprunPath_ExitDistance src);
     JumprunPath_OffsetHeading  := merge_int (JumprunPath_OffsetHeading dst) (JumprunPath_OffsetHeading src);
     JumprunPath_OffsetDistance := merge_int (JumprunPath_OffsetDistance dst) (JumprunPath_OffsetDistance src);
     JumprunPath_Turns          := merge_list (JumprunPath_Turns dst) (JumprunPath_Turns src) |}.

Definition Merge_Jumprun (dst src : Jumprun) : Jumprun :=
  {| Jumprun_Origin := merge_message empty_JumprunOrigin Merge_JumprunOrigin (Jumprun_Origin dst) (Jumprun_Origin src);
     Jumprun_Path   := merge_message empty_JumprunPath Merge_JumprunPath (Jumprun_Path dst) (Jumprun_Path src) |}.

Definition Merge_WindsAloft (dst src : WindsAloft) : WindsAloft :=
  {| WindsAloft_Samples := merge_list (WindsAloft_Samples dst) (WindsAloft_Samples src) |}.

Definition Merge_Loads (dst src : Loads) : Loads :=
  {| Loads_ColumnCount := merge_int (Loads_ColumnCount dst) (Loads_ColumnCount src);
     Loads_Loads       := merge_list (Loads_Loads dst) (Loads_Loads src) |}.

Definition proto_Merge (dst src : ManifestUpdate) : ManifestUpdate :=
  {| ManifestUpdate_Status     := merge_message empty_Status Merge_Status (ManifestUpdate_Status dst) (ManifestUpdate_Status src);
     ManifestUpdate_Options    := merge_message empty_Options Merge_Options (ManifestUpdate_Options dst) (ManifestUpdate_Options src);
     ManifestUpdate_Jumprun    := merge_message empty_Jumprun Merge_Jumprun (ManifestUpdate_Jumprun dst) (ManifestUpdate_Jumprun src);
     ManifestUpdate_WindsAloft := merge_message empty_WindsAloft Merge_WindsAloft (ManifestUpdate_WindsAloft dst) (ManifestUpdate_WindsAloft src);
     ManifestUpdate_Loads      := merge_message empty_Loads Merge_Loads (ManifestUpdate_Loads dst) (ManifestUpdate_Loads src) |}.

(** ** grpc.go: [constructUpdate] and [diff] *)

(** What the controller's sources hold when [constructUpdate] runs: for
    each block of [constructUpdate], the message that block assembles from
    [s.app] (the translation of settings, METAR, jump run, winds aloft and
    Burble loads into messages is kept as its result). The sources a block
    reads are taken to be there: a block that dereferences a nil source
    is not modelled. *)
Record App : Type := mkApp {
  App_Options    : Options;
  App_Status     : Status;
  App_Jumprun    : Jumprun;
  App_WindsAloft : WindsAloft;
  App_Loads      : Loads
}.

Definition optionsSources    : DataSource := OptionsDataSource.
Definition statusSources     : DataSource := Z.lor METARDataSource WindsAloftDataSource.
Definition jumprunSources    : DataSource := JumprunDataSource.
Definition windsAloftSources : DataSource := WindsAloftDataSource.
Definition loadsSources      : DataSource := BurbleDataSource.

(** [source&sources != 0] *)
Definition has (source sources : DataSource) : bool :=
  negb (Z.land source sources =? 0).

Definition constructUpdate (app : App) (source : DataSource) : ManifestUpdate :=
  {| ManifestUpdate_Options :=
       if has source optionsSources then Some (App_Options app) else None;
     ManifestUpdate_Status :=
       if has source statusSources then Some (App_Status app) else None;
     ManifestUpdate_Jumprun :=
       if has source jumprunSources then Some (App_Jumprun app) else None;
     ManifestUpdate_WindsAloft :=
       if has source windsAloftSources then Some (App_WindsAloft app) else None;
     ManifestUpdate_Loads :=
       if has source loadsSources then Some (App_Loads app) else None |}.

(** One statement of [diff]: [if proto.Equal(x.F, y.F) { x.F = nil }]. *)
Definition drop_equal {M : Type} `{EqDecision M} (x y : option M) : option M :=
  if proto_Equal x y then None else x.

(** [x.diff(y)]: the receiver after the five statements, and the result. *)
Definition diff (x y : ManifestUpdate) : ManifestUpdate * bool :=
  let x' :=
    {| ManifestUpdate_Status     := drop_equal (ManifestUpdate_Status x) (ManifestUpdate_Status y);
       ManifestUpdate_Options    := drop_equal (ManifestUpdate_Options x) (ManifestUpdate_Options y);
       ManifestUpdate_Jumprun    := drop_equal (ManifestUpdate_Jumprun x) (ManifestUpdate_Jumprun y);
       ManifestUpdate_WindsAloft := drop_equal (ManifestUpdate_WindsAloft x) (ManifestUpdate_WindsAloft y);
       ManifestUpdate_Loads      := drop_equal (ManifestUpdate_Loads x) (ManifestUpdate_Loads y) |} in
  (x',
   bool_decide (ManifestUpdate_Status x' <> None) ||
   bool_decide (ManifestUpdate_Options x' <> None) ||
   bool_decide (ManifestUpdate_Jumprun x' <> None) ||
   bool_decide (ManifestUpdate_WindsAloft x' <> None) ||
   bool_decide (ManifestUpdate_Loads x' <> None)).

(** An update with no category, [&ManifestUpdate{}]. *)
Definition emptyUpdate : ManifestUpdate := mkManifestUpdate None None None None None.

(** A category of the emitted update, against the same category of the
    last broadcast and of the candidate: it is present exactly when the
    candidate has it with a value that is not the last broadcast's, and
    then carries the candidate's value. *)
Definition kept {M : Type} (last candidate emitted : option M) : Prop :=
  forall v, emitted = Some v <-> candidate = Some v /\ candidate <> last.

(** ** grpc.go: the actor loop [processUpdates] *)

(** A channel value is a reference; two variables may hold the same one. *)
Definition Chan : Type := nat.

Record addClientResponse : Type := mkAddClientResponse {
  addClientResponse_id : Z
}.

Record addClientRequest : Type := mkAddClientRequest {
  addClientRequest_reply   : Chan;
  addClientRequest_updates : Chan
}.

Record removeClientRequest : Type := mkRemoveClientRequest {
  removeClientRequest_reply : Chan;
  removeClientRequest_id    : Z
}.

(** What travels on a [chan *ManifestUpdate]: a pointer. It is either the
    actor's own [lastUpdate] object (with what that object holds when it
    is sent) or the object a [constructUpdate] call has just allocated. *)
Inductive Sent : Type :=
| SentLastUpdate (holds : ManifestUpdate)
| SentUpdate (u : ManifestUpdate).

(** What one pass of the loop does that can be seen from outside, in
    program order. *)
Inductive Event : Type :=
| Construct (source : DataSource)                       (* u := constructUpdate(source); u.diff(lastUpdate) *)
| ReplyAdd (reply : Chan) (response : addClientResponse) (* req.reply <- addClientResponse{...} *)
| ReplyRemove (reply : Chan)                             (* req.reply <- removeClientResponse{} *)
| Push (updates : Chan) (m : Sent).                      (* client <- u, req.updates <- lastUpdate *)

(** The loop's local variables. [clientID] is a [uint64]. *)
Record Actor : Type := mkActor {
  clientID   : Z;
  clients    : gmap Z Chan;
  lastUpdate : ManifestUpdate
}.

(** The three cases of the [select] that do work (the fourth,
    [<-ctx.Done()], ends the loop). [Wake] is [case source = <-c] taken
    when [pending] is what else is buffered in [c] and the sources hold
    [app]. *)
Inductive Command : Type :=
| AddClient (req : addClientRequest)
| RemoveClient (req : removeClientRequest)
| Wake (app : App) (source : DataSource) (pending : list DataSource).

(** The [drain] loop: a non-blocking receive until [c] is empty. The
    result is the mask and what is left in [c]. *)
Fixpoint drain (source : DataSource) (c : list DataSource)
  : DataSource * list DataSource :=
  match c with
  | [] => (source, [])                       (* default: break drain *)
  | s :: c' => drain (Z.lor source s) c'     (* case s := <-c: source |= s *)
  end.

(** [for _, client := range clients { client <- u }]; Go leaves the order
    of the range open, the model takes the order of [map_to_list]. *)
Definition fanOut (clients : gmap Z Chan) (u : ManifestUpdate) : list Event :=
  (fun kv : Z * Chan => Push (snd kv) (SentUpdate u)) <$> map_to_list clients.

Definition uint64 (z : Z) : Z := z mod 2 ^ 64.

(** One pass of the [for { select { ... } }]. *)
Definition step (a : Actor) (cmd : Command) : Actor * list Event :=
  match cmd with
  | AddClient req =>
      let clientID' := uint64 (clientID a + 1) in
      ({| clientID := clientID';
          clients := <[clientID' := addClientRequest_updates req]> (clients a);
          lastUpdate := lastUpdate a |},
       [ ReplyAdd (addClientRequest_reply req) (mkAddClientResponse clientID');
         Push (addClientRequest_updates req) (SentLastUpdate (lastUpdate a)) ])
  | RemoveClient req =>
      ({| clientID := clientID a;
          clients := delete (removeClientRequest_id req) (clients a);
          lastUpdate := lastUpdate a |},
       [ ReplyRemove (removeClientRequest_reply req) ])
  | Wake app source pending =>
      let source' := fst (drain source pending) in
      let '(u, changed) := diff (constructUpdate app source') (lastUpdate a) in
      if changed then
        ({| clientID := clientID a;
            clients := clients a;
            lastUpdate := proto_Merge (lastUpdate a) u |},
         Construct source' :: fanOut (clients a) u)
      else (a, [Construct source'])
  end.

(** The statements before the loop. The three booleans say whether
    [s.app.Jumprun()], [s.app.METARSource()] and [s.app.WindsAloftSource()]
    are non-nil. *)
Definition baselineSource (jumprun metar windsAloft : bool) : DataSource :=
  let source := Z.lor BurbleDataSource OptionsDataSource in
  let source := if jumprun then Z.lor source JumprunDataSource else source in
  let source := if metar then Z.lor source METARDataSource else source in
  if windsAloft then Z.lor source WindsAloftDataSource else source.

Definition start (app : App) (jumprun metar windsAloft : bool) : Actor :=
  {| clientID := 0;
     clients := ∅;
     lastUpdate := constructUpdate app (baselineSource jumprun metar windsAloft) |}.

(** The loop over the commands it takes before [ctx.Done()]. *)
Fixpoint processUpdates (a : Actor) (cmds : list Command) : Actor * list Event :=
  match cmds with
  | [] => (a, [])
  | cmd :: cmds' =>
      let '(a', evs) := step a cmd in
      let '(a'', evs') := processUpdates a' cmds' in
      (a'', evs ++ evs')
  end.

Definition pushed (ch : Chan) (evs : list Event) : list Sent :=
  omap (fun e => match e with
                 | Push ch' m => if decide (ch' = ch) then Some m else None
                 | _ => None end) evs.
Definition constructed (evs : list Event) : list DataSource :=
  omap (fun e => match e with Construct s => Some s | _ => None end) evs.
(** The [updates] channels handed to the loop by the requests of a run. *)
Definition offered (cmds : list Command) : list Chan :=
  omap (fun c => match c with
                 | AddClient req => Some (addClientRequest_updates req)
                 | _ => None end) cmds.
Definition admissions (cmds : list Command) : nat :=
  length (offered cmds).

(** [ch] is the channel of some registered client. *)
Definition registered (a : Actor) (ch : Chan) : Prop :=
  exists id, clients a !! id = Some ch.

(** ** legacy.go: the updater goroutine of [EnableLegacySupport] *)

Inductive StaticContent : Type :=
| updateWindsStaticData
| updateJumprunStaticData
| updateManifestStaticData.

(** The body of [case source := <-c:], [pending] being what else is
    buffered in [c]: the calls it makes, in order. *)
Definition legacyUpdate (source : DataSource) (pending : list DataSource)
  : list StaticContent :=
  let source' := fst (drain source pending) in
  (if has source' WindsAloftDataSource then [updateWindsStaticData] else []) ++
  (if has source' JumprunDataSource then [updateJumprunStaticData] else []) ++
  [updateManifestStaticData].

(** ** grpc.go: [addClient], [removeClient] and the goroutines around the loop *)

(** Where a goroutine that called [addClient(c)] or [removeClient(id)]
    is. [addClient] has two statements before its [return]: the
    composite literal (with [make(chan addClientResponse)]) and
    [response := <-request.reply]; [removeClient] likewise. *)
Inductive Caller : Type :=
| addClient_called (c : Chan)
| addClient_receiving (request : addClientRequest)
| addClient_returned (id : Z)
| removeClient_called (id : Z)
| removeClient_receiving (request : removeClientRequest)
| removeClient_returned.

(** The values sent on the reply and update channels and not yet
    received. A send is taken to succeed at once (the receiver of a reply
    is expected to be waiting, the update channels have room), which only
    adds behaviours. *)
Record Channels : Type := mkChannels {
  addReplies    : gmap Chan (list addClientResponse);
  removeReplies : gmap Chan (list unit);
  updates       : gmap Chan (list Sent)
}.

Definition send {V : Type} (ch : Chan) (v : V) (m : gmap Chan (list V))
  : gmap Chan (list V) :=
  <[ch := default [] (m !! ch) ++ [v]]> m.

Definition deliver (chs : Channels) (e : Event) : Channels :=
  match e with
  | Construct _ => chs
  | ReplyAdd reply response =>
      mkChannels (send reply response (addReplies chs)) (removeReplies chs) (updates chs)
  | ReplyRemove reply =>
      mkChannels (addReplies chs) (send reply tt (removeReplies chs)) (updates chs)
  | Push ch m =>
      mkChannels (addReplies chs) (removeReplies chs) (send ch m (updates chs))
  end.

Record System : Type := mkSystem {
  actor            : Actor;                       (* the processUpdates goroutine *)
  addClientChan    : list addClientRequest;       (* s.addClientChan *)
  removeClientChan : list removeClientRequest;    (* s.removeClientChan *)
  listener         : list DataSource;             (* the channel c of processUpdates *)
  channels         : Channels;
  callers          : list Caller;
  fresh            : Chan                         (* the next make(chan ...) *)
}.

(** The interleavings of the actor, the callers and the producers. *)
Inductive sys_step : System -> System -> Prop :=
(* request := addClientRequest{reply: make(chan addClientResponse), updates: c} *)
| addClient_make s i c :
    callers s !! i = Some (addClient_called c) ->
    sys_step s
      (mkSystem (actor s) (addClientChan s) (removeClientChan s) (listener s)
         (channels s)
         (<[i := addClient_receiving (mkAddClientRequest (fresh s) c)]> (callers s))
         (S (fresh s)))
(* response := <-request.reply; return response.id *)
| addClient_receive s i request response rest :
    callers s !! i = Some (addClient_receiving request) ->
    addReplies (channels s) !! addClientRequest_reply request = Some (response :: rest) ->
    sys_step s
      (mkSystem (actor s) (addClientChan s) (removeClientChan s) (listener s)
         (mkChannels (<[addClientRequest_reply request := rest]> (addReplies (channels s)))
            (removeReplies (channels s)) (updates (channels s)))
         (<[i := addClient_returned (addClientResponse_id response)]> (callers s))
         (fresh s))
(* request := removeClientRequest{reply: make(chan removeClientResponse), id: id} *)
| removeClient_make s i id :
    callers s !! i = Some (removeClient_called id) ->
    sys_step s
      (mkSystem (actor s) (addClientChan s) (removeClientChan s) (listener s)
         (channels s)
         (<[i := removeClient_receiving (mkRemoveClientRequest (fresh s) id)]> (callers s))
         (S (fresh s)))
(* <-request.reply *)
| removeClient_receive s i request rest :
    callers s !! i = Some (removeClient_receiving request) ->
    removeReplies (channels s) !! removeClientRequest_reply request = Some (tt :: rest) ->
    sys_step s
      (mkSystem (actor s) (addClientChan s) (removeClientChan s) (listener s)
         (mkChannels (addReplies (channels s))
            (<[removeClientRequest_reply request := rest]> (removeReplies (channels s)))
            (updates (channels s)))
         (<[i := removeClient_returned]> (callers s))
         (fresh s))
(* case req := <-s.addClientChan *)
| actor_add s req rest :
    addClientChan s = req :: rest ->
    sys_step s
      (mkSystem (fst (step (actor s) (AddClient req))) rest (removeClientChan s) (listener s)
         (fold_left deliver (snd (step (actor s) (AddClient req))) (channels s))
         (callers s) (fresh s))
(* case req := <-s.removeClientChan *)
| actor_remove s req rest :
    removeClientChan s = req :: rest ->
    sys_step s
      (mkSystem (fst (step (actor s) (RemoveClient req))) (addClientChan s) rest (listener s)
         (fold_left deliver (snd (step (actor s) (RemoveClient req))) (channels s))
         (callers s) (fresh s))
(* case source = <-c, and the drain loop *)
| actor_wake s app source pending :
    listener s = source :: pending ->
    sys_step s
      (mkSystem (fst (step (actor s) (Wake app source pending)))
         (addClientChan s) (removeClientChan s) (snd (drain source pending))
         (fold_left deliver (snd (step (actor s) (Wake app source pending))) (channels s))
         (callers s) (fresh s))
(* WakeListeners(source): l <- source *)
| producer_wake s source :
    sys_step s
      (mkSystem (actor s) (addClientChan s) (removeClientChan s) (listener s ++ [source])
         (channels s) (callers s) (fresh s)).

(** The server after [Start]: the loop runs, nothing is in flight, and
    some goroutines are about to call [addClient] or [removeClient]. *)
Definition entering (k : Caller) : Prop :=
  match k with
  | addClient_called _ | removeClient_called _ => True
  | _ => False
  end.

Definition returned (k : Caller) : Prop :=
  match k with
  | addClient_returned _ | removeClient_returned => True
  | _ => False
  end.

Definition started (s : System) : Prop :=
  clientID (actor s) = 0 /\ clients (actor s) = ∅ /\
  addClientChan s = [] /\ removeClientChan s = [] /\
  channels s = mkChannels ∅ ∅ ∅ /\
  Forall entering (callers s).

(** No request is in flight, no reply or update is waiting to be received,
    nobody is registered and no call has returned. *)
Definition quiet (s : System) : Prop :=
  clients (actor s) = ∅ /\
  addClientChan s = [] /\ removeClientChan s = [] /\
  channels s = mkChannels ∅ ∅ ∅ /\
  Forall (fun k => ~ returned k) (callers s).

End Server.

(* ===================================================================== *)
(** * Go library functions the sources call                               *)
(* ===================================================================== *)

Module Go.

(** Strings are byte strings; the functions below are [strings.HasPrefix],
    [strings.HasSuffix], [strings.Index], [strings.Join], the slice
    expressions [s[lo:hi]], [strconv.Atoi], and [%d] /
    [strconv.FormatInt(_, 10)], after the Go documentation. *)

Definition HasPrefix (s prefix : string) : bool := String.prefix prefix s.

Fixpoint drop (n : nat) (s : string) : string :=
  match n, s with
  | O, _ => s
  | S n', String _ s' => drop n' s'
  | S _, EmptyString => EmptyString
  end.

Fixpoint take (n : nat) (s : string) : string :=
  match n, s with
  | O, _ => EmptyString
  | S n', String c s' => String c (take n' s')
  | S _, EmptyString => EmptyString
  end.

Definition HasSuffix (s suffix : string) : bool :=
  (String.length suffix <=? String.length s)%nat &&
  bool_decide (drop (String.length s - String.length suffix) s = suffix).

(** The position of the first occurrence of [substr] in [s], counted from
    [i]; [None] is Go's [-1]. *)
Fixpoint IndexFrom (i : nat) (s substr : string) : option nat :=
  if String.prefix substr s then Some i
  else match s with
       | EmptyString => None
       | String _ s' => IndexFrom (S i) s' substr
       end.

Definition Index (s substr : string) : option nat := IndexFrom 0 s substr.

(** [s[lo:hi]], [s[lo:]] and [s[:hi]]; [None] is the run-time panic
    "slice bounds out of range". *)
Definition slice (s : string) (lo hi : nat) : option string :=
  if (lo <=? hi)%nat && (hi <=? String.length s)%nat
  then Some (take (hi - lo) (drop lo s)) else None.
Definition sliceFrom (s : string) (lo : nat) : option string :=
  slice s lo (String.length s).
Definition sliceTo (s : string) (hi : nat) : option string :=
  slice s 0 hi.

Definition Join (elems : list string) (sep : string) : string :=
  String.concat sep elems.

(** [int], [int64]: 64 bits, two's complement; [int32]; [uint64]. *)
Definition int64 (z : Z) : Z := (z + 2 ^ 63) mod 2 ^ 64 - 2 ^ 63.
Definition int32 (z : Z) : Z := (z + 2 ^ 31) mod 2 ^ 32 - 2 ^ 31.
Definition uint64 (z : Z) : Z := z mod 2 ^ 64.

(** [%d] and [strconv.FormatInt(z, 10)]. *)
Definition FormatInt (z : Z) : string := pretty z.

(** [strconv.ParseUint(s, 10, 64)] on a non-empty [s], digit by digit with
    the accumulated value [n]. *)
Inductive Parsed : Type :=
| Number (n : Z)
| ErrSyntax
| ErrRange.

Definition digit (c : ascii) : option Z :=
  let n := Z.of_N (N_of_ascii c) in
  if (48 <=? n) && (n <=? 57) then Some (n - 48) else None.

Fixpoint parseDigits (s : string) (n : Z) : Parsed :=
  match s with
  | EmptyString => Number n
  | String c s' =>
      match digit c with
      | None => ErrSyntax
      | Some d =>
          if (2 ^ 64 - 1) / 10 + 1 <=? n then ErrRange        (* n*10 overflows *)
          else if 2 ^ 64 - 1 <? n * 10 + d then ErrRange  (* n*10+d overflows *)
          else parseDigits s' (n * 10 + d)
      end
  end.

Definition ParseUint (s : string) : Parsed :=
  match s with
  | EmptyString => ErrSyntax
  | _ => parseDigits s 0
  end.

(** [strconv.Atoi(s)]: the value and whether [err == nil]. A syntax error
    gives 0, a value out of range gives the nearest [int64]. *)
Definition Atoi (s : string) : Z * bool :=
  let '(neg, digits) :=
    match s with
    | String "-" s' => (true, s')
    | String "+" s' => (false, s')
    | _ => (false, s)
    end in
  match ParseUint digits with
  | ErrSyntax => (0, false)
  | ErrRange => (if neg then - 2 ^ 63 else 2 ^ 63 - 1, false)
  | Number un =>
      if neg then (if un <=? 2 ^ 63 then (- un, true) else (- 2 ^ 63, false))
      else (if un <? 2 ^ 63 then (un, true) else (2 ^ 63 - 1, false))
  end.

(** The characters of a string. *)
Fixpoint chars (s : string) : list ascii :=
  match s with
  | EmptyString => []
  | String c s' => c :: chars s'
  end.

End Go.

(* ===================================================================== *)
(** * pkg/metar/controller.go: reading a report                           *)
(* ===================================================================== *)

Module MetarReport.
Import Go.

(** How a piece of code that can panic and whose loop is given fuel ends. *)
Inductive Run (A : Type) : Type :=
| Done (a : A)
| Panic          (* index or slice bounds out of range, nil dereference *)
| OutOfFuel.
Arguments Done {A} a.
Arguments Panic {A}.
Arguments OutOfFuel {A}.

Definition descriptors : gmap string string :=
  list_to_map
    [ ("MI", "shallow "); ("PR", "partial "); ("BC", "patches of ");
      ("DR", "low drifting "); ("BL", "blowing "); ("SH", "showers ");
      ("TS", "thunderstorm "); ("FZ", "freezing ") ]%string.

Definition conditions : gmap string string :=
  list_to_map
    [ ("RA", "rain"); ("DZ", "drizzle"); ("SN", "snow"); ("SG", "snow grains");
      ("IC", "ice crystals"); ("PL", "ice pellets"); ("GR", "hail");
      ("GS", "small hail and/or snow pellets"); ("FG", "fog");
      ("VA", "volcanic ash"); ("BR", "mist"); ("HZ", "haze");
      ("DU", "widespread dust"); ("FU", "smoke"); ("SA", "sand");
      ("PY", "spray"); ("SQ", "squall"); ("PO", "dust or sand whirls");
      ("DS", "dust storm"); ("SS", "sandstorm"); ("FC", "funnel cloud");
      ("UP", "unknown precipitation") ]%string.

(** The [switch] at the head of the loop body of [parseWeatherCondition]:
    the intensity and the suffix when [bit] is a marker. *)
Definition marker (bit : string) : option (string * string) :=
  if HasPrefix bit "-" then Some ("light ", "")
  else if HasPrefix bit "+" then Some ("heavy ", "")
  else if bool_decide (bit = "VC") then Some ("", " in the vicinity")
  else None.

(** The loop [for i < len(parts) { ... }] of [parseWeatherCondition];
    [fuel] bounds the passes. *)
Fixpoint weatherLoop (fuel : nat) (parts : list string) (i : nat)
    (results : list string) : Run (nat * list string) :=
  match fuel with
  | O => OutOfFuel
  | S fuel' =>
      match parts !! i with
      | None => Done (i, results)                       (* i >= len(parts) *)
      | Some bit =>
          (* the switch; [bit = parts[i]] after [i++] can be out of range *)
          let afterMarker : option (string * string * nat * string) :=
            match marker bit with
            | Some (intensity, suffix) =>
                match parts !! S i with
                | Some bit' => Some (intensity, suffix, S i, bit')
                | None => None
                end
            | None => Some (""%string, ""%string, i, bit)
            end in
          match afterMarker with
          | None => Panic
          | Some (intensity, suffix, i, bit) =>
              (* descriptor, ok := descriptors[bit] *)
              let descriptor := default ""%string (descriptors !! bit) in
              let afterDescriptor : (nat * string) + list string :=
                match descriptors !! bit with
                | Some _ =>
                    match parts !! S i with
                    | None => inr (results ++ [intensity +:+ descriptor +:+ suffix])
                    | Some bit' => inl (S i, bit')
                    end
                | None => inl (i, bit)
                end in
              match afterDescriptor with
              | inr results' =>
                  (* i++; i >= len(parts): append and break *)
                  Done (S i, results')
              | inl (i, bit) =>
                  match conditions !! bit with
                  | None => Done (i, results)            (* break *)
                  | Some condition =>
                      weatherLoop fuel' parts (S i)
                        (results ++ [intensity +:+ descriptor +:+ condition +:+ suffix])
                  end
              end
          end
      end
  end.

Definition parseWeatherCondition (parts : list string) : Run (nat * string) :=
  match weatherLoop (S (length parts)) parts 0 [] with
  | Done (i, results) =>
      Done (i, match results with
               | [] => "clear"%string
               | _ => Join results ", "
               end)
  | Panic => Panic
  | OutOfFuel => OutOfFuel
  end.

Record Winds : Type := mkWinds {
  Winds_Speed        : Z;
  Winds_Direction    : Z;
  Winds_Gusting      : Z;
  Winds_Variable     : bool;
  Winds_VariableLow  : Z;
  Winds_VariableHigh : Z
}.

#[global] Instance Winds_eq_dec : EqDecision Winds.
Proof. solve_decision. Defined.

(** [var windConditions Winds] *)
Definition zeroWinds : Winds := mkWinds 0 0 0 false 0 0.

(** [w.parse(in)]: the receiver and the slice after the call, and the
    result. The slice shares its array with the caller's [fields]. *)
Definition Winds_parse (w : Winds) (in_ : list string)
  : Run (Winds * list string * nat) :=
  match in_ with
  | [] => Panic                                       (* in[0] *)
  | in0 :: rest =>
      let variable := HasPrefix in0 "VRB" in
      let direction := if variable then Winds_Direction w else fst (Atoi in0) in
      match (match Index in0 "KT" with
             | Some kt => sliceTo in0 kt
             | None => Some in0
             end) with
      | None => Panic
      | Some in0 =>
          match (match Index in0 "G" with
                 | Some g =>
                     match sliceFrom in0 (S g), sliceTo in0 g with
                     | Some tail, Some head => Some (fst (Atoi tail), head)
                     | _, _ => None
                     end
                 | None => Some (Winds_Gusting w, in0)
                 end) with
          | None => Panic
          | Some (gusting, in0) =>
              let speed := fst (Atoi in0) in
              let w1 := mkWinds speed direction gusting variable
                          (Winds_VariableLow w) (Winds_VariableHigh w) in
              match rest with
              | in1 :: _ =>
                  match Index in1 "V" with
                  | Some (S v') =>
                      match sliceTo in1 (S v'), sliceFrom in1 (S (S v')) with
                      | Some low, Some high =>
                          Done (mkWinds speed direction gusting variable
                                  (fst (Atoi low)) (fst (Atoi high)),
                                in0 :: rest, 2%nat)
                      | _, _ => Panic
                      end
                  | _ => Done (w1, in0 :: rest, 1%nat)
                  end
              | [] => Done (w1, in0 :: rest, 1%nat)
              end
          end
      end
  end.

(** The loop of [parseSkyCover], which steps [idx] by one: the index it
    stops at and the two lists. *)
Fixpoint skyLoop (in_ : list string) (idx : nat) (lowClouds highClouds : list string)
  : Run (nat * list string * list string) :=
  match in_ with
  | [] => Done (idx, lowClouds, highClouds)
  | f :: rest =>
      if HasPrefix f "VV" then
        match sliceFrom f 2 with
        | None => Panic
        | Some t =>
            let '(base, ok) := Atoi t in
            if ok then
              Done (idx, lowClouds,
                    highClouds ++ ["ceiling at " +:+ FormatInt (int64 (base * 100))])
            else Done (idx, lowClouds, highClouds ++ ["overcast"%string])
        end
      else
        match sliceFrom f 3 with
        | None => Panic
        | Some t =>
            let '(base, ok) := Atoi t in
            if ok then
              let base := int64 (base * 100) in
              match slice f 0 2 with
              | None => Panic
              | Some key =>
                  if bool_decide (key = "FEW"%string) then
                    skyLoop rest (S idx)
                      (lowClouds ++ ["few at " +:+ FormatInt base]) highClouds
                  else if bool_decide (key = "SCT"%string) then
                    skyLoop rest (S idx)
                      (lowClouds ++ ["scattered at " +:+ FormatInt base]) highClouds
                  else if bool_decide (key = "BKN"%string) then
                    skyLoop rest (S idx) lowClouds
                      (highClouds ++ ["broken at " +:+ FormatInt base])
                  else if bool_decide (key = "OVC"%string) then
                    Done (idx, lowClouds,
                          highClouds ++ ["overcast deck at " +:+ FormatInt base])
                  else if bool_decide (key = "OVX"%string) then
                    Done (idx, lowClouds, highClouds ++ ["overcast"%string])
                  else if bool_decide (key = "SKC"%string) ||
                          bool_decide (key = "CLR"%string) then
                    Done (idx, lowClouds, highClouds ++ ["clear"%string])
                  else Done (idx, lowClouds, highClouds)
              end
            else skyLoop rest (S idx) lowClouds highClouds
        end
  end.

Definition parseSkyCover (in_ : list string) : Run (nat * string) :=
  match skyLoop in_ 0 [] [] with
  | Done (idx, lowClouds, highClouds) =>
      Done (idx,
            match highClouds, lowClouds with
            | _ :: _, _ => Join highClouds ", "
            | [], _ :: _ => Join lowClouds ", "
            | [], [] => "clear"%string
            end)
  | Panic => Panic
  | OutOfFuel => OutOfFuel
  end.

(** The fields of [Controller] that [parseLine] reads and writes. *)
Record Controller : Type := mkController {
  windConditions : Winds;
  skyCover       : string;
  wxCondition    : string;
  temperature    : Metar.float64
}.

(** A [for ; idx < len(fields); idx += 1] loop that goes on while [p]
    holds of [fields[idx]]; [rest] is [fields[idx:]]. *)
Fixpoint skip (p : string -> bool) (rest : list string) (idx : nat) : nat :=
  match rest with
  | f :: rest' => if p f then skip p rest' (S idx) else idx
  | [] => idx
  end.

(** The remarks loop, [rest] being [fields[idx:]]: it looks for ["RMK"] and
    then reads byte 0 of every later field. [false] is the panic on an
    empty field. *)
Fixpoint remarks (rest : list string) : bool :=
  match rest with
  | [] => true
  | f :: rest' =>
      if bool_decide (f = "RMK"%string)
      then forallb (fun f' => negb (bool_decide (f' = ""%string))) rest'
      else remarks rest'
  end.

(** The temperature group [field]: [temperatureFloat]. *)
Definition temperatureOf (field : string) : Run Metar.float64 :=
  match Index field "/" with
  | Some (S slash') =>
      match sliceTo field (S slash') with
      | None => Panic
      | Some f =>
          let neg := HasPrefix f "M" in
          match (if neg then sliceFrom f 1 else Some f) with
          | None => Panic
          | Some f =>
              let temperatureInt := fst (Atoi f) in
              let temperatureInt :=
                if neg then int64 (- temperatureInt) else temperatureInt in
              Done (Metar.f64 temperatureInt 0)
          end
      end
  | _ => Done (Metar.f64 0 0)
  end.

(** What the statements of [parseLine] before [c.lock.Lock()] come to: an
    error (the text in parentheses of its message, or the kind of
    mismatch) or the four values read. They do not look at the
    controller. [fields] is [strings.Split(strings.TrimSpace(line), " ")],
    [station] is [c.settings.METARStation()]. *)
Record Observation : Type := mkObservation {
  obsWinds       : Winds;
  obsSkyCover    : string;
  obsWxCondition : string;
  obsTemperature : Metar.float64
}.

Definition readReport (station : string) (fields : list string)
  : Run (string + Observation) :=
  let n := length fields in
  match fields with
  | [] => Panic
  | f0 :: _ =>
  if negb (bool_decide (f0 = "SPECI"%string)) && negb (bool_decide (f0 = "METAR"%string))
  then Done (inl "Unrecognized record type"%string)
  else
  match fields !! 1%nat with
  | None => Panic
  | Some f1 =>
  if negb (bool_decide (f1 = station))
  then Done (inl "Report for incorrect station"%string)
  else
  let idx := 4%nat in
  if (n <=? idx)%nat then Done (inl "start"%string) else
  match Winds_parse zeroWinds (List.skipn idx fields) with
  | Panic => Panic
  | OutOfFuel => OutOfFuel
  | Done (windConditions', _, k) =>
  let idx := (idx + k)%nat in
  if (n <=? idx)%nat then Done (inl "winds"%string) else
  let idx := skip (fun f => HasSuffix f "SM") (List.skipn idx fields) idx in
  if (n <=? idx)%nat then Done (inl "visibility"%string) else
  let idx := skip (fun f => HasPrefix f "R") (List.skipn idx fields) idx in
  if (n <=? idx)%nat then Done (inl "runway visual range"%string) else
  match parseWeatherCondition (List.skipn idx fields) with
  | Panic => Panic
  | OutOfFuel => OutOfFuel
  | Done (k, wxCondition') =>
  let idx := (idx + k)%nat in
  if (n <=? idx)%nat then Done (inl "weather conditions"%string) else
  match parseSkyCover (List.skipn idx fields) with
  | Panic => Panic
  | OutOfFuel => OutOfFuel
  | Done (k, skyCover') =>
  let idx := (idx + k)%nat in
  if (n <=? idx)%nat then Done (inl "sky cover"%string) else
  match fields !! idx with
  | None => Panic
  | Some field =>
  match temperatureOf field with
  | Panic => Panic
  | OutOfFuel => OutOfFuel
  | Done temperatureFloat =>
  let idx := S idx in
  if (n <=? idx)%nat then Done (inl "temperature"%string) else
  let idx := skip (fun f => HasPrefix f "A") (List.skipn idx fields) idx in
  if negb (remarks (List.skipn idx fields)) then Panic else
  Done (inr (mkObservation windConditions' skyCover' wxCondition' temperatureFloat))
  end end end end end end end.

(** The statements after [c.lock.Lock()]: each of the four fields is
    assigned when it differs, and [changed] says whether one did. *)
Definition store (c : Controller) (o : Observation) : bool * Controller :=
  let changed1 := negb (bool_decide (skyCover c = obsSkyCover o)) in
  let changed2 := negb (bool_decide (wxCondition c = obsWxCondition o)) in
  let changed3 := negb (bool_decide (windConditions c = obsWinds o)) in
  let changed4 := negb (SFeqb (temperature c) (obsTemperature o)) in
  (changed1 || changed2 || changed3 || changed4,
   mkController
     (if changed3 then obsWinds o else windConditions c)
     (if changed1 then obsSkyCover o else skyCover c)
     (if changed2 then obsWxCondition o else wxCondition c)
     (if changed4 then obsTemperature o else temperature c)).

(** What [parseLine] returns: an error, which leaves the controller as it
    was, or [changed] with the controller as it is left. *)
Inductive Outcome : Type :=
| Error (what : string)
| Parsed (changed : bool) (c : Controller).

Definition parseLine (station : string) (c : Controller) (fields : list string)
  : Run Outcome :=
  match readReport station fields with
  | Done (inl what) => Done (Error what)
  | Done (inr o) => Done (Parsed (fst (store c o)) (snd (store c o)))
  | Panic => Panic
  | OutOfFuel => OutOfFuel
  end.

(** [WeatherConditions] and [SkyCover] *)
Definition WeatherConditions (c : Controller) : string :=
  if bool_decide (wxCondition c = ""%string) then "data error" else wxCondition c.
Definition SkyCover (c : Controller) : string :=
  if bool_decide (skyCover c = ""%string) then "data error" else skyCover c.

End MetarReport.

(* ===================================================================== *)
(** * Reading the traces                                                  *)
(* ===================================================================== *)

Module Observe.
Import Core Server.

(** [now.Equal(e) || now.After(e)] for the sunrise, resp. the sunset, of a
    tick; a tick without times has reached nothing. *)
Definition sunriseReached (t : Tick) : bool :=
  match times t with
  | Some (sunrise, _) => Equal (now t) sunrise || After (now t) sunrise
  | None => false
  end.
Definition sunsetReached (t : Tick) : bool :=
  match times t with
  | Some (_, sunset) => Equal (now t) sunset || After (now t) sunset
  | None => false
  end.

(** All ticks are of the calendar day [d]: the times are known and both
    events fall on [d]. *)
Definition onDay (d : Date) (t : Tick) : Prop :=
  exists sunrise sunset,
    times t = Some (sunrise, sunset) /\ date sunrise = d /\ date sunset = d.

(** The compass point of a whole number of degrees, in exact arithmetic:
    the sixteenth of the circle that [d + 11.25] falls in. *)
Definition compass (d : Z) : string :=
  default ""%string
    (Metar.cardinalDirections !! Z.to_nat (((4 * (d mod 360) + 45) / 90) mod 16)).

(** Does [CardinalDirection], given ten passes of its loop, return the
    compass point of the whole number [d]? *)
Definition whole_degrees_ok (d : Z) : bool :=
  match Metar.CardinalDirection 10 (Metar.f64 d 0) with
  | Metar.Returns s => bool_decide (s = compass d)
  | _ => false
  end.

(** The updates pushed in a trace, on whatever channel. *)
Definition broadcast (evs : list Event) : list Sent :=
  omap (fun e => match e with Push _ m => Some m | _ => None end) evs.

Definition contents (m : Sent) : ManifestUpdate :=
  match m with SentLastUpdate u => u | SentUpdate u => u end.

(** The identifiers of the registry lie in [1 .. clientID]. *)
Definition registry_ok (a : Actor) : Prop :=
  0 <= clientID a < 2 ^ 64 /\
  forall id ch, clients a !! id = Some ch -> 1 <= id <= clientID a.

End Observe.

(* ===================================================================== *)
(** * pkg/server/grpc.go: from Burble loads and the jump run to messages  *)
(* ===================================================================== *)

Module Burble.

(** [burble.Jumper] and [burble.Load]: the package is not among the
    sources; these are the fields the server reads, with the types its
    expressions need ([uint64(j.ID)], [strconv.FormatInt(l.CallMinutes, 10)],
    [len(j.GroupMembers)], ...). *)
#[warnings="-register-all"]
Inductive Jumper : Type := mkJumper {
  ID             : Z;
  Name           : string;
  ShortName      : string;
  Nickname       : string;
  IsTandem       : bool;
  IsStudent      : bool;
  IsVideographer : bool;
  IsInstructor   : bool;
  GroupMembers   : list Jumper
}.

Record Load : Type := mkLoad {
  Load_ID             : Z;
  Load_AircraftName   : string;
  Load_LoadNumber     : string;
  Load_CallMinutes    : Z;
  Load_SlotsAvailable : Z;
  Load_IsFueling      : bool;
  Load_IsTurning      : bool;
  Load_IsNoTime       : bool;
  Load_Tandems        : list Jumper;
  Load_Students       : list Jumper;
  Load_SportJumpers   : list Jumper
}.

End Burble.

Module Grpc.
Import Go Server.

(** A tab, ["\t"]. *)
Definition tab : string := String "009"%char EmptyString.

(** [s.translateJumper(j, leader)]; [displayNicknames] is
    [s.options.DisplayNicknames]. *)
Definition translateJumper (displayNicknames : bool) (j : Burble.Jumper)
    (leader : option Jumper) : Jumper :=
  let '(color, prefix) :=
    match leader with
    | Some l => (Jumper_Color l, ""%string)
    | None =>
        if Burble.IsTandem j then ("#ffff00"%string, ""%string)
        else if Burble.IsStudent j || HasSuffix (Burble.ShortName j) " + Gear" then
          ("#00ff00"%string,
           if HasSuffix (Burble.ShortName j) " H/P" then "Hop & Pop"%string else ""%string)
        else if HasPrefix (Burble.ShortName j) "3-5k" ||
                HasPrefix (Burble.ShortName j) "3.5k" then
          ("#ff00ff"%string, "Hop & Pop"%string)
        else ("#ffffff"%string, ""%string)
    end in
  let name :=
    if displayNicknames && negb (bool_decide (Burble.Nickname j = ""%string))
    then Burble.Nickname j else Burble.Name j in
  let repr :=
    match leader with
    | None =>
        if Burble.IsTandem j then "Tandem: " +:+ name
        else if negb (bool_decide (prefix = ""%string)) then
          prefix +:+ ": " +:+ name +:+ " (" +:+ Burble.ShortName j +:+ ")"
        else name +:+ " (" +:+ Burble.ShortName j +:+ ")"
    | Some _ => tab +:+ name +:+ " (" +:+ Burble.ShortName j +:+ ")"
    end in
  let t :=
    if Burble.IsVideographer j then JumperType_VIDEOGRAPHER
    else
      match leader with
      | Some l =>
          match Jumper_Type l with
          | JumperType_TANDEM_STUDENT =>
              if Burble.IsInstructor j then JumperType_TANDEM_INSTRUCTOR
              else JumperType_EXPERIENCED
          | JumperType_AFF_STUDENT =>
              if Burble.IsInstructor j then JumperType_AFF_INSTRUCTOR
              else JumperType_EXPERIENCED
          | JumperType_COACH_STUDENT =>
              if Burble.IsInstructor j then JumperType_COACH
              else JumperType_EXPERIENCED
          | _ => JumperType_EXPERIENCED
          end
      | None =>
          if Burble.IsTandem j then JumperType_TANDEM_STUDENT
          else if Burble.IsStudent j then JumperType_AFF_STUDENT
          else JumperType_EXPERIENCED
      end in
  {| Jumper_Id := uint64 (Burble.ID j);
     Jumper_Type := t;
     Jumper_Name := Burble.Name j;
     Jumper_ShortName := Burble.ShortName j;
     Jumper_Nickname := Burble.Nickname j;
     Jumper_Color := color;
     Jumper_Repr := repr |}.

(** [s.slotFromJumper(j)] *)
Definition slotFromJumper (displayNicknames : bool) (j : Burble.Jumper) : LoadSlot :=
  match Burble.GroupMembers j with
  | [] =>
      mkLoadSlot (Some (LoadSlot_Jumper (Some (translateJumper displayNicknames j None))))
  | members =>
      let leader := translateJumper displayNicknames j None in
      mkLoadSlot (Some (LoadSlot_Group (Some
        {| JumperGroup_Leader := Some leader;
           JumperGroup_Members :=
             (fun member => translateJumper displayNicknames member (Some leader))
               <$> members |})))
  end.

(** The jumpers of a slot, the leader first. *)
Definition jumpersOf (slot : LoadSlot) : list Jumper :=
  match LoadSlot_Slot slot with
  | Some (LoadSlot_Jumper (Some j)) => [j]
  | Some (LoadSlot_Group (Some g)) =>
      match JumperGroup_Leader g with
      | Some l => l :: JumperGroup_Members g
      | None => JumperGroup_Members g
      end
  | _ => []
  end.

(** The loads block of [constructUpdate]: one [Load] of [u.Loads.Loads]. *)
Definition translateLoad (displayNicknames : bool) (l : Burble.Load) : Load :=
  let callMinutes :=
    if negb (Burble.Load_IsNoTime l) then
      if Burble.Load_CallMinutes l =? 0 then "NOW"%string
      else FormatInt (Burble.Load_CallMinutes l)
    else ""%string in
  let slotsAvailable :=
    if Burble.Load_CallMinutes l <=? 5 then
      FormatInt (Burble.Load_SlotsAvailable l) +:+ " aboard"
    else if Burble.Load_SlotsAvailable l =? 1 then "1 slot"%string
    else FormatInt (Burble.Load_SlotsAvailable l) +:+ " slots" in
  {| Load_Id := uint64 (Burble.Load_ID l);
     Load_AircraftName := Burble.Load_AircraftName l;
     Load_LoadNumber := Burble.Load_LoadNumber l;
     Load_CallMinutes := int32 (Burble.Load_CallMinutes l);
     Load_CallMinutesString := callMinutes;
     Load_SlotsAvailable := int32 (Burble.Load_SlotsAvailable l);
     Load_SlotsAvailableString := slotsAvailable;
     Load_IsFueling := Burble.Load_IsFueling l;
     Load_IsTurning := Burble.Load_IsTurning l;
     Load_IsNoTime := Burble.Load_IsNoTime l;
     Load_Slots :=
       ((slotFromJumper displayNicknames <$> Burble.Load_Tandems l) ++
        (slotFromJumper displayNicknames <$> Burble.Load_Students l)) ++
       (slotFromJumper displayNicknames <$> Burble.Load_SportJumpers l) |}.

(** What identifies a jumper: the identifier and the three names. *)
Definition identity (x : Jumper) : Z * string * string * string :=
  (Jumper_Id x, Jumper_Name x, Jumper_ShortName x, Jumper_Nickname x).
Definition identityOf (j : Burble.Jumper) : Z * string * string * string :=
  (uint64 (Burble.ID j), Burble.Name j, Burble.ShortName j, Burble.Nickname j).

(** A jumper and the members of its group; the groups of the members are
    not looked at. *)
Definition withMembers (j : Burble.Jumper) : list Burble.Jumper :=
  j :: Burble.GroupMembers j.

(** The jumpers of a load in the order of the three loops. *)
Definition manifested (l : Burble.Load) : list Burble.Jumper :=
  (Burble.Load_Tandems l ++ Burble.Load_Students l) ++ Burble.Load_SportJumpers l.

(** [jumprun.Jumprun] as the jump-run block reads it (the package is not
    among the sources). *)
Record HookTurn : Type := mkHookTurn {
  HookTurn_Distance : Z;
  HookTurn_Heading  : Z
}.

Record JumprunState : Type := mkJumprunState {
  Latitude            : string;
  Longitude           : string;
  MagneticDeclination : Z;
  CameraHeight        : Z;
  IsSet               : bool;
  Heading             : Z;
  ExitDistance        : Z;
  OffsetHeading       : Z;
  OffsetDistance      : Z;
  HookTurns           : list HookTurn
}.

(** [for _, t := range j.HookTurns { if t.Distance == 0 && t.Heading == 0
    { break }; p.Turns = append(p.Turns, ...) }] *)
Fixpoint turnsLoop (hookTurns : list HookTurn) (turns : list JumprunTurn)
  : list JumprunTurn :=
  match hookTurns with
  | [] => turns
  | t :: rest =>
      if (HookTurn_Distance t =? 0) && (HookTurn_Heading t =? 0) then turns
      else turnsLoop rest
             (turns ++ [mkJumprunTurn (int32 (HookTurn_Distance t))
                                      (int32 (HookTurn_Heading t))])
  end.

(** [u.Jumprun], from [s.app.Jumprun().Jumprun()]. *)
Definition jumprunBlock (j : JumprunState) : Jumprun :=
  {| Jumprun_Origin :=
       Some {| JumprunOrigin_Latitude := Latitude j;
               JumprunOrigin_Longitude := Longitude j;
               JumprunOrigin_MagneticDeviation := int32 (MagneticDeclination j);
               JumprunOrigin_CameraHeight := int32 (CameraHeight j) |};
     Jumprun_Path :=
       if IsSet j then
         Some {| JumprunPath_Heading := int32 (Heading j);
                 JumprunPath_ExitDistance := int32 (ExitDistance j);
                 JumprunPath_OffsetHeading := int32 (OffsetHeading j);
                 JumprunPath_OffsetDistance := int32 (OffsetDistance j);
                 JumprunPath_Turns := turnsLoop (HookTurns j) [] |}
       else None |}.

End Grpc.

(* ===================================================================== *)
(** * Conversions in floating point                                       *)
(* ===================================================================== *)

Module Units.
Import Metar.

Definition mul (x y : float64) : float64 := SFmul 53 1024 x y.

(** [math.Ceil(x)], which is [-Floor(-x)]. *)
Definition Ceil (x : float64) : float64 := SFopp (Floor (SFopp x)).

(** pkg/metar: [return ((c * 9.0) / 5.0) + 32.0] *)
Definition FahrenheitFromCelsius (c : float64) : float64 :=
  add (div (mul c (f64 9 0)) (f64 5 0)) (f64 32 0).

(** The constant [0.3048]: the binary64 value nearest to it,
    [5490788665690109 * 2^-54]. *)
Definition feet : float64 := f64 5490788665690109 (-54).

(** pkg/core: [c.SeparationDelay(speed)]; [None] where the conversion to
    [int] has no defined result. *)
Definition SeparationDelay (speed : Z) : option Z :=
  let msec := div (mul (f64 1852 0) (f64 speed 0)) (f64 3600 0) in
  let ftsec := div msec feet in
  toInt (Ceil (div (f64 1000 0) ftsec)).

(** The seconds it takes to cover 1000 feet at [speed] knots, rounded up,
    in exact arithmetic: a knot is 1852 m/h and a foot 0.3048 m, so
    the time is [274320 / (463 * speed)] seconds. *)
Definition seconds_per_1000ft (speed : Z) : Z :=
  (274320 + 463 * speed - 1) / (463 * speed).

Definition SeparationDelay_ok (speed : Z) : bool :=
  bool_decide (SeparationDelay speed = Some (seconds_per_1000ft speed)).

(** Degrees Fahrenheit of a whole number of degrees Celsius, cut to a
    whole number towards zero, in exact arithmetic. *)
Definition fahrenheit (c : Z) : Z := Z.quot (9 * c + 160) 5.

Definition Fahrenheit_ok (c : Z) : bool :=
  bool_decide (toInt (FahrenheitFromCelsius (f64 c 0)) = Some (fahrenheit c)).

End Units.

(* ===================================================================== *)
(** * pkg/server/legacy.go: the text manifest                             *)
(* ===================================================================== *)

Module Legacy.
Import Go Server.

(** [winds.Sample] as the server reads it (the package is not among the
    sources). *)
Record Sample : Type := mkSample {
  Altitude         : Z;
  Heading          : Z;
  Speed            : Z;
  Temperature      : Z;
  LightAndVariable : bool
}.

(** [s.windsAloftString()]: the colour and the text. [None]: a conversion
    of a floating-point value to [int] whose result the language leaves
    open. *)
Definition windsAloftString (windsAloftSource : option (list Sample))
  : option (string * string) :=
  match windsAloftSource with
  | None => Some ("#ffffff", "")
  | Some samples =>
      match samples !! 13%nat with
      | None => Some ("#ffffff", "")               (* len(samples) < 14 *)
      | Some sample =>
          let speed := if LightAndVariable sample then 85
                       else int64 (85 - Speed sample) in
          match (if speed <=? 0 then
                   Some ("#ff0000",
                         "Winds are " +:+ FormatInt (Speed sample) +:+ " knots")
                 else
                   match Units.SeparationDelay speed with
                   | Some delay =>
                       Some ("#ffffff",
                             "Separation is " +:+ FormatInt delay +:+ " seconds")
                   | None => None
                   end),
                Metar.toInt (Units.FahrenheitFromCelsius
                               (Metar.f64 (Temperature sample) 0)) with
          | Some (color, str), Some f =>
              let t := "(" +:+ FormatInt (Temperature sample) +:+ "℃ / " +:+
                       FormatInt f +:+ "℉)" in
              if negb (bool_decide (str = "")) && negb (bool_decide (t = "")) then
                Some (color, str +:+ " " +:+ t)
              else if bool_decide (str = "") then Some (color, t)
              else if bool_decide (t = "") then Some (color, str)
              else Some (color, "")
          | _, _ => None
          end
      end
  end.

(** The colour and the prefix [addToManifest] chooses for a jumper. *)
Definition colorAndPrefix (jumper : Burble.Jumper) : string * string :=
  if Burble.IsTandem jumper then ("#ffff00", "")
  else if Burble.IsStudent jumper || HasSuffix (Burble.ShortName jumper) " + Gear" then
    ("#00ff00",
     if bool_decide (Burble.ShortName jumper = "3500 H/P") then "Hop & Pop"
     else if bool_decide (Burble.ShortName jumper = "5500 H/P") then "Hop & Pop"
     else "")
  else if HasPrefix (Burble.ShortName jumper) "3-5k" ||
          HasPrefix (Burble.ShortName jumper) "3.5k" then
    ("#ff00ff", "Hop & Pop")
  else ("#ffffff", "").

(** [s.addToManifest(slots, jumper)] *)
Definition addToManifest (slots : list string) (jumper : Burble.Jumper) : list string :=
  let '(color, prefix) := colorAndPrefix jumper in
  let slots :=
    if Burble.IsTandem jumper then
      slots ++ [color +:+ " " +:+ "Tandem: " +:+ Burble.Name jumper]
    else if negb (bool_decide (prefix = "")) then
      slots ++ [color +:+ " " +:+ prefix +:+ ": " +:+ Burble.Name jumper +:+
                " (" +:+ Burble.ShortName jumper +:+ ")"]
    else
      slots ++ [color +:+ " " +:+ Burble.Name jumper +:+
                " (" +:+ Burble.ShortName jumper +:+ ")"] in
  fold_left
    (fun slots member =>
       slots ++ [color +:+ " " +:+ Grpc.tab +:+ Burble.Name member +:+
                 " (" +:+ Burble.ShortName member +:+ ")"])
    (Burble.GroupMembers jumper) slots.

(** The three loops over [load.Tandems], [load.Students] and
    [load.SportJumpers], from [var slots []string]. *)
Definition slotsOf (load : Burble.Load) : list string :=
  fold_left addToManifest (Burble.Load_SportJumpers load)
    (fold_left addToManifest (Burble.Load_Students load)
       (fold_left addToManifest (Burble.Load_Tandems load) [])).

(** The body of [for _, load := range loads]: the lines one load adds. *)
Definition appendLoad (lines : list string) (load : Burble.Load) : list string :=
  let slots := slotsOf load in
  let lines := lines ++ [FormatInt (Burble.Load_ID load)] in
  let lines := lines ++ [Burble.Load_AircraftName load] in
  let lines := lines ++ ["Load " +:+ Burble.Load_LoadNumber load] in
  let lines :=
    if Burble.Load_IsNoTime load then lines ++ [""]
    else lines ++ [FormatInt (Burble.Load_CallMinutes load)] in
  let lines := lines ++ [FormatInt (Z.of_nat (length slots))] in
  let lines :=
    if Burble.Load_CallMinutes load <=? 5 then
      lines ++ [FormatInt (Z.of_nat (length slots)) +:+ " aboard"]
    else
      let slotsStr := if Burble.Load_SlotsAvailable load =? 1 then "slot" else "slots" in
      lines ++ [FormatInt (Burble.Load_SlotsAvailable load) +:+ " " +:+ slotsStr] in
  let lines := if Burble.Load_IsTurning load then lines ++ ["1"] else lines ++ ["0"] in
  let lines := if Burble.Load_IsFueling load then lines ++ ["1"] else lines ++ ["0"] in
  lines ++ slots.

(** The strings the first six lines show: what the METAR source, the
    winds aloft and the message line say when [updateManifestStaticData]
    runs (the METAR source is taken to be there: the method reads it
    without a nil check). *)
Record Header : Type := mkHeader {
  TemperatureString : string;
  WindConditions    : string;
  SkyCover          : string;
  WeatherConditions : string;
  aloftColor        : string;
  aloftString       : string;
  messageString     : string
}.

(** [lines] of [updateManifestStaticData], as joined into [/manifest]. *)
Definition heading (h : Header) (loads : list Burble.Load) : list string :=
  [ "#ffffff " +:+ TemperatureString h;
    "#ffffff" +:+ " " +:+ WindConditions h;
    "#ffffff " +:+ SkyCover h;
    "#ffffff " +:+ WeatherConditions h;
    aloftColor h +:+ " " +:+ aloftString h;
    "#ffffff " +:+ messageString h;
    FormatInt (Z.of_nat (length loads)) ].

Definition manifestLines (h : Header) (loads : list Burble.Load) : list string :=
  fold_left appendLoad loads (heading h loads).

(** The jumpers whose hop-and-pop label the two manifests decide
    differently: [translateJumper] looks for the suffix [" H/P"],
    [addToManifest] for two altitudes. *)
Definition labelled_differently (x : Jumper) : Prop :=
  HasSuffix (Jumper_ShortName x) " H/P" = true /\
  Jumper_ShortName x <> "3500 H/P" /\ Jumper_ShortName x <> "5500 H/P".

End Legacy.

(* ===================================================================== *)
(** * What the theorems below speak of                                    *)
(* ===================================================================== *)

(** ** The days a transition fires for *)

Module Days.
Import Core Observe.

(** The event dates of the passes at which the event had been reached, up
    to the pass that ends the loop ([event] picks the sunrise or the
    sunset of a pass, [reached] says whether the pass has reached it). *)
Fixpoint reachedDates (reached : Tick -> bool) (event : Time * Time -> Time)
    (ticks : list Tick) : list Date :=
  match ticks with
  | [] => []
  | t :: ticks' =>
      match times t with
      | None => []
      | Some p =>
          (if reached t then [date (event p)] else []) ++
          reachedDates reached event ticks'
      end
  end.

Definition sunriseReachedDates : list Tick -> list Date :=
  reachedDates sunriseReached fst.
Definition sunsetReachedDates : list Tick -> list Date :=
  reachedDates sunsetReached snd.

(** A list of dates without the entries that repeat the entry before them,
    [last] standing before the first. *)
Fixpoint collapse (last : Date) (l : list Date) : list Date :=
  match l with
  | [] => []
  | d :: l' => if decide (last = d) then collapse d l' else d :: collapse d l'
  end.

End Days.

(** ** What a baseline holds *)

Module Baseline.
Import Server Observe.



End Baseline.

(** ** Multiples of a quarter in binary64 *)

Module Quarter.
Import Metar.

(** [m * 2^e] is a multiple of a quarter. *)
Definition quarter_pair (m e : Z) : Prop :=
  -2 <= e \/ exists c, m = c * 2 ^ (- e - 2).

(** A value that is not negative, finite, a multiple of a quarter, with a
    mantissa below [2^B] and an exponent from [lo] to [hi]. *)
Definition shaped (lo hi B : Z) (x : float64) : Prop :=
  match x with
  | S754_zero _ => True
  | S754_finite false m e =>
      lo <= e <= hi /\ Zpos m < 2 ^ B /\ quarter_pair (Zpos m) e
  | _ => False
  end.

#[global] Instance spec_float_eq_dec : EqDecision spec_float.
Proof. solve_decision. Defined.

End Quarter.

(* ===================================================================== *)
(** * The change bitmask                                                  *)
(* ===================================================================== *)

Section DataSourceFlags.
Import Core.

Lemma flag_values :
  map flag categories = [8; 4; 2; 6; 0].
Proof. reflexivity. Qed.

(** C1. The five flags are meant to be five distinct non-zero single
    bits. The constants of the [const] block are [n << 1], not [1 << n]:
    the flag of the loads category is zero, so a mask never shows that
    loads were notified, and the winds-aloft flag is the union of the
    jump-run and METAR flags, so a mask in which only the jump run was
    notified tests positive for winds aloft. *)
Theorem DataSource_flags_overlap :
  flag Loads = 0 /\
  Z.land (flag WindsAloft) (flag Jumprun) = flag Jumprun /\ flag Jumprun <> 0 /\
  Z.land (flag WindsAloft) (flag Weather) = flag Weather /\ flag Weather <> 0 /\
  test (coalesce [Loads]) Loads = false /\
  test (coalesce [Jumprun]) WindsAloft = true /\
  coalesce [Jumprun; Weather] = coalesce [WindsAloft].
Proof. repeat split; try reflexivity; discriminate. Qed.

End DataSourceFlags.

(* ===================================================================== *)
(** * The legacy static-content updater                                   *)
(* ===================================================================== *)

Section Legacy.
Import Core Server.

Lemma legacyUpdate_calls source pending :
  legacyUpdate source pending =
    (if has (fold_left Z.lor pending source) WindsAloftDataSource
     then [updateWindsStaticData] else []) ++
    (if has (fold_left Z.lor pending source) JumprunDataSource
     then [updateJumprunStaticData] else []) ++
    [updateManifestStaticData].
Proof.
  unfold legacyUpdate.
  replace (fst (drain source pending)) with (fold_left Z.lor pending source);
    [reflexivity|].
  revert source; induction pending as [|s c IH]; intros source; simpl; auto.
Qed.

(** C9. The winds-aloft content is to be regenerated only for a mask
    that includes winds aloft and the jump-run content only for a mask
    that includes the jump run. With the flags of the [const] block, a
    notification of METAR alone regenerates the winds-aloft content, a
    notification of the jump run alone regenerates the winds-aloft content
    too, and a notification of winds aloft alone regenerates the jump-run
    content. *)
Theorem legacyUpdate_other_category :
  legacyUpdate METARDataSource [] =
    [updateWindsStaticData; updateManifestStaticData] /\
  legacyUpdate JumprunDataSource [] =
    [updateWindsStaticData; updateJumprunStaticData; updateManifestStaticData] /\
  legacyUpdate WindsAloftDataSource [] =
    [updateWindsStaticData; updateJumprunStaticData; updateManifestStaticData].
Proof. repeat split. Qed.

End Legacy.

(* ===================================================================== *)
(** * CardinalDirection                                                   *)
(* ===================================================================== *)

Section Cardinal.
Import Metar.

Example CardinalDirection_north :
  CardinalDirection 0 (f64 0 0) = Returns "N".
Proof. vm_compute. reflexivity. Qed.

Example CardinalDirection_west :
  CardinalDirection 1 (f64 (-90) 0) = Returns "W".
Proof. vm_compute. reflexivity. Qed.

Example CardinalDirection_wraps :
  CardinalDirection 0 (f64 1395 (-2)) = Returns "N" /\
  CardinalDirection 0 (f64 697 (-1)) = Returns "NNW".
Proof. split; vm_compute; reflexivity. Qed.

(** Adding 360 to [-2^63] gives [-2^63] again: the neighbouring binary64
    values are 1024 apart. *)
Lemma minInt64_absorbs : add minInt64 (f64 360 0) = minInt64.
Proof. vm_compute. reflexivity. Qed.

Lemma minInt64_negative : lt minInt64 (f64 0 0) = true.
Proof. vm_compute. reflexivity. Qed.

Lemma normalize_unfold fuel degrees :
  normalize fuel degrees =
    if lt degrees (f64 0 0) then
      match fuel with
      | O => None
      | S fuel' => normalize fuel' (add degrees (f64 360 0))
      end
    else Some degrees.
Proof. destruct fuel; reflexivity. Qed.

Lemma normalize_minInt64 fuel : normalize fuel minInt64 = None.
Proof.
  induction fuel as [|fuel IH]; rewrite normalize_unfold, minInt64_negative;
    [reflexivity|].
  rewrite minInt64_absorbs. exact IH.
Qed.

(** When the normalisation loop ends, the value is not below zero. *)
Lemma normalize_not_negative fuel degrees d :
  normalize fuel degrees = Some d -> lt d (f64 0 0) = false.
Proof.
  revert degrees; induction fuel as [|fuel IH]; intros degrees;
    rewrite normalize_unfold; destruct (lt degrees (f64 0 0)) eqn:E;
    try discriminate.
  - intros [= <-]. exact E.
  - apply IH.
  - intros [= <-]. exact E.
Qed.

(** C10 as stated does not hold for every finite input. [degrees = -2^63]
    (a finite binary64 value, [float64(math.MinInt64)]) is below zero, and
    adding [360.0] to it gives [-2^63] again: the loop
    [for degrees < 0.0 { degrees += 360.0 }] leaves [degrees] as it is,
    and the function is still in that loop after any number of passes. *)
Theorem CardinalDirection_minInt64_loops :
  lt minInt64 (f64 0 0) = true /\
  add minInt64 (f64 360 0) = minInt64 /\
  (forall fuel, CardinalDirection fuel minInt64 = StillLooping).
Proof.
  split; [exact minInt64_negative|]. split; [exact minInt64_absorbs|].
  intros fuel. unfold CardinalDirection. rewrite normalize_minInt64. reflexivity.
Qed.

End Cardinal.

(* ===================================================================== *)
(** * The day-boundary loop                                               *)
(* ===================================================================== *)

Section DayBoundary.
Import Core.

Lemma date_lt_irrefl d : ~ date_lt d d.
Proof. destruct d as [[y m] d]. unfold date_lt. lia. Qed.

Lemma date_lt_trans a b c : date_lt a b -> date_lt b c -> date_lt a c.
Proof.
  destruct a as [[y1 m1] d1], b as [[y2 m2] d2], c as [[y3 m3] d3].
  unfold date_lt. lia.
Qed.

Lemma date_le_lt_trans a b c : date_le a b -> date_lt b c -> date_lt a c.
Proof. intros [->|H]; eauto using date_lt_trans. Qed.

Lemma date_lt_le_trans a b c : date_lt a b -> date_le b c -> date_lt a c.
Proof. intros H [<-|H']; eauto using date_lt_trans. Qed.

Lemma date_le_neq_lt a b : date_le a b -> a <> b -> date_lt a b.
Proof. intros [->|H]; [congruence | auto]. Qed.

Lemma date_lt_sorted_NoDup (l : list Date) :
  StronglySorted date_lt l -> NoDup l.
Proof.
  induction 1 as [|d l Hs IH Hall]; constructor; auto.
  intros Hin. rewrite Forall_forall in Hall.
  exact (date_lt_irrefl d (Hall d Hin)).
Qed.

(** A guarded block fires exactly when the instant is reached and the
    marker differs; firing moves the marker to the event's date. *)
Lemma transition_spec fire now e last :
  transition fire now e last =
    if bool_decide (unix e <= unix now /\ last <> date e)
    then ([fire (date e)], date e) else ([], last).
Proof.
  unfold transition, Equal, After, DeepEqual.
  assert (Hr : (unix now =? unix e) || (unix e <? unix now) = (unix e <=? unix now))
    by (destruct (Z.eqb_spec (unix now) (unix e)), (Z.ltb_spec (unix e) (unix now)),
          (Z.leb_spec (unix e) (unix now)); simpl; try reflexivity; lia).
  rewrite Hr. clear Hr.
  destruct (Z.leb_spec (unix e) (unix now)), (decide (last = date e));
    repeat case_bool_decide; simpl; try reflexivity; exfalso; try tauto; try lia.
Qed.

Lemma iteration_times st t sunrise sunset :
  times t = Some (sunrise, sunset) ->
  iteration st t =
    (fst (transition RunSunset (now t) sunset (lastSunset st)) ++
     fst (transition RunSunrise (now t) sunrise (lastSunrise st)),
     Some (mkMarkers (snd (transition RunSunrise (now t) sunrise (lastSunrise st)))
                     (snd (transition RunSunset (now t) sunset (lastSunset st))))).
Proof.
  intros H. unfold iteration. rewrite H.
  destruct (transition RunSunset _ _ _), (transition RunSunrise _ _ _).
  reflexivity.
Qed.

Lemma loop_cons st t ticks :
  loop st (t :: ticks) =
    match iteration st t with
    | (acts, None) => (acts, None)
    | (acts, Some st') => (acts ++ fst (loop st' ticks), snd (loop st' ticks))
    end.
Proof.
  simpl. destruct (iteration st t) as [acts [st'|]]; [|reflexivity].
  destruct (loop st' ticks). reflexivity.
Qed.

Lemma sunriseKind_ok : kind_ok sunriseKind.
Proof.
  split; [reflexivity|]. split; [intros a b; apply omap_app|].
  split; [reflexivity|]. split; [intros t ticks; exact (omap_app _ [t] ticks)|].
  intros st t. destruct (times t) as [[sunrise sunset]|] eqn:Ht.
  - rewrite (iteration_times _ _ _ _ Ht). simpl.
    exists (date sunrise). eexists. split; [reflexivity|].
    split; [unfold sunriseDates; simpl; rewrite Ht; reflexivity|].
    unfold sunrises. rewrite omap_app, !transition_spec.
    repeat case_bool_decide; simpl; intuition auto.
  - unfold iteration, sunriseDates. simpl. rewrite Ht. auto.
Qed.

Lemma sunsetKind_ok : kind_ok sunsetKind.
Proof.
  split; [reflexivity|]. split; [intros a b; apply omap_app|].
  split; [reflexivity|]. split; [intros t ticks; exact (omap_app _ [t] ticks)|].
  intros st t. destruct (times t) as [[sunrise sunset]|] eqn:Ht.
  - rewrite (iteration_times _ _ _ _ Ht). simpl.
    exists (date sunset). eexists. split; [reflexivity|].
    split; [unfold sunsetDates; simpl; rewrite Ht; reflexivity|].
    unfold sunsets. rewrite omap_app, !transition_spec.
    repeat case_bool_decide; simpl; intuition auto.
  - unfold iteration, sunsetDates. simpl. rewrite Ht. auto.
Qed.

(** With the event dates of the ticks in calendar order and none of them
    before the marker, the dates fired for are strictly increasing and all
    after the marker. *)
Lemma fired_bounded k ticks :
  kind_ok k ->
  forall st,
    StronglySorted date_le (dates k ticks) ->
    Forall (date_le (marker k st)) (dates k ticks) ->
    StronglySorted date_lt (fired k (fst (loop st ticks))) /\
    Forall (date_lt (marker k st)) (fired k (fst (loop st ticks))).
Proof.
  intros (Hnil & Happ & Hdnil & Hdcons & Hstep).
  induction ticks as [|t ticks IH]; intros st Hs Hb.
  - simpl. rewrite Hnil. split; constructor.
  - rewrite loop_cons. rewrite Hdcons in Hs, Hb.
    specialize (Hstep st t). destruct (times t).
    + destruct Hstep as (d & st' & Hnext & Hd & Hcase).
      rewrite Hd in Hs, Hb. simpl in Hs, Hb.
      destruct (iteration st t) as [acts o]. simpl in Hnext, Hcase. subst o.
      simpl. rewrite Happ.
      apply StronglySorted_inv in Hs. destruct Hs as [Hs Hd_le].
      apply Forall_cons in Hb. destruct Hb as [Hm Hb].
      destruct Hcase as [(Hf & Hne & Hm') | (Hf & Hm')]; rewrite Hf; simpl.
      * destruct (IH st' Hs) as [IH1 IH2]; [rewrite Hm'; exact Hd_le|].
        rewrite Hm' in IH2.
        assert (Hlt : date_lt (marker k st) d) by (apply date_le_neq_lt; auto).
        split; constructor; auto.
        eapply Forall_impl; [exact IH2|].
        intros x Hx. eapply date_lt_trans; eauto.
      * destruct (IH st' Hs) as [IH1 IH2]; [rewrite Hm'; exact Hb|].
        rewrite Hm' in IH2. auto.
    + destruct Hstep as (Hnext & Hf & Hd).
      destruct (iteration st t) as [acts o]. simpl in Hnext, Hf. subst o.
      simpl. rewrite Hf. split; constructor.
Qed.

Lemma fired_sorted k ticks :
  kind_ok k ->
  forall st,
    StronglySorted date_le (dates k ticks) ->
    StronglySorted date_lt (fired k (fst (loop st ticks))).
Proof.
  intros Hk. pose proof Hk as (Hnil & Happ & Hdnil & Hdcons & Hstep).
  induction ticks as [|t ticks IH]; intros st Hs.
  - simpl. rewrite Hnil. constructor.
  - rewrite loop_cons. rewrite Hdcons in Hs.
    specialize (Hstep st t). destruct (times t).
    + destruct Hstep as (d & st' & Hnext & Hd & Hcase).
      rewrite Hd in Hs. simpl in Hs.
      destruct (iteration st t) as [acts o]. simpl in Hnext, Hcase. subst o.
      simpl. rewrite Happ.
      apply StronglySorted_inv in Hs. destruct Hs as [Hs Hd_le].
      destruct Hcase as [(Hf & Hne & Hm') | (Hf & Hm')]; rewrite Hf; simpl.
      * destruct (fired_bounded k ticks Hk st' Hs) as [B1 B2];
          [rewrite Hm'; exact Hd_le|].
        rewrite Hm' in B2. constructor; auto.
      * apply IH. exact Hs.
    + destruct Hstep as (Hnext & Hf & Hd).
      destruct (iteration st t) as [acts o]. simpl in Hnext, Hf. subst o.
      simpl. rewrite Hf. constructor.
Qed.

(** C6. A tick at which the coordinates cannot be determined is to be
    skipped and the next tick tried. The error branch of the loop is
    [return]: the loop has ended after that pass, and whatever the later
    ticks are (here one at which the sunrise has been reached), nothing is
    fired for them. The same tick fires when it is the first. *)
Theorem loop_ends_on_error :
  (forall st now0 ticks,
     loop st (mkTick None now0 :: ticks) = ([ReportError], None)) /\
  (let day := (2021, 6, 1) in
   let later := mkTick (Some (mkTime 100 day, mkTime 900 day)) (mkTime 500 day) in
   runAtSunriseSunset [mkTick None (mkTime 480 day); later] = ([ReportError], None) /\
   fst (runAtSunriseSunset [later]) = [RunSunrise day]).
Proof. split; [reflexivity|]. split; reflexivity. Qed.

End DayBoundary.

(* ===================================================================== *)
(** * Once per day, whatever the tick interval                          *)
(* ===================================================================== *)

Section DayCount.
Import Core Observe Days.

Lemma sunrises_collapse ticks : forall st,
  sunrises (fst (loop st ticks)) = collapse (lastSunrise st) (sunriseReachedDates ticks).
Proof.
  induction ticks as [|t ticks IH]; intros st; [reflexivity|].
  rewrite loop_cons. unfold sunriseReachedDates. cbn [reachedDates].
  unfold sunriseReached at 1.
  destruct (times t) as [[sunrise sunset]|] eqn:Ht.
  - rewrite (iteration_times _ _ _ _ Ht). cbn [fst snd].
    unfold sunrises. rewrite !omap_app. fold (sunrises (fst (loop
      (mkMarkers (snd (transition RunSunrise (now t) sunrise (lastSunrise st)))
                 (snd (transition RunSunset (now t) sunset (lastSunset st)))) ticks))).
    rewrite IH. cbn [lastSunrise].
    unfold transition. 
    destruct (Equal (now t) sunrise || After (now t) sunrise);
      destruct (Equal (now t) sunset || After (now t) sunset); cbn [fst snd];
      unfold DeepEqual;
      repeat case_bool_decide; cbn;
      repeat (destruct (decide _)); try congruence; try reflexivity;
      unfold sunriseReachedDates; congruence.
  - unfold iteration. rewrite Ht. reflexivity.
Qed.

Lemma sunsets_collapse ticks : forall st,
  sunsets (fst (loop st ticks)) = collapse (lastSunset st) (sunsetReachedDates ticks).
Proof.
  induction ticks as [|t ticks IH]; intros st; [reflexivity|].
  rewrite loop_cons. unfold sunsetReachedDates. cbn [reachedDates].
  unfold sunsetReached at 1.
  destruct (times t) as [[sunrise sunset]|] eqn:Ht.
  - rewrite (iteration_times _ _ _ _ Ht). cbn [fst snd].
    unfold sunsets. rewrite !omap_app. fold (sunsets (fst (loop
      (mkMarkers (snd (transition RunSunrise (now t) sunrise (lastSunrise st)))
                 (snd (transition RunSunset (now t) sunset (lastSunset st)))) ticks))).
    rewrite IH. cbn [lastSunset].
    unfold transition.
    destruct (Equal (now t) sunrise || After (now t) sunrise);
      destruct (Equal (now t) sunset || After (now t) sunset); cbn [fst snd];
      unfold DeepEqual;
      repeat case_bool_decide; cbn;
      repeat (destruct (decide _)); try congruence; try reflexivity;
      unfold sunsetReachedDates; congruence.
  - unfold iteration. rewrite Ht. reflexivity.
Qed.

(** In a list in calendar order, the dates that [collapse] keeps are the
    dates of the list, but for the date [last] when the list starts with
    it. *)
Lemma collapse_sorted l : forall last d,
  StronglySorted date_le l ->
  d ∈ collapse last l <->
  d ∈ l /\ (d <> last \/ exists d', d' ∈ l /\ date_lt d' d).
Proof.
  induction l as [|x l IH]; intros last d Hs; cbn [collapse].
  - split; [intros H; inversion H|intros [H _]; inversion H].
  - apply StronglySorted_inv in Hs. destruct Hs as [Hs Hall].
    rewrite Forall_forall in Hall.
    assert (Hno : forall d', d' ∈ x :: l -> ~ date_lt d' x).
    { intros d' Hd' Hlt. apply elem_of_cons in Hd'. destruct Hd' as [->|Hd'].
      - exact (date_lt_irrefl _ Hlt).
      - exact (date_lt_irrefl _ (date_le_lt_trans _ _ _ (Hall _ Hd') Hlt)). }
    destruct (decide (last = x)) as [->|Hne].
    + rewrite (IH x d Hs). split.
      * intros [Hin Hc]. split; [right; exact Hin|].
        destruct Hc as [Hc|(d' & Hd' & Hlt)]; [left; exact Hc|].
        right. exists d'. split; [right; exact Hd'|exact Hlt].
      * intros [Hin Hc].
        assert (Hdx : d <> x).
        { intros ->. destruct Hc as [Hc|(d' & Hd' & Hlt)]; [congruence|].
          exact (Hno d' Hd' Hlt). }
        apply elem_of_cons in Hin. destruct Hin as [->|Hin]; [congruence|].
        split; [exact Hin|left; exact Hdx].
    + rewrite elem_of_cons, (IH x d Hs). split.
      * intros [->|[Hin Hc]].
        -- split; [left|left; congruence].
        -- split; [right; exact Hin|].
           destruct Hc as [Hc|(d' & Hd' & Hlt)].
           ++ right. exists x. split; [left|].
              apply date_le_neq_lt; [exact (Hall _ Hin)|congruence].
           ++ right. exists d'. split; [right; exact Hd'|exact Hlt].
      * intros [Hin Hc].
        destruct (decide (d = x)) as [->|Hdx]; [left; reflexivity|right].
        apply elem_of_cons in Hin. destruct Hin as [->|Hin]; [congruence|].
        split; [exact Hin|left; exact Hdx].
Qed.

Lemma reachedDates_Forall (P : Date -> Prop) reached event (ticks : list Tick) :
  Forall P (omap (fun t => (fun p : Time * Time => date (event p)) <$> times t) ticks) ->
  Forall P (reachedDates reached event ticks).
Proof.
  induction ticks as [|t ticks IH]; [constructor|].
  cbn [reachedDates]. intros H.
  change (t :: ticks) with ([t] ++ ticks) in H. rewrite omap_app in H.
  apply Forall_app in H. destruct H as [H1 H2].
  destruct (times t) as [p|] eqn:Ht; [|constructor].
  cbn in H1. rewrite Ht in H1. cbn in H1. apply Forall_cons in H1. destruct H1 as [H1 _].
  destruct (reached t); cbn; [constructor|]; auto.
Qed.

Lemma reachedDates_sorted reached event (ticks : list Tick) :
  StronglySorted date_le
    (omap (fun t => (fun p : Time * Time => date (event p)) <$> times t) ticks) ->
  StronglySorted date_le (reachedDates reached event ticks).
Proof.
  induction ticks as [|t ticks IH]; [constructor|].
  cbn [reachedDates]. intros H.
  destruct (times t) as [p|] eqn:Ht; [|constructor].
  cbn in H. rewrite Ht in H. cbn in H.
  apply StronglySorted_inv in H. destruct H as [H1 H2].
  destruct (reached t); cbn; [|auto].
  constructor; [auto|]. apply reachedDates_Forall. exact H2.
Qed.

End DayCount.

Section DayCountClaim.
Import Core Observe Days.

#[local] Instance date_lt_transitive : Transitive date_lt.
Proof. intros a b c. apply date_lt_trans. Qed.

#[local] Instance date_lt_antisymm : AntiSymm (=) date_lt.
Proof.
  intros a b H1 H2. exfalso. exact (date_lt_irrefl a (date_lt_trans _ _ _ H1 H2)).
Qed.

(** Two runs from the same marker over ticks in calendar order that reach
    the event on the same days fire for the same days. *)
Lemma collapse_same_days last l1 l2 :
  StronglySorted date_le l1 -> StronglySorted date_le l2 ->
  (forall d, d ∈ l1 <-> d ∈ l2) ->
  forall d, d ∈ collapse last l1 <-> d ∈ collapse last l2.
Proof.
  intros H1 H2 Hsame d. rewrite !collapse_sorted by assumption.
  rewrite Hsame. split; intros [Hin Hc]; (split; [exact Hin|]);
    (destruct Hc as [Hc|(d' & Hd' & Hlt)]; [left; exact Hc|right; exists d']);
    (split; [apply Hsame; exact Hd'|exact Hlt]).
Qed.

(** C7 (as amended). In a run of the loop, from whatever markers, over
    ticks whose event dates do not go back in the calendar, each of the two
    transitions fires at most once per calendar day: no date is fired for
    twice. The days fired for are the days on which some pass found the
    event instant reached (the day the marker holds at the start is left
    out when no earlier day is among them): they do not depend on how many
    passes there are in a day, and two runs that reach the events on the
    same days fire for the same days, in the same order. In a pass a
    transition fires exactly when the current time has reached the event
    instant and the marker differs from the event's date, and firing sets
    the marker to that date. *)
Theorem transitions_once_per_day st ticks :
  StronglySorted date_le (sunriseDates ticks) ->
  StronglySorted date_le (sunsetDates ticks) ->
  NoDup (sunrises (fst (loop st ticks))) /\
  NoDup (sunsets (fst (loop st ticks))) /\
  (forall d, d ∈ sunrises (fst (loop st ticks)) <->
             d ∈ sunriseReachedDates ticks /\
             (d <> lastSunrise st \/
              exists d', d' ∈ sunriseReachedDates ticks /\ date_lt d' d)) /\
  (forall d, d ∈ sunsets (fst (loop st ticks)) <->
             d ∈ sunsetReachedDates ticks /\
             (d <> lastSunset st \/
              exists d', d' ∈ sunsetReachedDates ticks /\ date_lt d' d)) /\
  (forall ticks',
     StronglySorted date_le (sunriseDates ticks') ->
     StronglySorted date_le (sunsetDates ticks') ->
     (forall d, d ∈ sunriseReachedDates ticks <-> d ∈ sunriseReachedDates ticks') ->
     (forall d, d ∈ sunsetReachedDates ticks <-> d ∈ sunsetReachedDates ticks') ->
     sunrises (fst (loop st ticks)) = sunrises (fst (loop st ticks')) /\
     sunsets (fst (loop st ticks)) = sunsets (fst (loop st ticks'))) /\
  (forall st0 now0 sunrise sunset,
     let reachedRise := bool_decide (unix sunrise <= unix now0 /\ lastSunrise st0 <> date sunrise) in
     let reachedSet := bool_decide (unix sunset <= unix now0 /\ lastSunset st0 <> date sunset) in
     iteration st0 (mkTick (Some (sunrise, sunset)) now0) =
       ((if reachedSet then [RunSunset (date sunset)] else []) ++
        (if reachedRise then [RunSunrise (date sunrise)] else []),
        Some (mkMarkers (if reachedRise then date sunrise else lastSunrise st0)
                        (if reachedSet then date sunset else lastSunset st0)))).
Proof.
  intros Hrise Hset.
  pose proof (fired_sorted sunriseKind ticks sunriseKind_ok st Hrise) as S1.
  pose proof (fired_sorted sunsetKind ticks sunsetKind_ok st Hset) as S2.
  cbn [fired sunriseKind sunsetKind] in S1, S2.
  pose proof (reachedDates_sorted sunriseReached fst ticks Hrise) as R1.
  pose proof (reachedDates_sorted sunsetReached snd ticks Hset) as R2.
  split; [apply date_lt_sorted_NoDup; exact S1|].
  split; [apply date_lt_sorted_NoDup; exact S2|].
  split; [intros d; rewrite sunrises_collapse; apply collapse_sorted; exact R1|].
  split; [intros d; rewrite sunsets_collapse; apply collapse_sorted; exact R2|].
  split.
  - intros ticks' Hrise' Hset' Hsame1 Hsame2.
    pose proof (fired_sorted sunriseKind ticks' sunriseKind_ok st Hrise') as S1'.
    pose proof (fired_sorted sunsetKind ticks' sunsetKind_ok st Hset') as S2'.
    cbn [fired sunriseKind sunsetKind] in S1', S2'.
    pose proof (reachedDates_sorted sunriseReached fst ticks' Hrise') as R1'.
    pose proof (reachedDates_sorted sunsetReached snd ticks' Hset') as R2'.
    split.
    + apply (StronglySorted_unique date_lt); [exact S1|exact S1'|].
      apply NoDup_Permutation; try (apply date_lt_sorted_NoDup; assumption).
      intros d. rewrite !sunrises_collapse.
      apply collapse_same_days; assumption.
    + apply (StronglySorted_unique date_lt); [exact S2|exact S2'|].
      apply NoDup_Permutation; try (apply date_lt_sorted_NoDup; assumption).
      intros d. rewrite !sunsets_collapse.
      apply collapse_same_days; assumption.
  - intros st0 now0 sunrise sunset. simpl.
    rewrite (iteration_times st0 (mkTick (Some (sunrise, sunset)) now0) sunrise sunset eq_refl). simpl.
    rewrite !transition_spec. repeat case_bool_decide; reflexivity.
Qed.

(** C7 as stated does not hold in every execution: the marker keeps only
    the last date fired for. When the wall clock is set back a day between
    two passes and forward again (the dates of the passes are 1 June,
    31 May, 1 June, each pass after the sunrise of its day), the sunrise
    transition fires for 1 June twice. *)
Lemma sunrise_fires_twice_after_clock_set_back :
  let d0 : Date := (2021, 5, 31) in
  let d1 : Date := (2021, 6, 1) in
  let ticks :=
    [ mkTick (Some (mkTime 86500 d1, mkTime 136400 d1)) (mkTime 90000 d1);
      mkTick (Some (mkTime 100 d0, mkTime 50000 d0)) (mkTime 3700 d0);
      mkTick (Some (mkTime 86500 d1, mkTime 136400 d1)) (mkTime 90100 d1) ] in
  sunrises (fst (runAtSunriseSunset ticks)) = [d1; d0; d1] /\
  ~ NoDup (sunrises (fst (runAtSunriseSunset ticks))) /\
  ~ StronglySorted date_le (sunriseDates ticks).
Proof.
  cbv zeta. split; [reflexivity|]. split.
  - change (sunrises _) with [(2021, 6, 1); (2021, 5, 31); (2021, 6, 1)].
    intros H. apply NoDup_cons in H. destruct H as [H _]. apply H.
    right. left.
  - intros H. change (sunriseDates _) with [(2021, 6, 1); (2021, 5, 31); (2021, 6, 1)] in H.
    apply StronglySorted_inv in H. destruct H as [_ H].
    apply Forall_cons in H. destruct H as [[H|H] _]; [discriminate|].
    unfold date_lt in H. lia.
Qed.

End DayCountClaim.


(* ===================================================================== *)
(** * The actor loop: coalescing and the diff                             *)
(* ===================================================================== *)

Section Wake.
Import Core Server.

Lemma drain_all source pending :
  drain source pending = (fold_left Z.lor pending source, []).
Proof.
  revert source; induction pending as [|s c IH]; intros source; simpl; auto.
Qed.

Lemma testbit_coalesced pending : forall source n,
  Z.testbit (fold_left Z.lor pending source) n =
    existsb (fun s => Z.testbit s n) (source :: pending).
Proof.
  induction pending as [|s c IH]; intros source n; simpl.
  - rewrite orb_false_r. reflexivity.
  - rewrite IH. simpl. rewrite Z.lor_spec, orb_assoc. reflexivity.
Qed.

Lemma step_wake a app source pending :
  step a (Wake app source pending) =
    let mask := fold_left Z.lor pending source in
    let u := fst (diff (constructUpdate app mask) (lastUpdate a)) in
    if snd (diff (constructUpdate app mask) (lastUpdate a)) then
      (mkActor (clientID a) (clients a) (proto_Merge (lastUpdate a) u),
       Construct mask :: fanOut (clients a) u)
    else (a, [Construct mask]).
Proof.
  unfold step. rewrite drain_all. simpl.
  destruct (diff (constructUpdate app (fold_left Z.lor pending source)) (lastUpdate a))
    as [u changed].
  reflexivity.
Qed.

Lemma constructed_fanOut cl u : constructed (fanOut cl u) = [].
Proof.
  unfold fanOut, constructed.
  induction (map_to_list cl) as [|kv l IH]; simpl; auto.
Qed.

(** C8. When the loop takes a notification with others already buffered
    behind it, the drain loop empties the channel and ORs every buffered
    mask into the one received: bit by bit the result is the union of the
    [N] masks. The pass then constructs and diffs one update, for that
    combined mask. *)
Theorem wake_coalesces a app source pending :
  let mask := fold_left Z.lor pending source in
  drain source pending = (mask, []) /\
  (forall n, Z.testbit mask n =
             existsb (fun s => Z.testbit s n) (source :: pending)) /\
  constructed (snd (step a (Wake app source pending))) = [mask].
Proof.
  cbv zeta. split; [apply drain_all|]. split; [apply testbit_coalesced|].
  rewrite step_wake. cbv zeta.
  destruct (snd (diff _ _)); [|reflexivity].
  change (fold_left Z.lor pending source ::
          constructed (fanOut (clients a)
            (fst (diff (constructUpdate app (fold_left Z.lor pending source))
                       (lastUpdate a)))) = [fold_left Z.lor pending source]).
  rewrite constructed_fanOut. reflexivity.
Qed.

Lemma drop_equal_kept {M : Type} `{EqDecision M} (x y : option M) :
  kept y x (drop_equal x y).
Proof.
  intros v. unfold drop_equal, proto_Equal. case_bool_decide as E.
  - split; [discriminate | intros [_ Hne]; congruence].
  - split; [intros ->; auto | intros [-> _]; reflexivity].
Qed.

Lemma diff_changed x y :
  snd (diff x y) = true <-> fst (diff x y) <> emptyUpdate.
Proof.
  unfold diff, emptyUpdate. simpl.
  destruct (drop_equal (ManifestUpdate_Status x) _),
           (drop_equal (ManifestUpdate_Options x) _),
           (drop_equal (ManifestUpdate_Jumprun x) _),
           (drop_equal (ManifestUpdate_WindsAloft x) _),
           (drop_equal (ManifestUpdate_Loads x) _);
    simpl; split; intros H; try reflexivity; try discriminate; try congruence.
Qed.

Lemma pushed_fanOut cl u ch m :
  m ∈ pushed ch (fanOut cl u) <->
  m = SentUpdate u /\ exists id, cl !! id = Some ch.
Proof.
  unfold pushed, fanOut. rewrite list_elem_of_omap. split.
  - intros (e & He & Hm). apply list_elem_of_fmap in He.
    destruct He as ([id ch'] & -> & Hin). simpl in Hm.
    destruct (decide (ch' = ch)) as [->|]; [|discriminate].
    injection Hm as <-. split; [reflexivity|].
    exists id. apply elem_of_map_to_list. exact Hin.
  - intros (-> & id & Hid). exists (Push ch (SentUpdate u)). split.
    + apply list_elem_of_fmap. exists (id, ch). split; [reflexivity|].
      apply elem_of_map_to_list. exact Hid.
    + simpl. destruct (decide (ch = ch)); [reflexivity | congruence].
Qed.

(** C4. The update emitted for a notification has exactly the categories
    of the candidate whose value differs from the last broadcast's (a
    category the last broadcast lacks differs), each with the candidate's
    value. It is pushed to the channel of every registered client and to
    nothing else, and when no category is left nothing is pushed at all. *)
Theorem diff_emits_changed_categories a app source pending :
  let last := lastUpdate a in
  let candidate := constructUpdate app (fst (drain source pending)) in
  let u := fst (diff candidate last) in
  let evs := snd (step a (Wake app source pending)) in
  kept (ManifestUpdate_Status last) (ManifestUpdate_Status candidate) (ManifestUpdate_Status u) /\
  kept (ManifestUpdate_Options last) (ManifestUpdate_Options candidate) (ManifestUpdate_Options u) /\
  kept (ManifestUpdate_Jumprun last) (ManifestUpdate_Jumprun candidate) (ManifestUpdate_Jumprun u) /\
  kept (ManifestUpdate_WindsAloft last) (ManifestUpdate_WindsAloft candidate) (ManifestUpdate_WindsAloft u) /\
  kept (ManifestUpdate_Loads last) (ManifestUpdate_Loads candidate) (ManifestUpdate_Loads u) /\
  (forall ch m,
     m ∈ pushed ch evs <->
     u <> emptyUpdate /\ m = SentUpdate u /\ exists id, clients a !! id = Some ch).
Proof.
  cbv zeta. repeat (split; [apply drop_equal_kept|]).
  intros ch m. rewrite step_wake, drain_all. cbv zeta.
  change (fst (fold_left Z.lor pending source, @nil DataSource))
    with (fold_left Z.lor pending source).
  pose proof (diff_changed (constructUpdate app (fold_left Z.lor pending source))
                (lastUpdate a)) as Hc.
  set (d := diff (constructUpdate app (fold_left Z.lor pending source)) (lastUpdate a)) in *.
  destruct (snd d).
  - change (m ∈ pushed ch (fanOut (clients a) (fst d)) <->
            fst d <> emptyUpdate /\ m = SentUpdate (fst d) /\
            exists id, clients a !! id = Some ch).
    rewrite pushed_fanOut.
    assert (fst d <> emptyUpdate) by (apply Hc; reflexivity).
    tauto.
  - change (m ∈ @nil Sent <->
            fst d <> emptyUpdate /\ m = SentUpdate (fst d) /\
            exists id, clients a !! id = Some ch).
    split; [intros H; apply elem_of_nil in H; destruct H|].
    intros (Hne & _). apply Hc in Hne. discriminate.
Qed.

End Wake.

(* ===================================================================== *)
(** * The actor loop: merging the emitted update                          *)
(* ===================================================================== *)

Section Merge.
Import Core Server.

(** A category the update lacks is left as it is. *)
Lemma proto_Merge_absent last u :
  (ManifestUpdate_Status u = None ->
   ManifestUpdate_Status (proto_Merge last u) = ManifestUpdate_Status last) /\
  (ManifestUpdate_Options u = None ->
   ManifestUpdate_Options (proto_Merge last u) = ManifestUpdate_Options last) /\
  (ManifestUpdate_Jumprun u = None ->
   ManifestUpdate_Jumprun (proto_Merge last u) = ManifestUpdate_Jumprun last) /\
  (ManifestUpdate_WindsAloft u = None ->
   ManifestUpdate_WindsAloft (proto_Merge last u) = ManifestUpdate_WindsAloft last) /\
  (ManifestUpdate_Loads u = None ->
   ManifestUpdate_Loads (proto_Merge last u) = ManifestUpdate_Loads last).
Proof. repeat split; intros H; simpl; rewrite H; reflexivity. Qed.

(** A list of a category the update has is the old list followed by the
    new one. *)
Lemma proto_Merge_appends last u old new :
  ManifestUpdate_Loads last = Some old ->
  ManifestUpdate_Loads u = Some new ->
  Loads_Loads <$> ManifestUpdate_Loads (proto_Merge last u) =
    Some (Loads_Loads old ++ Loads_Loads new).
Proof. intros H1 H2. simpl. rewrite H1, H2. reflexivity. Qed.

(** C2. After a broadcast every category of the emitted update is to be,
    in [lastUpdate], what the update has for it. [proto.Merge] does not
    overwrite: it appends lists and keeps a scalar where the update has
    the zero value. Three runs of it:
    - the last broadcast has one winds-aloft sample and the sources now
      have that sample with another speed; the pass for a winds-aloft
      notification emits the new one-sample list and leaves [lastUpdate]
      with both samples;
    - the last broadcast has [DisplayWeather] set and a message, and the
      settings now have neither; the pass emits the new options and
      [lastUpdate] keeps the old flag and the old message;
    - merging an update with one load into a last broadcast with one load
      gives two loads. *)
Theorem proto_Merge_does_not_overwrite :
  let noStatus := mkStatus "" "" "" "" "" "" "" "" "" "" in
  let noJumprun := mkJumprun None None in
  let s1 := mkWindsAloftSample 3000 270 10 5 false in
  let s2 := mkWindsAloftSample 3000 270 15 5 false in
  let o1 := mkOptions false true false "Winds hold" "#ffffff" in
  let o2 := mkOptions false false false "" "#ffffff" in
  let before := mkApp o1 noStatus noJumprun (mkWindsAloft [s1]) (mkLoads 0 []) in
  let winds := mkApp o1 noStatus noJumprun (mkWindsAloft [s2]) (mkLoads 0 []) in
  let options := mkApp o2 noStatus noJumprun (mkWindsAloft [s1]) (mkLoads 0 []) in
  let a := start before true true true in
  let l1 := mkLoad 1 "Otter" "1" 20 "20" 3 "3 slots" false false false [] in
  let l2 := mkLoad 2 "Otter" "2" 40 "40" 5 "5 slots" false false false [] in
  (fst (diff (constructUpdate winds WindsAloftDataSource) (lastUpdate a)) =
     mkManifestUpdate None None None (Some (mkWindsAloft [s2])) None /\
   ManifestUpdate_WindsAloft
     (lastUpdate (fst (step a (Wake winds WindsAloftDataSource [])))) =
     Some (mkWindsAloft [s1; s2])) /\
  (fst (diff (constructUpdate options OptionsDataSource) (lastUpdate a)) =
     mkManifestUpdate None (Some o2) None None None /\
   ManifestUpdate_Options
     (lastUpdate (fst (step a (Wake options OptionsDataSource [])))) =
     Some o1) /\
  ManifestUpdate_Loads
    (proto_Merge (mkManifestUpdate None None None None (Some (mkLoads 4 [l1])))
                 (mkManifestUpdate None None None None (Some (mkLoads 4 [l2])))) =
    Some (mkLoads 4 [l1; l2]).
Proof. vm_compute. repeat split. Qed.

End Merge.

(* ===================================================================== *)
(** * The actor loop: admission                                           *)
(* ===================================================================== *)

Section Admission.
Import Core Server.

Lemma processUpdates_cons a cmd cmds :
  processUpdates a (cmd :: cmds) =
    (fst (processUpdates (fst (step a cmd)) cmds),
     snd (step a cmd) ++ snd (processUpdates (fst (step a cmd)) cmds)).
Proof.
  cbn [processUpdates]. destruct (step a cmd) as [a' evs]. cbn [fst snd].
  destruct (processUpdates a' cmds) as [a'' evs']. reflexivity.
Qed.


Lemma uint64_range z : 0 <= uint64 z < 2 ^ 64.
Proof. unfold uint64. apply Z.mod_pos_bound. lia. Qed.

Lemma uint64_add_l z k : uint64 (uint64 z + k) = uint64 (z + k).
Proof. unfold uint64. apply Zplus_mod_idemp_l. Qed.

Lemma uint64_small z : 0 <= z < 2 ^ 64 -> uint64 z = z.
Proof. unfold uint64. apply Z.mod_small. Qed.

(** What a pass does to [clientID] and which identifiers it replies. *)
Lemma step_clientID a cmd :
  clientID (fst (step a cmd)) =
    match cmd with
    | AddClient _ => uint64 (clientID a + 1)
    | _ => clientID a
    end.
Proof.
  destruct cmd as [req|req|app source pending]; try reflexivity.
  rewrite step_wake. cbv zeta. destruct (snd (diff _ _)); reflexivity.
Qed.



Lemma admissions_cons cmd cmds :
  admissions (cmd :: cmds) =
    match cmd with
    | AddClient _ => S (admissions cmds)
    | _ => admissions cmds
    end.
Proof. destruct cmd; reflexivity. Qed.

(** The loop hands out 1, 2, 3, ... modulo [2^64]. *)
Lemma processUpdates_clientID cmds : forall a,
  0 <= clientID a < 2 ^ 64 ->
  clientID (fst (processUpdates a cmds)) =
    uint64 (clientID a + Z.of_nat (admissions cmds)).
Proof.
  induction cmds as [|cmd cmds IH]; intros a Ha.
  - simpl. rewrite Z.add_0_r, uint64_small; auto.
  - rewrite processUpdates_cons. cbn [fst].
    rewrite IH, step_clientID, admissions_cons.
    + destruct cmd; rewrite ?uint64_add_l; f_equal; lia.
    + rewrite step_clientID. destruct cmd; auto using uint64_range.
Qed.


(** Channels enter the registry only through a request, and the loop
    pushes only to the registry and to the channel of the request at
    hand. *)

Lemma step_registered a cmd ch :
  registered (fst (step a cmd)) ch -> registered a ch \/ ch ∈ offered [cmd].
Proof.
  intros [id Hid]. destruct cmd as [req|req|app source pending].
  - simpl in Hid. destruct (decide (id = uint64 (clientID a + 1))) as [->|Hne].
    + rewrite lookup_insert_eq in Hid. injection Hid as <-.
      right. simpl. apply list_elem_of_singleton. reflexivity.
    + rewrite lookup_insert_ne in Hid by congruence. left. exists id. exact Hid.
  - simpl in Hid. left. exists id.
    destruct (decide (id = removeClientRequest_id req)) as [->|Hne].
    + rewrite lookup_delete_eq in Hid. discriminate.
    + rewrite lookup_delete_ne in Hid by congruence. exact Hid.
  - left. exists id. rewrite step_wake in Hid. cbv zeta in Hid.
    destruct (snd (diff _ _)); exact Hid.
Qed.

Lemma step_pushed a cmd ch m :
  m ∈ pushed ch (snd (step a cmd)) -> registered a ch \/ ch ∈ offered [cmd].
Proof.
  destruct cmd as [req|req|app source pending].
  - simpl. destruct (decide (addClientRequest_updates req = ch)) as [->|Hne].
    + intros _. right. apply list_elem_of_singleton. reflexivity.
    + intros H. apply elem_of_nil in H. destruct H.
  - simpl. intros H. apply elem_of_nil in H. destruct H.
  - rewrite step_wake. cbv zeta. destruct (snd (diff _ _)).
    + change (m ∈ pushed ch (fanOut (clients a)
                (fst (diff (constructUpdate app (fold_left Z.lor pending source))
                           (lastUpdate a)))) -> registered a ch \/ ch ∈ offered []).
      rewrite pushed_fanOut. intros [_ H]. left. exact H.
    + simpl. intros H. apply elem_of_nil in H. destruct H.
Qed.

Lemma offered_cons cmd cmds ch :
  ch ∈ offered (cmd :: cmds) <-> ch ∈ offered [cmd] \/ ch ∈ offered cmds.
Proof.
  change (cmd :: cmds) with ([cmd] ++ cmds). unfold offered.
  rewrite omap_app, elem_of_app. reflexivity.
Qed.

Lemma processUpdates_registered cmds : forall a ch,
  registered (fst (processUpdates a cmds)) ch ->
  registered a ch \/ ch ∈ offered cmds.
Proof.
  induction cmds as [|cmd cmds IH]; intros a ch H.
  - left. exact H.
  - rewrite processUpdates_cons in H. cbn [fst] in H.
    rewrite offered_cons.
    destruct (IH _ _ H) as [H'|H']; [|tauto].
    destruct (step_registered _ _ _ H'); tauto.
Qed.

Lemma processUpdates_pushed cmds : forall a ch m,
  m ∈ pushed ch (snd (processUpdates a cmds)) ->
  registered a ch \/ ch ∈ offered cmds.
Proof.
  induction cmds as [|cmd cmds IH]; intros a ch m H.
  - simpl in H. apply elem_of_nil in H. destruct H.
  - rewrite processUpdates_cons in H. cbn [snd] in H.
    unfold pushed in H. rewrite omap_app, elem_of_app in H.
    rewrite offered_cons. destruct H as [H|H].
    + destruct (step_pushed _ _ _ _ H); tauto.
    + destruct (IH _ _ _ H) as [H'|H']; [|tauto].
      destruct (step_registered _ _ _ H'); tauto.
Qed.



End Admission.

(* ===================================================================== *)
(** * The baseline of a new subscriber                                  *)
(* ===================================================================== *)

Section BaselineFacts.
Import Core Server Observe Baseline.














End BaselineFacts.

Section AdmissionClaim.
Import Core Server Observe Baseline.


End AdmissionClaim.


(* ===================================================================== *)
(** * addClient and removeClient                                          *)
(* ===================================================================== *)

Section Callers.
Import Core Server.

Lemma fanOut_empty u : fanOut ∅ u = [].
Proof. unfold fanOut. rewrite map_to_list_empty. reflexivity. Qed.

Lemma started_quiet s : started s -> quiet s.
Proof.
  intros (_ & Hcl & Ha & Hr & Hch & Hk). repeat split; auto.
  eapply Forall_impl; [exact Hk|]. intros [] H; simpl in *; tauto.
Qed.

(** With nobody registered a notification changes no channel. *)
Lemma wake_quiet a app source pending chs :
  clients a = ∅ ->
  clients (fst (step a (Wake app source pending))) = ∅ /\
  fold_left deliver (snd (step a (Wake app source pending))) chs = chs.
Proof.
  intros Hcl. rewrite step_wake. cbv zeta.
  destruct (snd (diff _ _)); cbn [fst snd clients]; rewrite ?Hcl, ?fanOut_empty;
    split; reflexivity.
Qed.

Lemma quiet_step s s' : quiet s -> sys_step s s' -> quiet s'.
Proof.
  intros (Hcl & Ha & Hr & Hch & Hk) Hstep.
  destruct Hstep as [s i c Hi | s i request response rest Hi Hrep
                    | s i id Hi | s i request rest Hi Hrep
                    | s req rest Hq | s req rest Hq
                    | s app source pending Hq | s source];
    unfold quiet; cbn [actor addClientChan removeClientChan channels callers].
  - repeat split; auto. apply Forall_insert; auto.
  - rewrite Hch in Hrep. simpl in Hrep. rewrite lookup_empty in Hrep. discriminate.
  - repeat split; auto. apply Forall_insert; auto.
  - rewrite Hch in Hrep. simpl in Hrep. rewrite lookup_empty in Hrep. discriminate.
  - congruence.
  - congruence.
  - destruct (wake_quiet (actor s) app source pending (channels s) Hcl) as [H1 H2].
    rewrite H1, H2. repeat split; auto.
  - repeat split; auto.
Qed.

(** C3. A call of [addClient] or [removeClient] is to hand its request to
    the loop and return once the loop has replied. Neither function sends
    its request: [addClient] builds it and then receives from the fresh
    reply channel, which nobody else holds. From the started server, in
    every interleaving of the loop, the callers and the producers, nothing
    ever arrives on [addClientChan] or [removeClientChan], the registry
    stays empty, no reply and no update is ever sent, and no call has
    returned. *)
Theorem addClient_removeClient_never_return s s' :
  started s ->
  rtc sys_step s s' ->
  Forall (fun k => ~ returned k) (callers s') /\
  addClientChan s' = [] /\ removeClientChan s' = [] /\
  clients (actor s') = ∅ /\
  channels s' = mkChannels ∅ ∅ ∅.
Proof.
  intros Hs Hrtc. apply started_quiet in Hs.
  assert (Hq : quiet s').
  { induction Hrtc as [s|s1 s2 s3 Hstep _ IH]; [exact Hs|].
    apply IH. eapply quiet_step; eauto. }
  destruct Hq as (Hcl & Ha & Hr & Hch & Hk). auto.
Qed.

(** The loop does serve a request that reaches [addClientChan]: with the
    request in the channel and the caller receiving on its reply channel,
    the call returns the identifier. *)
Lemma request_on_addClientChan_is_served :
  let app := mkApp empty_Options empty_Status empty_Jumprun empty_WindsAloft empty_Loads in
  let req := mkAddClientRequest 0%nat 5%nat in
  let s := mkSystem (start app false false false) [req] [] [] (mkChannels ∅ ∅ ∅)
             [addClient_receiving req] 1%nat in
  exists s', rtc sys_step s s' /\ callers s' = [addClient_returned 1].
Proof.
  cbv zeta. eexists. split.
  - eapply rtc_l; [apply actor_add; reflexivity|].
    eapply rtc_l; [|apply rtc_refl].
    eapply (addClient_receive _ 0%nat (mkAddClientRequest 0%nat 5%nat)
              (mkAddClientResponse 1) []); [reflexivity|].
    simpl. unfold send. rewrite lookup_insert_eq. reflexivity.
  - reflexivity.
Qed.

End Callers.

(* ===================================================================== *)
(** * The theorems at concrete runs                                       *)
(* ===================================================================== *)

Section Instances.
Import Core Server Observe Baseline.

(** Two ticks on the first of June, after sunrise and after sunset, and one
    on the second after sunrise. *)
Lemma transitions_once_per_day_witness :
  let day1 : Date := (2021, 6, 1) in
  let day2 : Date := (2021, 6, 2) in
  let ticks :=
    [ mkTick (Some (mkTime 100 day1, mkTime 900 day1)) (mkTime 500 day1);
      mkTick (Some (mkTime 100 day1, mkTime 900 day1)) (mkTime 950 day1);
      mkTick (Some (mkTime 1100 day2, mkTime 1900 day2)) (mkTime 1500 day2) ] in
  StronglySorted date_le (sunriseDates ticks) /\
  StronglySorted date_le (sunsetDates ticks) /\
  NoDup (sunrises (fst (loop initialMarkers ticks))) /\
  NoDup (sunsets (fst (loop initialMarkers ticks))).
Proof.
  cbv zeta.
  match goal with |- ?A /\ ?B /\ _ => assert (H1 : A); [|assert (H2 : B)] end.
  - simpl. repeat first [apply SSorted_nil | apply SSorted_cons
                        | apply List.Forall_nil | apply List.Forall_cons];
      first [left; reflexivity | right; simpl; lia].
  - simpl. repeat first [apply SSorted_nil | apply SSorted_cons
                        | apply List.Forall_nil | apply List.Forall_cons];
      first [left; reflexivity | right; simpl; lia].
  - split; [exact H1|]. split; [exact H2|].
    pose proof (transitions_once_per_day initialMarkers _ H1 H2) as (N1 & N2 & _).
    split; [exact N1|exact N2].
Defined.


(** One goroutine calls [addClient], another [removeClient]; the first has
    built its request. *)
Lemma addClient_removeClient_never_return_witness :
  let app := mkApp empty_Options empty_Status empty_Jumprun empty_WindsAloft empty_Loads in
  let s0 := mkSystem (start app false false false) [] [] [] (mkChannels ∅ ∅ ∅)
              [addClient_called 5%nat; removeClient_called 1] 0%nat in
  let s1 := mkSystem (start app false false false) [] [] [] (mkChannels ∅ ∅ ∅)
              [addClient_receiving (mkAddClientRequest 0%nat 5%nat);
               removeClient_called 1] 1%nat in
  started s0 /\ rtc sys_step s0 s1 /\
  Forall (fun k => ~ returned k) (callers s1) /\
  addClientChan s1 = [] /\ removeClientChan s1 = [] /\
  clients (actor s1) = ∅ /\
  channels s1 = mkChannels ∅ ∅ ∅.
Proof.
  cbv zeta.
  match goal with |- ?A /\ ?B /\ _ => assert (H1 : A); [|assert (H2 : B)] end.
  - unfold started. simpl. repeat split; auto; repeat constructor.
  - apply rtc_once.
    match goal with |- sys_step ?s _ =>
      exact (addClient_make s 0%nat 5%nat eq_refl) end.
  - split; [exact H1|]. split; [exact H2|].
    exact (addClient_removeClient_never_return _ _ H1 H2).
Defined.

End Instances.

(* ===================================================================== *)
(** * More on the diff, the merge and coalescing                          *)
(* ===================================================================== *)

Section MoreDiff.
Import Core Server Observe.

Lemma drop_equal_None {M : Type} `{EqDecision M} (x y : option M) :
  drop_equal x y = None <-> x = None \/ x = y.
Proof.
  unfold drop_equal, proto_Equal. case_bool_decide as E.
  - split; auto.
  - split; [intros ->; auto | intros [->| ->]; [reflexivity | congruence]].
Qed.

(** [diff] reports that nothing changed exactly when every category the
    candidate has carries the value of the last broadcast. *)
Theorem diff_unchanged_iff x y :
  snd (diff x y) = false <->
  (ManifestUpdate_Status x = None \/ ManifestUpdate_Status x = ManifestUpdate_Status y) /\
  (ManifestUpdate_Options x = None \/ ManifestUpdate_Options x = ManifestUpdate_Options y) /\
  (ManifestUpdate_Jumprun x = None \/ ManifestUpdate_Jumprun x = ManifestUpdate_Jumprun y) /\
  (ManifestUpdate_WindsAloft x = None \/ ManifestUpdate_WindsAloft x = ManifestUpdate_WindsAloft y) /\
  (ManifestUpdate_Loads x = None \/ ManifestUpdate_Loads x = ManifestUpdate_Loads y).
Proof.
  rewrite <- !drop_equal_None.
  pose proof (diff_changed x y) as Hc.
  destruct (snd (diff x y)) eqn:E.
  - split; [discriminate|]. intros (H1 & H2 & H3 & H4 & H5). exfalso.
    apply (proj1 Hc eq_refl). unfold diff, emptyUpdate. simpl.
    rewrite H1, H2, H3, H4, H5. reflexivity.
  - split; [intros _|reflexivity].
    assert (Hd : fst (diff x y) = emptyUpdate).
    { destruct (decide (fst (diff x y) = emptyUpdate)) as [|Hne]; [assumption|].
      apply Hc in Hne. discriminate. }
    unfold diff, emptyUpdate in Hd. simpl in Hd.
    injection Hd as H1 H2 H3 H4 H5. auto.
Qed.

Lemma step_wake_lastUpdate a app source pending :
  lastUpdate (fst (step a (Wake app source pending))) =
    proto_Merge (lastUpdate a)
      (fst (diff (constructUpdate app (fst (drain source pending))) (lastUpdate a))).
Proof.
  rewrite step_wake, drain_all. cbv zeta. cbn [fst].
  pose proof (diff_changed (constructUpdate app (fold_left Z.lor pending source))
                (lastUpdate a)) as Hc.
  destruct (snd (diff _ _)); [reflexivity|].
  assert (Hd : fst (diff (constructUpdate app (fold_left Z.lor pending source))
                         (lastUpdate a)) = emptyUpdate).
  { destruct (decide (fst (diff (constructUpdate app (fold_left Z.lor pending source))
                         (lastUpdate a)) = emptyUpdate)) as [|Hne]; [assumption|].
    apply Hc in Hne. discriminate. }
  rewrite Hd. cbn [fst]. destruct a as [? ? []]. reflexivity.
Qed.

(** A pass for a notification leaves in [lastUpdate] every category that
    the candidate lacks or has with the value of the last broadcast. *)
Theorem wake_keeps_unchanged_categories a app source pending :
  let last := lastUpdate a in
  let candidate := constructUpdate app (fst (drain source pending)) in
  let last' := lastUpdate (fst (step a (Wake app source pending))) in
  (ManifestUpdate_Status candidate = None \/
   ManifestUpdate_Status candidate = ManifestUpdate_Status last ->
   ManifestUpdate_Status last' = ManifestUpdate_Status last) /\
  (ManifestUpdate_Options candidate = None \/
   ManifestUpdate_Options candidate = ManifestUpdate_Options last ->
   ManifestUpdate_Options last' = ManifestUpdate_Options last) /\
  (ManifestUpdate_Jumprun candidate = None \/
   ManifestUpdate_Jumprun candidate = ManifestUpdate_Jumprun last ->
   ManifestUpdate_Jumprun last' = ManifestUpdate_Jumprun last) /\
  (ManifestUpdate_WindsAloft candidate = None \/
   ManifestUpdate_WindsAloft candidate = ManifestUpdate_WindsAloft last ->
   ManifestUpdate_WindsAloft last' = ManifestUpdate_WindsAloft last) /\
  (ManifestUpdate_Loads candidate = None \/
   ManifestUpdate_Loads candidate = ManifestUpdate_Loads last ->
   ManifestUpdate_Loads last' = ManifestUpdate_Loads last).
Proof.
  cbv zeta. rewrite step_wake_lastUpdate.
  set (candidate := constructUpdate app (fst (drain source pending))).
  destruct (proto_Merge_absent (lastUpdate a) (fst (diff candidate (lastUpdate a))))
    as (A1 & A2 & A3 & A4 & A5).
  repeat split; intros H; [apply A1|apply A2|apply A3|apply A4|apply A5];
    unfold diff; simpl; apply drop_equal_None; exact H.
Qed.

Lemma merge_string_empty s : merge_string "" s = s.
Proof. unfold merge_string. case_decide; congruence. Qed.

Lemma merge_int_empty z : merge_int 0 z = z.
Proof. unfold merge_int. case_decide; congruence. Qed.

Lemma merge_bool_empty b : merge_bool false b = b.
Proof. destruct b; reflexivity. Qed.

Lemma merge_message_empty {M : Type} (empty : M) (merge : M -> M -> M) src :
  (forall s, merge empty s = s) -> merge_message empty merge None src = src.
Proof. intros H. destruct src; simpl; [rewrite H|]; reflexivity. Qed.

Lemma Merge_Options_empty s : Merge_Options empty_Options s = s.
Proof.
  destruct s. unfold Merge_Options. simpl.
  rewrite !merge_bool_empty, !merge_string_empty. reflexivity.
Qed.

Lemma Merge_Status_empty s : Merge_Status empty_Status s = s.
Proof.
  destruct s. unfold Merge_Status. simpl.
  rewrite !merge_string_empty. reflexivity.
Qed.

Lemma Merge_Jumprun_empty s : Merge_Jumprun empty_Jumprun s = s.
Proof.
  destruct s as [o p]. unfold Merge_Jumprun. simpl. f_equal.
  - apply merge_message_empty. intros [? ? ? ?]. unfold Merge_JumprunOrigin. simpl.
    rewrite !merge_string_empty, !merge_int_empty. reflexivity.
  - apply merge_message_empty. intros [? ? ? ? ?]. unfold Merge_JumprunPath. simpl.
    rewrite !merge_int_empty. reflexivity.
Qed.

Lemma Merge_WindsAloft_empty s : Merge_WindsAloft empty_WindsAloft s = s.
Proof. destruct s. reflexivity. Qed.

Lemma Merge_Loads_empty s : Merge_Loads empty_Loads s = s.
Proof.
  destruct s. unfold Merge_Loads. simpl. rewrite merge_int_empty. reflexivity.
Qed.

(** A category that the last broadcast lacks is, after [proto.Merge], what
    the update has for it: the first broadcast of a category is stored as
    it was sent. *)
Theorem proto_Merge_new_category last u :
  (ManifestUpdate_Status last = None ->
   ManifestUpdate_Status (proto_Merge last u) = ManifestUpdate_Status u) /\
  (ManifestUpdate_Options last = None ->
   ManifestUpdate_Options (proto_Merge last u) = ManifestUpdate_Options u) /\
  (ManifestUpdate_Jumprun last = None ->
   ManifestUpdate_Jumprun (proto_Merge last u) = ManifestUpdate_Jumprun u) /\
  (ManifestUpdate_WindsAloft last = None ->
   ManifestUpdate_WindsAloft (proto_Merge last u) = ManifestUpdate_WindsAloft u) /\
  (ManifestUpdate_Loads last = None ->
   ManifestUpdate_Loads (proto_Merge last u) = ManifestUpdate_Loads u).
Proof.
  repeat split; intros H; simpl; rewrite H; apply merge_message_empty.
  - apply Merge_Status_empty.
  - apply Merge_Options_empty.
  - apply Merge_Jumprun_empty.
  - apply Merge_WindsAloft_empty.
  - apply Merge_Loads_empty.
Qed.

(** Every mask of a burst is contained in the coalesced mask. *)
Lemma land_coalesced source pending s :
  s ∈ source :: pending ->
  Z.land s (fold_left Z.lor pending source) = s.
Proof.
  intros Hin. apply Z.bits_inj'. intros n _.
  rewrite Z.land_spec, testbit_coalesced.
  destruct (Z.testbit s n) eqn:E; [|reflexivity]. rewrite andb_true_l.
  apply existsb_exists. exists s. split; [|exact E].
  apply list_elem_of_In. exact Hin.
Qed.

Lemma has_coalesced source pending s sources :
  s ∈ source :: pending ->
  has s sources = true -> has (fold_left Z.lor pending source) sources = true.
Proof.
  intros Hin. unfold has. rewrite !negb_true_iff, !Z.eqb_neq. intros Hs Hm.
  apply Hs. rewrite <- (land_coalesced source pending s Hin).
  rewrite <- Z.land_assoc, Hm. apply Z.land_0_r.
Qed.

(** Coalescing loses no category: whatever category the update for one
    notification of a burst would have, the update constructed for the
    coalesced mask has, with the same value. *)
Theorem coalescing_loses_no_category app source pending s :
  s ∈ source :: pending ->
  let one := constructUpdate app s in
  let all := constructUpdate app (fst (drain source pending)) in
  (forall v, ManifestUpdate_Status one = Some v -> ManifestUpdate_Status all = Some v) /\
  (forall v, ManifestUpdate_Options one = Some v -> ManifestUpdate_Options all = Some v) /\
  (forall v, ManifestUpdate_Jumprun one = Some v -> ManifestUpdate_Jumprun all = Some v) /\
  (forall v, ManifestUpdate_WindsAloft one = Some v -> ManifestUpdate_WindsAloft all = Some v) /\
  (forall v, ManifestUpdate_Loads one = Some v -> ManifestUpdate_Loads all = Some v).
Proof.
  intros Hin. cbv zeta. rewrite drain_all. cbn [fst].
  pose proof (has_coalesced source pending s) as Hh.
  unfold constructUpdate. simpl.
  repeat split; intros v;
    match goal with |- (if has s ?x then _ else _) = _ -> _ =>
      destruct (has s x) eqn:E; [|discriminate];
      rewrite (Hh x Hin E); auto
    end.
Qed.

(** The coalesced mask does not depend on the order in which the
    notifications of a burst were queued. *)
Theorem drain_order_irrelevant source pending source' pending' :
  source :: pending ≡ₚ source' :: pending' ->
  fst (drain source pending) = fst (drain source' pending').
Proof.
  intros Hp. rewrite !drain_all. cbn [fst].
  apply Z.bits_inj'. intros n _. rewrite !testbit_coalesced.
  apply eq_true_iff_eq. rewrite !existsb_exists.
  split; intros (x & Hx & Ht); exists x; split; auto.
  - eapply Permutation_in; eauto.
  - eapply Permutation_in; [symmetry|]; eauto.
Qed.

End MoreDiff.

(* ===================================================================== *)
(** * More on the registry                                                *)
(* ===================================================================== *)

Section MoreRegistry.
Import Core Server Observe.

Lemma step_registry_ok a cmd :
  registry_ok a ->
  clientID a + Z.of_nat (admissions [cmd]) < 2 ^ 64 ->
  registry_ok (fst (step a cmd)).
Proof.
  intros [Hr Hk] Hn. destruct cmd as [req|req|app source pending].
  - change (Z.of_nat (admissions [AddClient req])) with 1 in Hn.
    unfold registry_ok. simpl. rewrite uint64_small by lia.
    split; [lia|]. intros id ch.
    destruct (decide (id = clientID a + 1)) as [->|Hne].
    + intros _. lia.
    + rewrite lookup_insert_ne by congruence. intros H. apply Hk in H. lia.
  - unfold registry_ok. simpl. split; [exact Hr|]. intros id ch H.
    destruct (decide (id = removeClientRequest_id req)) as [->|Hne].
    + rewrite lookup_delete_eq in H. discriminate.
    + rewrite lookup_delete_ne in H by congruence. eauto.
  - rewrite step_wake. cbv zeta. destruct (snd (diff _ _)); split; auto.
Qed.

Lemma processUpdates_registry_ok cmds : forall a,
  registry_ok a ->
  clientID a + Z.of_nat (admissions cmds) < 2 ^ 64 ->
  registry_ok (fst (processUpdates a cmds)).
Proof.
  induction cmds as [|cmd cmds IH]; intros a Ha Hn; [exact Ha|].
  rewrite processUpdates_cons. cbn [fst].
  assert (Hadm : admissions (cmd :: cmds) = (admissions [cmd] + admissions cmds)%nat)
    by (destruct cmd; reflexivity).
  rewrite Hadm, Nat2Z.inj_add in Hn.
  apply IH.
  - apply step_registry_ok; [exact Ha | lia].
  - rewrite step_clientID. destruct Ha as [Hr _].
    destruct cmd; try (change (admissions [_]) with 0%nat in Hn; lia).
    change (admissions [AddClient req]) with 1%nat in Hn.
    rewrite uint64_small; lia.
Qed.

(** Before the identifiers wrap, an admission takes an identifier that is
    not in the registry: everyone registered stays registered with the same
    channel, and the registry grows by one. *)
Theorem admission_keeps_subscribers app j m w cmds req :
  Z.of_nat (admissions cmds) < 2 ^ 64 - 1 ->
  let a := fst (processUpdates (start app j m w) cmds) in
  let a' := fst (step a (AddClient req)) in
  clients a !! clientID a' = None /\
  (forall id ch, clients a !! id = Some ch -> clients a' !! id = Some ch) /\
  size (clients a') = S (size (clients a)).
Proof.
  intros Hn. cbv zeta.
  assert (H0 : registry_ok (start app j m w)).
  { split; [simpl; lia|]. intros id ch H. simpl in H.
    rewrite lookup_empty in H. discriminate. }
  pose proof (processUpdates_registry_ok cmds _ H0) as [Hr Hk];
    [change (clientID (start app j m w)) with 0; lia|].
  pose proof (processUpdates_clientID cmds (start app j m w)) as Hid.
  change (clientID (start app j m w)) with 0 in Hid.
  rewrite Z.add_0_l, uint64_small in Hid by lia. specialize (Hid ltac:(lia)).
  set (a := fst (processUpdates (start app j m w) cmds)) in *.
  assert (Hfresh : clients a !! uint64 (clientID a + 1) = None).
  { rewrite uint64_small by lia.
    destruct (clients a !! (clientID a + 1)) as [ch|] eqn:E; [|reflexivity].
    apply Hk in E. lia. }
  simpl. split; [exact Hfresh|]. split.
  - intros id ch H. rewrite lookup_insert_ne; [exact H|].
    intros <-. rewrite Hfresh in H. discriminate.
  - apply map_size_insert_None. exact Hfresh.
Qed.

(** Once a subscriber has been removed, and its channel is in the registry
    under no other identifier and is not offered again, no later pass
    pushes anything to it. *)
Theorem removed_gets_nothing a req ch cmds :
  (forall id, clients a !! id = Some ch -> id = removeClientRequest_id req) ->
  ch ∉ offered cmds ->
  pushed ch (snd (processUpdates (fst (step a (RemoveClient req))) cmds)) = [].
Proof.
  intros Honly Hfresh.
  destruct (pushed ch _) as [|x l] eqn:E; [reflexivity|exfalso].
  assert (Hx : x ∈ pushed ch
                 (snd (processUpdates (fst (step a (RemoveClient req))) cmds)))
    by (rewrite E; left).
  apply processUpdates_pushed in Hx. destruct Hx as [[id Hid]|Hx]; [|auto].
  simpl in Hid.
  destruct (decide (id = removeClientRequest_id req)) as [->|Hne].
  - rewrite lookup_delete_eq in Hid. discriminate.
  - rewrite lookup_delete_ne in Hid by congruence.
    apply Honly in Hid. congruence.
Qed.

(** Removing an identifier that is not registered changes nothing and is
    still replied to. *)
Theorem remove_unknown_is_noop a req :
  clients a !! removeClientRequest_id req = None ->
  step a (RemoveClient req) = (a, [ReplyRemove (removeClientRequest_reply req)]).
Proof.
  intros H. unfold step. rewrite delete_id by exact H.
  destruct a. reflexivity.
Qed.

Lemma has_zero source : has source 0 = false.
Proof. unfold has. rewrite Z.land_0_r. reflexivity. Qed.

Lemma step_Loads_absent a cmd :
  ManifestUpdate_Loads (lastUpdate a) = None ->
  ManifestUpdate_Loads (lastUpdate (fst (step a cmd))) = None /\
  Forall (fun m => ManifestUpdate_Loads (contents m) = None)
         (broadcast (snd (step a cmd))).
Proof.
  intros Ha. destruct cmd as [req|req|app source pending].
  - simpl. split; [exact Ha|]. repeat constructor. exact Ha.
  - simpl. split; [exact Ha|]. constructor.
  - assert (Hu : ManifestUpdate_Loads
                   (fst (diff (constructUpdate app (fold_left Z.lor pending source))
                              (lastUpdate a))) = None).
    { unfold diff, constructUpdate. simpl.
      change loadsSources with 0. rewrite has_zero.
      unfold drop_equal. destruct (proto_Equal _ _); reflexivity. }
    rewrite step_wake. cbv zeta. destruct (snd (diff _ _)); cbn [fst snd].
    + split.
      * destruct (proto_Merge_absent (lastUpdate a)
                    (fst (diff (constructUpdate app (fold_left Z.lor pending source))
                               (lastUpdate a)))) as (_ & _ & _ & _ & A5).
        cbn [lastUpdate]. rewrite A5; auto.
      * unfold broadcast, fanOut. simpl.
        induction (map_to_list (clients a)) as [|kv l IH]; simpl;
          constructor; auto.
    + split; [exact Ha|]. constructor.
Qed.

(** With the flags of the [const] block no message of the loop ever has a
    loads category: [source&loadsSources] is zero for every mask, so
    neither the baseline built before the loop, nor any update pushed, nor
    [lastUpdate] at any time carries the loads. *)
Theorem loads_never_broadcast app j m w cmds :
  ManifestUpdate_Loads (lastUpdate (fst (processUpdates (start app j m w) cmds))) = None /\
  Forall (fun m => ManifestUpdate_Loads (contents m) = None)
         (broadcast (snd (processUpdates (start app j m w) cmds))).
Proof.
  assert (H0 : ManifestUpdate_Loads (lastUpdate (start app j m w)) = None).
  { unfold start, constructUpdate. cbn [lastUpdate ManifestUpdate_Loads].
    change loadsSources with 0. rewrite has_zero. reflexivity. }
  revert H0. generalize (start app j m w).
  induction cmds as [|cmd cmds IH]; intros a Ha.
  - split; [exact Ha|constructor].
  - rewrite processUpdates_cons. cbn [fst snd].
    destruct (step_Loads_absent a cmd Ha) as [H1 H2].
    destruct (IH _ H1) as [I1 I2]. split; [exact I1|].
    unfold broadcast. rewrite omap_app. apply Forall_app. split; assumption.
Qed.

End MoreRegistry.

(* ===================================================================== *)
(** * CardinalDirection on whole degrees                                  *)
(* ===================================================================== *)

Section WholeDegrees.
Import Metar Observe.

Lemma whole_degrees_checked :
  forallb whole_degrees_ok (seqZ (-3600) 7201) = true.
Proof. vm_compute. reflexivity. Qed.

(** For a whole number of degrees between -3600 and 3600 (what
    [WindConditions] passes is [float64] of an [int]), [CardinalDirection]
    ends after at most ten passes of its loop and returns the compass
    point that exact arithmetic gives: entry
    [floor((d mod 360 + 11.25) / 22.5) mod 16] of the table. *)
Theorem CardinalDirection_whole_degrees d :
  -3600 <= d <= 3600 ->
  CardinalDirection 10 (f64 d 0) = Returns (compass d).
Proof.
  intros Hd.
  assert (H : whole_degrees_ok d = true).
  { apply (proj1 (forallb_forall _ _) whole_degrees_checked).
    apply list_elem_of_In, elem_of_seqZ. lia. }
  unfold whole_degrees_ok in H.
  destruct (CardinalDirection 10 (f64 d 0)) as [s| |]; try discriminate H.
  apply bool_decide_eq_true in H. congruence.
Qed.

End WholeDegrees.



(* ===================================================================== *)
(** * One calendar day of ticks                                           *)
(* ===================================================================== *)

Section OneDay.
Import Core Observe.

Lemma transition_on_day fire now0 e last d :
  date e = d ->
  transition fire now0 e last =
    if (Equal now0 e || After now0 e) && bool_decide (last <> d)
    then ([fire d], d) else ([], last).
Proof.
  intros <-. unfold transition, DeepEqual.
  destruct (Equal now0 e || After now0 e); [|reflexivity].
  repeat case_bool_decide; simpl; try reflexivity; congruence.
Qed.

Lemma sunrises_RunSunset l d : sunrises (l ++ [RunSunset d]) = sunrises l.
Proof. unfold sunrises. rewrite omap_app. simpl. apply app_nil_r. Qed.

Lemma loop_on_day d ticks : forall st,
  Forall (onDay d) ticks ->
  sunrises (fst (loop st ticks)) =
    (if bool_decide (lastSunrise st <> d) && existsb sunriseReached ticks
     then [d] else []) /\
  sunsets (fst (loop st ticks)) =
    (if bool_decide (lastSunset st <> d) && existsb sunsetReached ticks
     then [d] else []).
Proof.
  induction ticks as [|t ticks IH]; intros st Hall.
  - simpl. rewrite !andb_false_r. split; reflexivity.
  - apply Forall_cons in Hall. destruct Hall as [Ht Hall].
    destruct Ht as (sunrise & sunset & Ht & Hr & Hs).
    rewrite loop_cons, (iteration_times _ _ _ _ Ht).
    rewrite (transition_on_day _ _ _ _ _ Hr), (transition_on_day _ _ _ _ _ Hs).
    cbn [fst snd existsb].
    unfold sunriseReached at 1, sunsetReached at 1. rewrite Ht.
    unfold sunrises at 1, sunsets at 1. rewrite !omap_app.
    destruct (IH (mkMarkers
        (snd (if (Equal (now t) sunrise || After (now t) sunrise) &&
                 bool_decide (lastSunrise st <> d)
              then ([RunSunrise d], d) else ([], lastSunrise st)))
        (snd (if (Equal (now t) sunset || After (now t) sunset) &&
                 bool_decide (lastSunset st <> d)
              then ([RunSunset d], d) else ([], lastSunset st)))) Hall)
      as [I1 I2].
    unfold sunrises, sunsets in I1, I2. rewrite I1, I2. clear I1 I2 IH.
    cbn [lastSunrise lastSunset].
    destruct (Equal (now t) sunrise || After (now t) sunrise),
             (Equal (now t) sunset || After (now t) sunset);
      repeat case_bool_decide; simpl in *;
      try (split; reflexivity); try congruence.
Qed.

(** The ticks of one calendar day, however many there are and however far
    apart: starting with markers of another day, the sunrise transition
    runs exactly once if some tick finds the sunrise reached and not at
    all otherwise, and the same for the sunset. *)
Theorem one_day_fires_once d st ticks :
  Forall (onDay d) ticks ->
  lastSunrise st <> d ->
  lastSunset st <> d ->
  sunrises (fst (loop st ticks)) =
    (if existsb sunriseReached ticks then [d] else []) /\
  sunsets (fst (loop st ticks)) =
    (if existsb sunsetReached ticks then [d] else []).
Proof.
  intros Hall H1 H2. destruct (loop_on_day d ticks st Hall) as [A B].
  rewrite A, B. rewrite !bool_decide_eq_true_2 by assumption.
  split; reflexivity.
Qed.

End OneDay.

(* ===================================================================== *)
(** * Go strings and numbers                                              *)
(* ===================================================================== *)

Section GoFacts.
Import Go.

Lemma length_drop n : forall s,
  String.length (drop n s) = (String.length s - n)%nat.
Proof.
  induction n as [|n IH]; intros [|c s]; simpl; auto; lia.
Qed.

Lemma length_take n : forall s,
  String.length (take n s) = Nat.min n (String.length s).
Proof.
  induction n as [|n IH]; intros [|c s]; simpl; auto.
Qed.

Lemma take_prefix n : forall s, String.prefix (take n s) s = true.
Proof.
  induction n as [|n IH]; intros [|c s]; simpl; auto.
  destruct (ascii_dec c c); [apply IH | congruence].
Qed.

Lemma prefix_length a : forall b,
  String.prefix a b = true -> (String.length a <= String.length b)%nat.
Proof.
  induction a as [|c a IH]; intros [|d b]; simpl; try lia; try discriminate.
  destruct (ascii_dec c d); [|discriminate]. intros H. apply IH in H. lia.
Qed.

Lemma prefix_trans a : forall b c,
  String.prefix a b = true -> String.prefix b c = true -> String.prefix a c = true.
Proof.
  induction a as [|x a IH]; intros [|y b] [|z c]; simpl; auto; try discriminate.
  destruct (ascii_dec x y), (ascii_dec y z); try discriminate.
  subst. destruct (ascii_dec z z); [|congruence]. apply IH.
Qed.

(** [strings.Index] returns a position at which the substring fits. *)
Lemma IndexFrom_bound substr : forall s i k,
  IndexFrom i s substr = Some k ->
  (i <= k)%nat /\ (k - i + String.length substr <= String.length s)%nat /\
  String.prefix substr (drop (k - i) s) = true.
Proof.
  assert (Hit : forall s i k, String.prefix substr s = true -> Some i = Some k ->
            (i <= k)%nat /\ (k - i + String.length substr <= String.length s)%nat /\
            String.prefix substr (drop (k - i) s) = true).
  { intros s i k E [= <-]. apply prefix_length in E as HL.
    rewrite Nat.sub_diag. cbn [drop]. split; [lia|]. split; [lia|exact E]. }
  induction s as [|c s IH]; intros i k; cbn [IndexFrom].
  - destruct (String.prefix substr "") eqn:E; [apply Hit; exact E|discriminate].
  - destruct (String.prefix substr (String c s)) eqn:E; [apply Hit; exact E|].
    intros H. apply IH in H. destruct H as (H1 & H2 & H3).
    replace (k - i)%nat with (S (k - S i)) by lia. cbn [drop String.length].
    split; [lia|]. split; [lia|exact H3].
Qed.

Lemma Index_bound s substr k :
  Index s substr = Some k ->
  (k + String.length substr <= String.length s)%nat /\
  String.prefix substr (drop k s) = true.
Proof.
  intros H. apply IndexFrom_bound in H. rewrite Nat.sub_0_r in H. tauto.
Qed.

Lemma sliceTo_Some s hi :
  (hi <= String.length s)%nat -> sliceTo s hi = Some (take hi s).
Proof.
  intros H. unfold sliceTo, slice. simpl.
  destruct (Nat.leb_spec hi (String.length s)); [|lia].
  rewrite Nat.sub_0_r. reflexivity.
Qed.

Lemma sliceFrom_Some s lo :
  (lo <= String.length s)%nat -> sliceFrom s lo = Some (drop lo s).
Proof.
  intros H. unfold sliceFrom, slice.
  destruct (Nat.leb_spec lo (String.length s)); [|lia].
  rewrite Nat.leb_refl. simpl. f_equal.
  assert (G : forall n t, (String.length t <= n)%nat -> take n t = t).
  { induction n as [|n IH]; intros [|c t]; simpl; auto; try lia.
    intros Hn. f_equal. apply IH. lia. }
  apply G. rewrite length_drop. lia.
Qed.

Lemma sliceFrom_None s lo :
  (String.length s < lo)%nat -> sliceFrom s lo = None.
Proof.
  intros H. unfold sliceFrom, slice.
  destruct (Nat.leb_spec lo (String.length s)); [lia|reflexivity].
Qed.

Lemma chars_drop n : forall s c, c ∈ chars (drop n s) -> c ∈ chars s.
Proof.
  induction n as [|n IH]; intros [|d s] c; simpl; auto.
  intros H. right. apply IH. exact H.
Qed.

Lemma parseDigits_Number s : forall n m,
  parseDigits s n = Number m -> Forall (fun c => digit c <> None) (chars s).
Proof.
  induction s as [|c s IH]; intros n m; simpl; [constructor|].
  destruct (digit c) as [d|] eqn:E; [|discriminate].
  destruct (_ <=? n); [discriminate|].
  destruct (_ <? _); [discriminate|].
  intros H. constructor; [congruence|]. eapply IH. exact H.
Qed.

(** A string with a byte that is neither a digit nor a sign is no number
    for [Atoi]: the value is 0, or the nearest [int64] when the digits
    before that byte already overflow. *)
Lemma Atoi_not_a_number s c :
  c ∈ chars s -> digit c = None -> c <> "-"%char -> c <> "+"%char ->
  snd (Atoi s) = false /\
  (fst (Atoi s) = 0 \/ fst (Atoi s) = 2 ^ 63 - 1 \/ fst (Atoi s) = - 2 ^ 63).
Proof.
  intros Hin Hd Hm Hp. unfold Atoi.
  set (p := match s with
            | String "-" s' => (true, s')
            | String "+" s' => (false, s')
            | _ => (false, s)
            end).
  assert (Hc : c ∈ chars (snd p)).
  { unfold p. destruct s as [|x s]; [exact Hin|].
    destruct (decide (x = "-"%char)) as [->|Hx1].
    - simpl. simpl in Hin. apply elem_of_cons in Hin. destruct Hin; [congruence|auto].
    - destruct (decide (x = "+"%char)) as [->|Hx2].
      + simpl. simpl in Hin. apply elem_of_cons in Hin. destruct Hin; [congruence|auto].
      + replace (match x with
                 | "-"%char => (true, s) | "+"%char => (false, s)
                 | _ => (false, String x s) end) with (false, String x s); [exact Hin|].
        clear -Hx1 Hx2.
        destruct x as [[] [] [] [] [] [] [] []]; try reflexivity; congruence. }
  destruct p as [neg digits]. simpl in Hc.
  assert (Hu : forall m, ParseUint digits <> Number m).
  { intros m H. unfold ParseUint in H. destruct digits as [|x d]; [discriminate|].
    apply parseDigits_Number in H. rewrite Forall_forall in H.
    exact (H c Hc Hd). }
  destruct (ParseUint digits) as [m| |].
  - exfalso. exact (Hu m eq_refl).
  - simpl. auto.
  - destruct neg; simpl; auto.
Qed.

End GoFacts.

(* ===================================================================== *)
(** * Reading a METAR report                                              *)
(* ===================================================================== *)

Section Report.
Import Go MetarReport.

(** [Winds.parse] does not panic on a slice that has a first field. It
    returns 1 or 2, and 2 only when there is a second field; of the slice
    it rewrites only the first field, to a prefix of what it was; and
    [Variable] says whether that field began with ["VRB"]. *)
Theorem Winds_parse_total w in0 rest :
  exists w' in0' k,
    Winds_parse w (in0 :: rest) = Done (w', in0' :: rest, k) /\
    (k = 1 \/ k = 2)%nat /\ (k <= length (in0 :: rest))%nat /\
    String.prefix in0' in0 = true /\
    Winds_Variable w' = HasPrefix in0 "VRB".
Proof.
  unfold Winds_parse.
  assert (Hkt : exists a, (match Index in0 "KT" with
                           | Some kt => sliceTo in0 kt
                           | None => Some in0 end) = Some a /\
                          String.prefix a in0 = true).
  { destruct (Index in0 "KT") as [kt|] eqn:E.
    - apply Index_bound in E. destruct E as [E _]. simpl in E.
      rewrite sliceTo_Some by lia. eexists; split; [reflexivity|apply take_prefix].
    - eexists; split; [reflexivity|].
      rewrite <- (take_prefix (String.length in0) in0) at 1.
      f_equal. clear. induction in0 as [|c s IH]; simpl; [reflexivity|].
      f_equal. exact IH. }
  destruct Hkt as (a & -> & Ha).
  assert (Hg : exists g b,
             (match Index a "G" with
              | Some g =>
                  match sliceFrom a (S g), sliceTo a g with
                  | Some tail, Some head => Some (fst (Atoi tail), head)
                  | _, _ => None
                  end
              | None => Some (Winds_Gusting w, a)
              end) = Some (g, b) /\ String.prefix b a = true).
  { destruct (Index a "G") as [g|] eqn:E.
    - apply Index_bound in E. destruct E as [E _]. simpl in E.
      rewrite sliceFrom_Some, sliceTo_Some by lia.
      do 2 eexists; split; [reflexivity|apply take_prefix].
    - do 2 eexists; split; [reflexivity|].
      rewrite <- (take_prefix (String.length a) a) at 1.
      f_equal. clear. induction a as [|c s IH]; simpl; [reflexivity|].
      f_equal. exact IH. }
  destruct Hg as (g & b & -> & Hb).
  pose proof (prefix_trans _ _ _ Hb Ha) as Hpre.
  destruct rest as [|in1 rest].
  - do 3 eexists. split; [reflexivity|]. repeat split; auto; simpl; lia.
  - destruct (Index in1 "V") as [[|v']|] eqn:E.
    + do 3 eexists. split; [reflexivity|]. repeat split; auto; simpl; lia.
    + apply Index_bound in E. destruct E as [E _]. simpl in E.
      rewrite sliceTo_Some, sliceFrom_Some by lia.
      do 3 eexists. split; [reflexivity|]. repeat split; auto; simpl; lia.
    + do 3 eexists. split; [reflexivity|]. repeat split; auto; simpl; lia.
Qed.

(** [Winds.parse] converts the first field to the direction before it cuts
    the unit off: from a field that contains ["KT"] (and is not variable)
    it reads no direction. The direction stored is 0, or the largest or
    smallest [int] when the digits before the unit overflow. *)
Theorem Winds_parse_direction_with_unit w in0 rest kt w' in' k :
  Index in0 "KT" = Some kt ->
  HasPrefix in0 "VRB" = false ->
  Winds_parse w (in0 :: rest) = Done (w', in', k) ->
  Winds_Direction w' = 0 \/ Winds_Direction w' = 2 ^ 63 - 1 \/
  Winds_Direction w' = - 2 ^ 63.
Proof.
  intros Hkt Hv Hp.
  assert (Hd : Winds_Direction w' = fst (Atoi in0)).
  { unfold Winds_parse in Hp. rewrite Hv in Hp.
    destruct (match Index in0 "KT" with Some kt0 => sliceTo in0 kt0 | None => Some in0 end)
      as [a|]; [|discriminate].
    destruct (match Index a "G" with
              | Some g => match sliceFrom a (S g), sliceTo a g with
                          | Some tail, Some head => Some (fst (Atoi tail), head)
                          | _, _ => None end
              | None => Some (Winds_Gusting w, a) end) as [[g b]|]; [|discriminate].
    destruct rest as [|in1 rest]; [inversion Hp; reflexivity|].
    destruct (Index in1 "V") as [[|v']|]; try (inversion Hp; reflexivity).
    destruct (sliceTo in1 (S v')), (sliceFrom in1 (S (S v'))); try discriminate;
      inversion Hp; reflexivity. }
  rewrite Hd.
  apply Index_bound in Hkt. destruct Hkt as [_ Hpre].
  assert (Hin : "K"%char ∈ chars in0).
  { apply (chars_drop kt). destruct (drop kt in0) as [|c s];
      cbn [String.prefix] in Hpre; [discriminate|].
    destruct (ascii_dec "K" c) as [<-|]; [left|discriminate]. }
  destruct (Atoi_not_a_number in0 "K"%char Hin) as [_ H]; try reflexivity;
    try discriminate.
  exact H.
Qed.

Lemma slice_length f lo hi key :
  slice f lo hi = Some key -> (String.length key <= hi - lo)%nat.
Proof.
  unfold slice. destruct (_ && _); [|discriminate].
  intros [= <-]. rewrite length_take. lia.
Qed.

Lemma skyLoop_shape in_ : forall idx idx' low high,
  skyLoop in_ idx [] [] = Done (idx', low, high) ->
  low = [] /\
  (high = [] \/ high = ["overcast"%string] \/
   exists n, high = ["ceiling at " +:+ FormatInt n]) /\
  (idx <= idx' <= idx + length in_)%nat.
Proof.
  induction in_ as [|f rest IH]; intros idx idx' low high; cbn [skyLoop].
  - intros HD; inversion HD; subst; clear HD.
    split; [reflexivity|]. split; [left; reflexivity|]. simpl. lia.
  - destruct (HasPrefix f "VV").
    + destruct (sliceFrom f 2) as [t|]; [|discriminate].
      destruct (Atoi t) as [base ok]. destruct ok;
        intros HD; inversion HD; subst; clear HD;
        (split; [reflexivity|]); (split; [|simpl; lia]).
      * right. right. eexists. reflexivity.
      * right. left. reflexivity.
    + destruct (sliceFrom f 3) as [t|]; [|discriminate].
      destruct (Atoi t) as [base ok]. destruct ok.
      * destruct (slice f 0 2) as [key|] eqn:Ek; [|discriminate].
        apply slice_length in Ek.
        repeat (case_bool_decide; [subst key; simpl in Ek; lia|]).
        simpl. intros HD; inversion HD; subst; clear HD.
        split; [reflexivity|]. split; [left; reflexivity|]. simpl. lia.
      * intros H. apply IH in H. simpl length. intuition lia.
Qed.

(** [parseSkyCover] compares the first two bytes of a field with the
    three-letter codes, so no code is ever recognised: whatever the fields
    are, the description is "clear", "overcast" or "ceiling at N", and
    never a few, scattered, broken or overcast-deck layer. The index it
    returns is within the slice. *)
Theorem parseSkyCover_results in_ idx s :
  parseSkyCover in_ = Done (idx, s) ->
  (idx <= length in_)%nat /\
  (s = "clear"%string \/ s = "overcast"%string \/
   exists n, s = ("ceiling at " +:+ FormatInt n)%string).
Proof.
  unfold parseSkyCover.
  destruct (skyLoop in_ 0 [] []) as [[[idx' low] high]| |] eqn:E; try discriminate.
  apply skyLoop_shape in E. destruct E as (-> & Hh & Hi).
  intros HD; inversion HD; subst; clear HD. split; [lia|].
  destruct Hh as [->| [->| [n ->]]]; simpl; eauto.
Qed.

Lemma weatherLoop_sound fuel : forall parts i results,
  (i <= length parts)%nat -> (length parts - i < fuel)%nat ->
  match weatherLoop fuel parts i results with
  | OutOfFuel => False
  | Panic => exists bit, bit ∈ parts /\ marker bit <> None
  | Done (i', _) => (i <= i' <= length parts)%nat
  end.
Proof.
  induction fuel as [|fuel IH]; intros parts i results Hi Hf; [lia|].
  cbn [weatherLoop].
  destruct (parts !! i) as [bit|] eqn:E1; [|lia].
  pose proof (lookup_lt_Some _ _ _ E1) as L1.
  assert (Hbody : forall intensity suffix j b,
            (i <= j < length parts)%nat ->
            match
              match
                match descriptors !! b with
                | Some _ =>
                    match parts !! S j with
                    | None => inr (results ++ [intensity +:+ default ""%string (descriptors !! b) +:+ suffix])
                    | Some bit' => inl (S j, bit')
                    end
                | None => inl (j, b)
                end
              with
              | inr results' => Done (S j, results')
              | inl (i0, bit0) =>
                  match conditions !! bit0 with
                  | None => Done (i0, results)
                  | Some condition =>
                      weatherLoop fuel parts (S i0)
                        (results ++ [intensity +:+ default ""%string (descriptors !! b) +:+ condition +:+ suffix])
                  end
              end
            with
            | OutOfFuel => False
            | Panic => exists bit0, bit0 ∈ parts /\ marker bit0 <> None
            | Done (i', _) => (i <= i' <= length parts)%nat
            end).
  { intros intensity suffix j b Hj.
    destruct (descriptors !! b) as [d|].
    - destruct (parts !! S j) as [bit'|] eqn:E2.
      + pose proof (lookup_lt_Some _ _ _ E2) as L2.
        destruct (conditions !! bit') as [c|]; [|lia].
        specialize (IH parts (S (S j))
          (results ++ [intensity +:+ default ""%string (Some d) +:+ c +:+ suffix])
          ltac:(lia) ltac:(lia)).
        destruct (weatherLoop fuel parts (S (S j)) _) as [[i' r]| |]; auto. lia.
      + lia.
    - destruct (conditions !! b) as [c|]; [|lia].
      specialize (IH parts (S j)
        (results ++ [intensity +:+ default ""%string None +:+ c +:+ suffix])
        ltac:(lia) ltac:(lia)).
      destruct (weatherLoop fuel parts (S j) _) as [[i' r]| |]; auto. lia. }
  destruct (marker bit) as [[intensity suffix]|] eqn:Em.
  - destruct (parts !! S i) as [bit'|] eqn:E2.
    + pose proof (lookup_lt_Some _ _ _ E2) as L2.
      apply Hbody. lia.
    + exists bit. split; [eapply list_elem_of_lookup_2; eauto|congruence].
  - apply Hbody. lia.
Qed.

(** [parseWeatherCondition] ends, whatever the fields are. The index it
    returns is within the slice, and it can only panic when one of the
    fields is an intensity or vicinity marker (the field after a marker is
    read without a bounds check). *)
Theorem parseWeatherCondition_in_bounds parts :
  match parseWeatherCondition parts with
  | OutOfFuel => False
  | Panic => exists bit, bit ∈ parts /\ marker bit <> None
  | Done (i, _) => (i <= length parts)%nat
  end.
Proof.
  unfold parseWeatherCondition.
  pose proof (weatherLoop_sound (S (length parts)) parts 0 []
                ltac:(lia) ltac:(lia)) as H.
  destruct (weatherLoop (S (length parts)) parts 0 []) as [[i r]| |]; auto. lia.
Qed.

(** Rounding a whole number to [float64] never gives a NaN. *)
Lemma iter_pos_invariant {A : Type} (P : A -> Prop) (f : A -> A) :
  (forall x, P x -> P (f x)) -> forall p x, P x -> P (@SpecFloat.iter_pos A f p x).
Proof.
  intros Hf. induction p as [p IH|p IH|]; intros x Hx; simpl; auto.
Qed.

Lemma shr_1_nonneg mrs : 0 <= shr_m mrs -> 0 <= shr_m (shr_1 mrs).
Proof.
  destruct mrs as [m r s]. simpl.
  destruct m as [|[p|p|]|[p|p|]]; simpl; lia.
Qed.

Lemma shr_nonneg mrs e n : 0 <= shr_m mrs -> 0 <= shr_m (fst (shr mrs e n)).
Proof.
  intros H. unfold shr. destruct n as [|p|p]; simpl; auto.
  apply (iter_pos_invariant (fun x => 0 <= shr_m x) shr_1); auto using shr_1_nonneg.
Qed.

Lemma shr_fexp_nonneg prec emax m e l :
  0 <= m -> 0 <= shr_m (fst (shr_fexp prec emax m e l)).
Proof.
  intros H. unfold shr_fexp. apply shr_nonneg.
  destruct l as [|[]]; simpl; exact H.
Qed.

Lemma binary_round_aux_not_nan prec emax sx mx ex lx :
  0 <= mx -> binary_round_aux prec emax sx mx ex lx <> S754_nan.
Proof.
  intros H. unfold binary_round_aux.
  pose proof (shr_fexp_nonneg prec emax mx ex lx H) as H1.
  destruct (shr_fexp prec emax mx ex lx) as [mrs' e']. simpl in H1.
  assert (H2 : 0 <= round_nearest_even (shr_m mrs') (loc_of_shr_record mrs')).
  { unfold round_nearest_even.
    destruct (loc_of_shr_record mrs') as [|[]]; try lia.
    destruct (Z.even (shr_m mrs')); lia. }
  pose proof (shr_fexp_nonneg prec emax _ e' loc_Exact H2) as H3.
  destruct (shr_fexp prec emax _ e' loc_Exact) as [mrs'' e'']. simpl in H3.
  destruct (shr_m mrs'') as [|p|p]; try discriminate; [|lia].
  destruct (e'' <=? emax - prec); discriminate.
Qed.

Lemma f64_not_nan m e : Metar.f64 m e <> S754_nan.
Proof.
  unfold Metar.f64, binary_normalize.
  destruct m as [|p|p]; [discriminate| |];
    unfold binary_round; destruct (shl_align _ _ _) as [mz ez];
    apply binary_round_aux_not_nan; lia.
Qed.

Lemma SFeqb_refl x : x <> S754_nan -> SFeqb x x = true.
Proof.
  intros H. unfold SFeqb, SFcompare.
  destruct x as [s|s| |s m e]; try congruence; try reflexivity.
  - destruct s; reflexivity.
  - destruct s; rewrite Z.compare_refl;
      change (Pos.compare_cont Eq m m) with (Pos.compare m m);
      rewrite Pos.compare_refl; reflexivity.
Qed.

Lemma temperatureOf_not_nan field t :
  temperatureOf field = Done t -> t <> S754_nan.
Proof.
  unfold temperatureOf.
  destruct (Index field "/") as [[|slash']|];
    [intros [= <-]; apply (f64_not_nan 0 0)| |intros [= <-]; apply (f64_not_nan 0 0)].
  destruct (sliceTo field (S slash')) as [f|]; [|discriminate].
  destruct (if HasPrefix f "M" then sliceFrom f 1 else Some f) as [f'|];
    [|discriminate].
  intros [= <-]; apply f64_not_nan.
Qed.

Lemma readReport_temperature station fields o :
  readReport station fields = Done (inr o) -> obsTemperature o <> S754_nan.
Proof.
  unfold readReport. intros H.
  repeat (match type of H with
          | match ?x with _ => _ end = _ => destruct x eqn:?; try discriminate
          | (if ?x then _ else _) = _ => destruct x eqn:?; try discriminate
          | (let '(_, _) := ?x in _) = _ => destruct x eqn:?; try discriminate
          end).
  inversion H. simpl. eapply temperatureOf_not_nan. eassumption.
Qed.

Lemma keep_or_take {A : Type} `{EqDecision A} (x y : A) :
  bool_decide ((if negb (bool_decide (x = y)) then y else x) = y) = true.
Proof. apply bool_decide_eq_true. case_bool_decide; simpl; auto. Qed.

Lemma store_again c o :
  obsTemperature o <> S754_nan ->
  store (snd (store c o)) o = (false, snd (store c o)).
Proof.
  intros Hn. unfold store. cbn [snd skyCover wxCondition windConditions temperature].
  rewrite !keep_or_take.
  match goal with |- context [negb (SFeqb ?a (obsTemperature o))] =>
    lazymatch a with
    | temperature c => fail
    | _ => set (q := SFeqb a (obsTemperature o))
    end
  end.
  assert (E4 : q = true).
  { unfold q. destruct (SFeqb (temperature c) (obsTemperature o)) eqn:E; cbn [negb];
      [exact E | apply SFeqb_refl; exact Hn]. }
  rewrite E4. reflexivity.
Qed.

(** Reading the same report again reports no change: after [parseLine]
    has accepted the fields, a second [parseLine] of the same fields
    returns [changed = false] and leaves the controller as it is. *)
Theorem parseLine_again_unchanged station c fields changed c' :
  parseLine station c fields = Done (Parsed changed c') ->
  parseLine station c' fields = Done (Parsed false c').
Proof.
  unfold parseLine.
  destruct (readReport station fields) as [[what|o]| |] eqn:E; try discriminate.
  intros H. assert (Hc : c' = snd (store c o)) by (inversion H; reflexivity).
  subst c'. clear H.
  rewrite store_again by (eapply readReport_temperature; eauto). reflexivity.
Qed.

Lemma skip_ge p rest : forall idx, (idx <= skip p rest idx)%nat.
Proof.
  induction rest as [|f rest IH]; intros idx; simpl; [lia|].
  destruct (p f); [|lia]. specialize (IH (S idx)). lia.
Qed.

Lemma Winds_parse_ends w in_ :
  Winds_parse w in_ <> OutOfFuel /\
  forall w' in' k, Winds_parse w in_ = Done (w', in', k) -> (1 <= k)%nat.
Proof.
  unfold Winds_parse.
  repeat (match goal with
          | |- context [match ?x with _ => _ end] => destruct x eqn:?
          end; try (split; [discriminate|intros ? ? ? HD; inversion HD; lia]);
          try (split; discriminate)).
Qed.

Lemma skyLoop_ends in_ : forall idx low high,
  skyLoop in_ idx low high <> OutOfFuel.
Proof.
  induction in_ as [|f rest IH]; intros idx low high; cbn [skyLoop];
    [discriminate|].
  repeat (match goal with
          | |- context [match ?x with _ => _ end] => destruct x eqn:?
          | |- context [if ?x then _ else _] => destruct x eqn:?
          end; try discriminate; try apply IH).
Qed.

Lemma parseSkyCover_ends in_ : parseSkyCover in_ <> OutOfFuel.
Proof.
  unfold parseSkyCover. pose proof (skyLoop_ends in_ 0 [] []) as H.
  destruct (skyLoop in_ 0 [] []) as [[[? ?] ?]| |]; congruence.
Qed.

Lemma parseWeatherCondition_ends parts : parseWeatherCondition parts <> OutOfFuel.
Proof.
  unfold parseWeatherCondition.
  pose proof (weatherLoop_sound (S (length parts)) parts 0 []
                ltac:(lia) ltac:(lia)) as H.
  destruct (weatherLoop (S (length parts)) parts 0 []) as [[i r]| |];
    try discriminate. contradiction.
Qed.

Lemma temperatureOf_ends field : temperatureOf field <> OutOfFuel.
Proof.
  unfold temperatureOf.
  repeat (match goal with
          | |- context [match ?x with _ => _ end] => destruct x eqn:?
          end; try discriminate).
Qed.

Lemma readReport_ends station fields : readReport station fields <> OutOfFuel.
Proof.
  unfold readReport.
  destruct fields as [|f0 fields]; [discriminate|].
  destruct (_ && _); [discriminate|].
  destruct (_ !! 1%nat) as [f1|]; [|discriminate].
  destruct (negb _); [discriminate|].
  destruct (_ <=? _)%nat; [discriminate|].
  pose proof (Winds_parse_ends zeroWinds (List.skipn 4 (f0 :: fields))) as [Hw _].
  destruct (Winds_parse zeroWinds _) as [[[w' in'] k]| |]; try discriminate;
    [|congruence].
  destruct (_ <=? _)%nat; [discriminate|].
  destruct (_ <=? _)%nat; [discriminate|].
  destruct (_ <=? _)%nat; [discriminate|].
  match goal with |- context [parseWeatherCondition ?x] =>
    pose proof (parseWeatherCondition_ends x) as Hc;
    destruct (parseWeatherCondition x) as [[k1 wx]| |] end;
    try discriminate; [|congruence].
  destruct (_ <=? _)%nat; [discriminate|].
  match goal with |- context [parseSkyCover ?x] =>
    pose proof (parseSkyCover_ends x) as Hs;
    destruct (parseSkyCover x) as [[k2 sky]| |] end;
    try discriminate; [|congruence].
  destruct (_ <=? _)%nat; [discriminate|].
  destruct (_ !! _) as [field|]; [|discriminate].
  pose proof (temperatureOf_ends field) as Ht.
  destruct (temperatureOf field) as [t| |]; try discriminate; [|congruence].
  destruct (_ <=? _)%nat; [discriminate|].
  destruct (negb _); discriminate.
Qed.

Lemma readReport_accepts station fields o :
  readReport station fields = Done (inr o) ->
  (7 <= length fields)%nat /\
  (head fields = Some "SPECI"%string \/ head fields = Some "METAR"%string) /\
  fields !! 1%nat = Some station.
Proof.
  unfold readReport.
  destruct fields as [|f0 fields]; [discriminate|].
  destruct (_ && _) eqn:E0; [discriminate|].
  assert (H0 : f0 = "SPECI"%string \/ f0 = "METAR"%string).
  { apply andb_false_iff in E0.
    destruct E0 as [E0|E0]; apply negb_false_iff, bool_decide_eq_true in E0; auto. }
  clear E0.
  destruct (_ !! 1%nat) as [f1|] eqn:E1; [|discriminate].
  destruct (negb (bool_decide (f1 = station))) eqn:Es; [discriminate|].
  apply negb_false_iff, bool_decide_eq_true in Es.
  destruct (_ <=? _)%nat eqn:L0; [discriminate|]; apply Nat.leb_gt in L0.
  pose proof (Winds_parse_ends zeroWinds (List.skipn 4 (f0 :: fields))) as [_ Hw].
  destruct (Winds_parse zeroWinds _) as [[[w' in'] k]| |]; try discriminate.
  specialize (Hw _ _ _ eq_refl).
  destruct (_ <=? _)%nat eqn:L1; [discriminate|]; apply Nat.leb_gt in L1.
  match goal with |- context [skip ?p ?r ?i] =>
    pose proof (skip_ge p r i) as S1; set (i1 := skip p r i) in * end.
  destruct (_ <=? _)%nat eqn:L2; [discriminate|]; apply Nat.leb_gt in L2.
  match goal with |- context [skip ?p ?r i1] =>
    pose proof (skip_ge p r i1) as S2; set (i2 := skip p r i1) in * end.
  destruct (_ <=? _)%nat eqn:L3; [discriminate|]; apply Nat.leb_gt in L3.
  destruct (parseWeatherCondition _) as [[k1 wx]| |]; try discriminate.
  destruct (_ <=? _)%nat eqn:L4; [discriminate|]; apply Nat.leb_gt in L4.
  destruct (parseSkyCover _) as [[k2 sky]| |]; try discriminate.
  destruct (_ <=? _)%nat eqn:L5; [discriminate|]; apply Nat.leb_gt in L5.
  destruct ((f0 :: fields) !! (_ + _)%nat) as [field|]; [|discriminate].
  destruct (temperatureOf field) as [t| |]; try discriminate.
  destruct (_ <=? _)%nat eqn:L6; [discriminate|]; apply Nat.leb_gt in L6.
  intros _.
  split; [lia|]. split.
  - simpl. destruct H0; subst; auto.
  - subst. reflexivity.
Qed.

(** [parseLine] ends, and it accepts a report only if the first field is
    "SPECI" or "METAR", the second is the station, and there are at least
    seven fields. *)
Theorem parseLine_accepts station c fields :
  parseLine station c fields <> OutOfFuel /\
  forall changed c',
    parseLine station c fields = Done (Parsed changed c') ->
    (7 <= length fields)%nat /\
    (head fields = Some "SPECI"%string \/ head fields = Some "METAR"%string) /\
    fields !! 1%nat = Some station.
Proof.
  unfold parseLine. pose proof (readReport_ends station fields) as He.
  pose proof (readReport_accepts station fields) as Ha.
  destruct (readReport station fields) as [[what|o]| |]; split;
    try discriminate; try congruence.
  intros changed c' _. apply (Ha o). reflexivity.
Qed.

End Report.

(* ===================================================================== *)
(** * The compass point of every whole number of degrees                *)
(* ===================================================================== *)

Section FloatFacts.
Import Metar Quarter.

Ltac pow_atoms :=
  repeat match goal with
         | |- context [?b ^ ?e] =>
             let a := fresh "pw" in set (a := b ^ e) in *; clearbody a
         | H : context [?b ^ ?e] |- _ =>
             let a := fresh "pw" in set (a := b ^ e) in *; clearbody a
         end.

Lemma digits2_pos_bounds p :
  2 ^ (Zpos (digits2_pos p) - 1) <= Zpos p < 2 ^ Zpos (digits2_pos p).
Proof.
  induction p as [p IH|p IH|]; cbn [digits2_pos].
  - rewrite Pos2Z.inj_succ.
    replace (Z.succ (Zpos (digits2_pos p)) - 1) with (Z.succ (Zpos (digits2_pos p) - 1)) by lia.
    rewrite !Z.pow_succ_r by lia. pow_atoms. lia.
  - rewrite Pos2Z.inj_succ.
    replace (Z.succ (Zpos (digits2_pos p)) - 1) with (Z.succ (Zpos (digits2_pos p) - 1)) by lia.
    rewrite !Z.pow_succ_r by lia. pow_atoms. lia.
  - simpl. lia.
Qed.

Lemma Zdigits2_le z B : 0 < z < 2 ^ B -> 0 <= B -> 1 <= Zdigits2 z <= B.
Proof.
  intros [Hz Hb] HB. destruct z as [|p|p]; try lia. cbn [Zdigits2].
  pose proof (digits2_pos_bounds p) as [H1 _]. split; [lia|].
  destruct (Z_le_gt_dec (Zpos (digits2_pos p)) B) as [|Hgt]; [assumption|exfalso].
  assert (2 ^ B <= 2 ^ (Zpos (digits2_pos p) - 1)) by (apply Z.pow_le_mono_r; lia).
  lia.
Qed.

Lemma Zdigits2_gt z k : 0 <= k -> 2 ^ k <= z -> k < Zdigits2 z.
Proof.
  intros Hk Hz. assert (0 < 2 ^ k) by (apply Z.pow_pos_nonneg; lia).
  destruct z as [|p|p]; try lia. cbn [Zdigits2].
  pose proof (digits2_pos_bounds p) as [_ H2].
  destruct (Z_lt_le_dec k (Zpos (digits2_pos p))) as [|Hle]; [assumption|exfalso].
  assert (2 ^ Zpos (digits2_pos p) <= 2 ^ k) by (apply Z.pow_le_mono_r; lia).
  lia.
Qed.

Lemma shr_1_le mrs : 0 <= shr_m mrs -> 0 <= shr_m (shr_1 mrs) <= shr_m mrs.
Proof.
  destruct mrs as [m r s]. cbn [shr_m]. intros H.
  destruct m as [|[p|p|]|p]; cbn; lia.
Qed.

Lemma iter_shr_1_le p mrs :
  0 <= shr_m mrs -> 0 <= shr_m (@SpecFloat.iter_pos _ shr_1 p mrs) <= shr_m mrs.
Proof.
  intros H.
  apply (iter_pos_invariant (fun y => 0 <= shr_m y <= shr_m mrs)); [|lia].
  intros y Hy. pose proof (shr_1_le y) as Hs. lia.
Qed.

Lemma shr_1_exact A :
  0 <= A -> shr_1 (Build_shr_record (A * 2) false false) = Build_shr_record A false false.
Proof.
  intros HA. destruct A as [|p|p]; [reflexivity| |lia].
  replace (Zpos p * 2) with (Zpos p~0) by lia. reflexivity.
Qed.

Lemma iter_shr_1_exact p : forall A,
  0 <= A ->
  @SpecFloat.iter_pos _ shr_1 p (Build_shr_record (A * 2 ^ Zpos p) false false) =
  Build_shr_record A false false.
Proof.
  induction p as [p IH|p IH|]; intros A HA; cbn [SpecFloat.iter_pos].
  - replace (Zpos p~1) with (2 * Zpos p + 1) by lia.
    replace (A * 2 ^ (2 * Zpos p + 1)) with ((A * 2 ^ Zpos p * 2 ^ Zpos p) * 2)
      by (rewrite Z.pow_add_r, Z.pow_1_r by lia;
          replace (2 * Zpos p) with (Zpos p + Zpos p) by lia;
          rewrite Z.pow_add_r by lia; ring).
    assert (0 <= 2 ^ Zpos p) by (apply Z.pow_nonneg; lia).
    rewrite shr_1_exact by nia. rewrite IH by nia. apply IH. exact HA.
  - replace (Zpos p~0) with (2 * Zpos p) by lia.
    replace (A * 2 ^ (2 * Zpos p)) with (A * 2 ^ Zpos p * 2 ^ Zpos p)
      by (replace (2 * Zpos p) with (Zpos p + Zpos p) by lia;
          rewrite Z.pow_add_r by lia; ring).
    assert (0 <= 2 ^ Zpos p) by (apply Z.pow_nonneg; lia).
    rewrite IH by nia. apply IH. exact HA.
  - rewrite Z.pow_1_r. apply shr_1_exact. exact HA.
Qed.

Lemma round_nearest_even_le m l :
  m <= round_nearest_even m l <= m + 1.
Proof.
  destruct l as [|[]]; cbn; try lia. destruct (Z.even m); lia.
Qed.

End FloatFacts.

Section FloatShape.
Import Metar Quarter.

Lemma fexp_eq k : -1021 <= k -> fexp 53 1024 k = k - 53.
Proof. unfold fexp, emin. lia. Qed.

Lemma shaped_weaken lo hi B lo' hi' B' x :
  shaped lo hi B x -> lo' <= lo -> hi <= hi' -> 0 <= B <= B' -> shaped lo' hi' B' x.
Proof.
  destruct x as [s| | |[] m e]; cbn; auto.
  intros (He & Hm & Hq) Hlo Hhi HB. split; [lia|]. split; [|exact Hq].
  assert (2 ^ B <= 2 ^ B') by (apply Z.pow_le_mono_r; lia). lia.
Qed.

(** One shift to the right: where the result keeps an exponent below -2,
    nothing but zeros was shifted out. *)
Lemma shr_stage m e n mrs e' :
  0 <= m -> quarter_pair m e ->
  shr (Build_shr_record m false false) e n = (mrs, e') ->
  e' = e + Z.max n 0 /\ 0 <= shr_m mrs <= m /\
  (e' < -2 -> shr_r mrs = false /\ shr_s mrs = false /\
              exists c, shr_m mrs = c * 2 ^ (- e' - 2)).
Proof.
  intros Hm Hq. unfold shr.
  destruct n as [|p|p]; intros [= <- <-]; cbn [shr_m shr_r shr_s].
  - split; [lia|]. split; [lia|]. intros He.
    destruct Hq as [Hq|[c Hc]]; [lia|].
    replace (- (e + 0) - 2) with (- e - 2) by lia. eauto.
  - split; [lia|]. split; [apply iter_shr_1_le; exact Hm|]. intros He.
    destruct Hq as [Hq|[c Hc]]; [lia|].
    assert (Hc0 : 0 <= c).
    { assert (0 < 2 ^ (- e - 2)) by (apply Z.pow_pos_nonneg; lia). nia. }
    assert (Hsplit : m = (c * 2 ^ (- (e + Zpos p) - 2)) * 2 ^ Zpos p).
    { rewrite Hc, <- Z.mul_assoc, <- Z.pow_add_r by lia. f_equal. f_equal. lia. }
    rewrite Hsplit, iter_shr_1_exact.
    + cbn. eauto.
    + assert (0 <= 2 ^ (- (e + Zpos p) - 2)) by (apply Z.pow_nonneg; lia). nia.
  - split; [lia|]. split; [lia|]. intros He.
    destruct Hq as [Hq|[c Hc]]; [lia|].
    replace (- (e + 0) - 2) with (- e - 2) by lia. eauto.
Qed.

Lemma binary_round_aux_shaped mz ez B :
  0 < mz < 2 ^ B -> 53 <= B <= 400 -> -200 <= ez <= 100 -> quarter_pair mz ez ->
  shaped ez (ez + 2 * B) (B + 1) (binary_round_aux 53 1024 false mz ez loc_Exact).
Proof.
  intros Hmz HB Hez Hq. unfold binary_round_aux, shr_fexp.
  pose proof (Zdigits2_le mz B Hmz ltac:(lia)) as HD.
  rewrite fexp_eq by lia. cbn [shr_record_of_loc].
  destruct (shr _ ez _) as [mrs' e'] eqn:E1.
  apply shr_stage in E1; [|lia|exact Hq]. destruct E1 as (He' & Hm' & Hq').
  set (mr := round_nearest_even (shr_m mrs') (loc_of_shr_record mrs')).
  assert (Hmr : 0 <= mr <= mz + 1).
  { pose proof (round_nearest_even_le (shr_m mrs') (loc_of_shr_record mrs')).
    unfold mr. lia. }
  assert (Hqr : quarter_pair mr e').
  { destruct (Z_lt_le_dec e' (-2)) as [Hlt|Hge]; [|left; exact Hge].
    destruct (Hq' Hlt) as (Hr & Hs & c & Hc). right. exists c.
    unfold mr. destruct mrs' as [m0 r0 s0]. cbn in *. subst r0 s0. cbn. exact Hc. }
  assert (HB2 : mz + 1 <= 2 ^ B) by lia.
  assert (Hn2 : fexp 53 1024 (Zdigits2 mr + e') - e' <= B - 52).
  { destruct (Z.eq_dec mr 0) as [->|Hne].
    - cbn [Zdigits2]. unfold fexp, emin. lia.
    - assert (Hlt : 0 < mr < 2 ^ (B + 1)).
      { rewrite Z.pow_add_r, Z.pow_1_r by lia. lia. }
      pose proof (Zdigits2_le mr (B + 1) Hlt ltac:(lia)).
      rewrite fexp_eq by lia. lia. }
  destruct (shr _ e' _) as [mrs'' e''] eqn:E2.
  apply shr_stage in E2; [|lia|exact Hqr]. destruct E2 as (He'' & Hm'' & Hq'').
  destruct (shr_m mrs'') as [|m|m] eqn:Em; [exact I| |lia].
  assert (Hle : (e'' <=? 1024 - 53) = true) by (apply Z.leb_le; lia).
  rewrite Hle. cbn. split; [lia|]. split.
  - assert (2 ^ (B + 1) = 2 * 2 ^ B) by (rewrite Z.pow_add_r, Z.pow_1_r by lia; lia).
    lia.
  - destruct (Z_lt_le_dec e'' (-2)) as [Hlt|Hge]; [|left; exact Hge].
    destruct (Hq'' Hlt) as (_ & _ & c & Hc). right. exists c. exact Hc.
Qed.

Lemma iter_xO m d : Zpos (Pos.iter xO m d) = Zpos m * 2 ^ Zpos d.
Proof.
  change (Pos.iter xO m d) with (shift_pos d m).
  rewrite shift_pos_correct. change (Z.pow_pos 2 d) with (2 ^ Zpos d). lia.
Qed.

Lemma shl_align_spec m e e' :
  Zpos (fst (shl_align m e e')) = Zpos m * 2 ^ (e - Z.min e e') /\
  snd (shl_align m e e') = Z.min e e'.
Proof.
  unfold shl_align. destruct (e' - e) as [|p|p] eqn:E; cbn [fst snd].
  - replace (Z.min e e') with e by lia. rewrite Z.sub_diag. lia.
  - replace (Z.min e e') with e by lia. rewrite Z.sub_diag. lia.
  - replace (Z.min e e') with e' by lia. rewrite iter_xO.
    split; [|reflexivity]. f_equal. f_equal. lia.
Qed.

Lemma quarter_pair_shift m e e' :
  e' <= e -> quarter_pair m e -> quarter_pair (m * 2 ^ (e - e')) e'.
Proof.
  intros Hle [Hq|[c Hc]].
  - destruct (Z_lt_le_dec e' (-2)) as [Hlt|Hge]; [|left; exact Hge].
    right. exists (m * 2 ^ (e + 2)).
    rewrite <- Z.mul_assoc, <- Z.pow_add_r by lia. f_equal. f_equal. lia.
  - destruct (Z_lt_le_dec e (-2)) as [Hlt|Hge].
    + right. exists c. rewrite Hc, <- Z.mul_assoc, <- Z.pow_add_r by lia.
      f_equal. f_equal. lia.
    + destruct (Z_lt_le_dec e' (-2)) as [Hlt'|Hge']; [|left; exact Hge'].
      right. exists (m * 2 ^ (e + 2)).
      rewrite <- Z.mul_assoc, <- Z.pow_add_r by lia. f_equal. f_equal. lia.
Qed.

Lemma binary_normalize_shaped M ez B :
  0 < M < 2 ^ B -> 53 <= B <= 400 -> -100 <= ez <= 100 -> quarter_pair M ez ->
  shaped (Z.min ez (Zdigits2 M + ez - 53)) (ez + 2 * B) (B + 1)
    (binary_normalize 53 1024 M ez false).
Proof.
  intros HM HB Hez Hq. destruct M as [|p|p]; try lia.
  cbn [binary_normalize Zdigits2]. unfold binary_round.
  pose proof (Zdigits2_le (Zpos p) B HM ltac:(lia)) as HD. cbn [Zdigits2] in HD.
  pose proof (digits2_pos_bounds p) as Hp.
  rewrite fexp_eq by lia.
  pose proof (shl_align_spec p ez (Zpos (digits2_pos p) + ez - 53)) as [Hm1 He1].
  destruct (shl_align p ez _) as [mz ez1]. cbn [fst snd] in Hm1, He1. subst ez1.
  set (ez1 := Z.min ez (Zpos (digits2_pos p) + ez - 53)) in *.
  assert (Hmz : 0 < Zpos mz < 2 ^ B).
  { split; [lia|]. rewrite Hm1.
    destruct (Z_le_gt_dec ez (Zpos (digits2_pos p) + ez - 53)) as [Hc|Hc].
    - replace (ez - ez1) with 0 by lia. rewrite Z.pow_0_r. lia.
    - replace (ez - ez1) with (53 - Zpos (digits2_pos p)) by lia.
      assert (Zpos p * 2 ^ (53 - Zpos (digits2_pos p)) < 2 ^ 53).
      { replace 53 with (Zpos (digits2_pos p) + (53 - Zpos (digits2_pos p))) at 2 by lia.
        rewrite Z.pow_add_r by lia.
        assert (0 < 2 ^ (53 - Zpos (digits2_pos p))) by (apply Z.pow_pos_nonneg; lia).
        nia. }
      assert (2 ^ 53 <= 2 ^ B) by (apply Z.pow_le_mono_r; lia). lia. }
  assert (Hq1 : quarter_pair (Zpos mz) ez1).
  { rewrite Hm1. apply quarter_pair_shift; [lia|exact Hq]. }
  eapply shaped_weaken.
  - apply (binary_round_aux_shaped (Zpos mz) ez1 B); [exact Hmz|lia|lia|exact Hq1].
  - lia.
  - lia.
  - lia.
Qed.

End FloatShape.

Section WholeNumbers.
Import Metar Quarter.

Lemma f64_360 : f64 360 0 = S754_finite false 6333186975989760 (-44).
Proof. vm_compute. reflexivity. Qed.

Lemma f64_11_25 : f64 45 (-2) = S754_finite false 6333186975989760 (-49).
Proof. vm_compute. reflexivity. Qed.

(** [float64(d)] for a positive [int]. *)
Lemma f64_shaped d : 1 <= d < 2 ^ 64 -> shaped (-52) 128 65 (f64 d 0).
Proof.
  intros Hd. unfold f64.
  pose proof (binary_normalize_shaped d 0 64 ltac:(lia) ltac:(lia) ltac:(lia)
                ltac:(left; lia)) as H.
  pose proof (Zdigits2_gt d 0 ltac:(lia) ltac:(simpl; lia)).
  eapply shaped_weaken; [exact H|lia|lia|lia].
Qed.

(** [degrees + 11.25] *)
Lemma add_shaped x :
  shaped (-52) 128 65 x -> shaped (-52) 500 247 (add x (f64 45 (-2))).
Proof.
  rewrite f64_11_25. destruct x as [s| | |[] mx ex]; cbn [shaped]; try tauto.
  - intros _. destruct s; cbn; (split; [lia|]); (split; [reflexivity|]);
      right; exists 45; reflexivity.
  - intros (He & Hm & Hq). unfold add, SFadd.
    set (ez := Z.min ex (-49)).
    pose proof (shl_align_spec mx ex ez) as [H1 _].
    pose proof (shl_align_spec 6333186975989760%positive (-49) ez) as [H2 _].
    cbn [cond_Zopp].
    replace (Z.min ex ez) with ez in H1 by lia.
    replace (Z.min (-49) ez) with ez in H2 by lia.
    set (M := Zpos (fst (shl_align mx ex ez)) +
              Zpos (fst (shl_align 6333186975989760 (-49) ez))).
    assert (HM : M = Zpos mx * 2 ^ (ex - ez) + 45 * 2 ^ (- ez - 2)).
    { unfold M. rewrite H1, H2. f_equal.
      change 6333186975989760 with (45 * 2 ^ 47).
      rewrite <- Z.mul_assoc, <- Z.pow_add_r by lia. f_equal. f_equal. lia. }
    clearbody M. clear H1 H2.
    assert (Hp1 : 0 < 2 ^ (ex - ez)) by (apply Z.pow_pos_nonneg; lia).
    assert (Hp2 : 2 ^ 47 <= 2 ^ (- ez - 2) <= 2 ^ 50)
      by (split; apply Z.pow_le_mono_r; lia).
    assert (Hp3 : 2 ^ (ex - ez) <= 2 ^ 180) by (apply Z.pow_le_mono_r; lia).
    assert (HMb : 0 < M < 2 ^ 246).
    { split; [nia|]. rewrite HM.
      assert (Zpos mx * 2 ^ (ex - ez) <= 2 ^ 65 * 2 ^ 180) by nia.
      change (2 ^ 246) with (2 ^ 65 * 2 ^ 180 * 2).
      assert (45 * 2 ^ (- ez - 2) <= 45 * 2 ^ 50) by lia.
      assert (45 * 2 ^ 50 < 2 ^ 65 * 2 ^ 180) by (vm_compute; reflexivity).
      lia. }
    assert (HMq : quarter_pair M ez).
    { right. pose proof (quarter_pair_shift (Zpos mx) ex ez ltac:(lia) Hq) as [Hl|[c Hc]];
        [lia|].
      exists (c + 45). rewrite HM, Hc. ring. }
    assert (HMd : 3 - ez < Zdigits2 M).
    { apply Zdigits2_gt; [lia|]. rewrite HM.
      replace (3 - ez) with (5 + (- ez - 2)) by lia. rewrite Z.pow_add_r by lia.
      change (2 ^ 5) with 32. nia. }
    pose proof (binary_normalize_shaped M ez 246 HMb ltac:(lia) ltac:(lia) HMq) as H.
    eapply shaped_weaken; [exact H|lia|lia|lia].
Qed.

(** [binary_normalize] of [k] quarters written with 42 to 52 more binary
    places is the value nearest to [k/4], which is exact. *)
Lemma quarters_normalized :
  forallb (fun s =>
    forallb (fun k => bool_decide (binary_normalize 53 1024 (k * 2 ^ s) (- s - 2) false
                                   = f64 k (-2)))
      (seqZ 1 1439))
    (seqZ 42 11) = true.
Proof. vm_compute. reflexivity. Qed.

(** [math.Mod(_, 360.0)] of a multiple of a quarter is a multiple of a
    quarter below 360. *)
Lemma Mod_shaped x hi B :
  shaped (-52) hi B x ->
  (exists s, Mod x (f64 360 0) = S754_zero s) \/
  (exists k, 1 <= k < 1440 /\ Mod x (f64 360 0) = f64 k (-2)).
Proof.
  rewrite f64_360. destruct x as [s| | |[] mx ex]; cbn [shaped]; try tauto.
  - intros _. left. exists s. reflexivity.
  - intros (He & _ & Hq). unfold Mod.
    set (e := Z.min ex (-44)).
    assert (Hs : 42 <= - e - 2 <= 50) by lia.
    assert (HX : exists V, 0 <= V /\ Zpos mx * 2 ^ (ex - e) = V * 2 ^ (- e - 2)).
    { pose proof (quarter_pair_shift (Zpos mx) ex e ltac:(lia) Hq) as [Hl|[c Hc]]; [lia|].
      exists c. split; [|exact Hc].
      assert (0 < 2 ^ (ex - e)) by (apply Z.pow_pos_nonneg; lia).
      assert (0 < 2 ^ (- e - 2)) by (apply Z.pow_pos_nonneg; lia). nia. }
    destruct HX as (V & HV & HX).
    assert (HY : 6333186975989760 * 2 ^ (-44 - e) = 1440 * 2 ^ (- e - 2)).
    { change 6333186975989760 with (1440 * 2 ^ 42).
      rewrite <- Z.mul_assoc, <- Z.pow_add_r by lia. f_equal. f_equal. lia. }
    cbv zeta. rewrite HX, HY.
    assert (Hpos : 0 < 2 ^ (- e - 2)) by (apply Z.pow_pos_nonneg; lia).
    rewrite Z.mul_mod_distr_r by lia.
    pose proof (Z.mod_pos_bound V 1440 ltac:(lia)) as Hk.
    set (k := V mod 1440) in *. clearbody k.
    destruct (Z.eqb_spec (k * 2 ^ (- e - 2)) 0) as [E0|E0].
    + left. eexists. reflexivity.
    + right. exists k. assert (k <> 0) by (intros ->; lia). split; [lia|].
      cbn [cond_Zopp].
      pose proof quarters_normalized as T.
      rewrite forallb_forall in T. specialize (T (- e - 2)).
      rewrite forallb_forall in T.
      assert (Hin1 : In (- e - 2) (seqZ 42 11)) by (apply list_elem_of_In, elem_of_seqZ; lia).
      assert (Hin2 : In k (seqZ 1 1439)) by (apply list_elem_of_In, elem_of_seqZ; lia).
      specialize (T Hin1 k Hin2). apply bool_decide_eq_true in T.
      replace (- (- e - 2) - 2) with e in T by lia. exact T.
Qed.

(** The index of a multiple of a quarter below 360. *)
Lemma index_of_quarters :
  forallb (fun k => bool_decide (toInt (Floor (div (f64 k (-2)) (f64 45 (-1))))
                                 = Some (k / 90)))
    (seqZ 1 1439) = true.
Proof. vm_compute. reflexivity. Qed.

Lemma index_shaped x :
  shaped (-52) 128 65 x ->
  exists i, toInt (index x) = Some i /\ 0 <= i < 16.
Proof.
  intros Hx. unfold index.
  destruct (Mod_shaped _ _ _ (add_shaped x Hx)) as [[s ->]|(k & Hk & ->)].
  - exists 0. split; [|lia]. destruct s; reflexivity.
  - pose proof index_of_quarters as T. rewrite forallb_forall in T.
    specialize (T k ltac:(apply list_elem_of_In, elem_of_seqZ; lia)).
    apply bool_decide_eq_true in T. exists (k / 90). split; [exact T|].
    split; [apply Z.div_pos; lia|apply Z.div_lt_upper_bound; lia].
Qed.

Lemma shaped_not_negative lo hi B x : shaped lo hi B x -> lt x (f64 0 0) = false.
Proof. destruct x as [s| | |[] m e]; cbn; try tauto; reflexivity. Qed.

End WholeNumbers.

Section CardinalDomain.
Import Metar Quarter Observe.

Lemma CardinalDirection_Returns fuel degrees s :
  CardinalDirection fuel degrees = Returns s ->
  exists degrees' i,
    normalize fuel degrees = Some degrees' /\
    lt degrees' (f64 0 0) = false /\
    toInt (index degrees') = Some i /\ 0 <= i < 16 /\
    cardinalDirections !! Z.to_nat i = Some s.
Proof.
  unfold CardinalDirection.
  destruct (normalize fuel degrees) as [degrees'|] eqn:En; [|discriminate].
  destruct (toInt (index degrees')) as [i|] eqn:Ei; [|discriminate].
  destruct ((0 <=? i) && (i <? Z.of_nat (length cardinalDirections))) eqn:Eb;
    [|discriminate].
  destruct (cardinalDirections !! Z.to_nat i) as [s'|] eqn:El; [|discriminate].
  intros [= <-]. exists degrees', i.
  apply andb_true_iff in Eb. destruct Eb as [E1 E2].
  apply Z.leb_le in E1. apply Z.ltb_lt in E2. cbn in E2.
  split; [reflexivity|]. split; [exact (normalize_not_negative _ _ _ En)|].
  split; [exact Ei|]. split; [lia|exact El].
Qed.

(** C10 (as amended). For every whole number of degrees from -3600 up to
    the largest [int], [2^63 - 1] -- the callers pass whole numbers:
    [float64] of the [int] wind direction, which is not negative when
    [WindConditions] gets as far as the call, and in the older package a
    value [(... + 360) % 360] -- [CardinalDirection] ends after at most
    ten passes of its loop and returns an entry of the table: after the
    loop the value is not below zero, the index
    [int(math.Floor(math.Mod(degrees+11.25, 360.0) / 22.5))] is from 0 to
    15, and the slice access is in bounds. *)
Theorem CardinalDirection_returns_whole_degrees d :
  -3600 <= d <= 2 ^ 63 - 1 ->
  exists degrees' i s,
    normalize 10 (f64 d 0) = Some degrees' /\
    lt degrees' (f64 0 0) = false /\
    toInt (index degrees') = Some i /\ 0 <= i < 16 /\
    cardinalDirections !! Z.to_nat i = Some s /\
    CardinalDirection 10 (f64 d 0) = Returns s.
Proof.
  intros Hd. destruct (Z_le_gt_dec d 3600) as [Hsmall|Hbig].
  - assert (H : whole_degrees_ok d = true).
    { apply (proj1 (forallb_forall _ _) whole_degrees_checked).
      apply list_elem_of_In, elem_of_seqZ. lia. }
    unfold whole_degrees_ok in H.
    destruct (CardinalDirection 10 (f64 d 0)) as [s| |] eqn:E; try discriminate H.
    destruct (CardinalDirection_Returns _ _ _ E) as (degrees' & i & H1 & H2 & H3 & H4 & H5).
    exists degrees', i, s. auto 10.
  - assert (Hx : shaped (-52) 128 65 (f64 d 0)) by (apply f64_shaped; lia).
    pose proof (shaped_not_negative _ _ _ _ Hx) as Hlt.
    destruct (index_shaped _ Hx) as (i & Hi & Hr).
    destruct (lookup_lt_is_Some_2 cardinalDirections (Z.to_nat i)) as [s Hs];
      [cbn; lia|].
    exists (f64 d 0), i, s.
    assert (Hn : normalize 10 (f64 d 0) = Some (f64 d 0))
      by (rewrite normalize_unfold, Hlt; reflexivity).
    split; [exact Hn|]. split; [exact Hlt|]. split; [exact Hi|]. split; [exact Hr|].
    split; [exact Hs|].
    unfold CardinalDirection. rewrite Hn, Hi.
    replace ((0 <=? i) && (i <? Z.of_nat (length cardinalDirections))) with true.
    + rewrite Hs. reflexivity.
    + symmetry. apply andb_true_iff. split; [apply Z.leb_le; lia|].
      apply Z.ltb_lt. cbn. lia.
Qed.

End CardinalDomain.

Section CardinalInstances.
Import Metar.

(** The direction [Winds.parse] stores for a field ["27015"]. *)
Lemma CardinalDirection_returns_whole_degrees_witness :
  -3600 <= 27015 <= 2 ^ 63 - 1 /\
  exists degrees' i s,
    normalize 10 (f64 27015 0) = Some degrees' /\
    lt degrees' (f64 0 0) = false /\
    toInt (index degrees') = Some i /\ 0 <= i < 16 /\
    cardinalDirections !! Z.to_nat i = Some s /\
    CardinalDirection 10 (f64 27015 0) = Returns s.
Proof.
  assert (H1 : -3600 <= 27015 <= 2 ^ 63 - 1) by lia.
  split; [exact H1|]. exact (CardinalDirection_returns_whole_degrees 27015 H1).
Defined.

End CardinalInstances.


(* ===================================================================== *)
(** * Slots, loads and the jump run                                     *)
(* ===================================================================== *)

Section Slots.
Import Go Server Grpc.

Lemma translateJumper_leader_type dn j :
  Jumper_Type (translateJumper dn j None) ∈
    [JumperType_EXPERIENCED; JumperType_VIDEOGRAPHER;
     JumperType_TANDEM_STUDENT; JumperType_AFF_STUDENT].
Proof.
  unfold translateJumper.
  destruct (Burble.IsTandem j), (Burble.IsStudent j), (Burble.IsVideographer j);
    repeat match goal with |- context [if ?b then _ else _] => destruct b end;
    cbn; repeat constructor.
Qed.

Lemma translateJumper_member_type dn j l :
  Jumper_Type l ∈
    [JumperType_EXPERIENCED; JumperType_VIDEOGRAPHER;
     JumperType_TANDEM_STUDENT; JumperType_AFF_STUDENT] ->
  Jumper_Type (translateJumper dn j (Some l)) ∈
    [JumperType_EXPERIENCED; JumperType_VIDEOGRAPHER;
     JumperType_TANDEM_INSTRUCTOR; JumperType_AFF_INSTRUCTOR].
Proof.
  intros Hl. unfold translateJumper.
  destruct (Burble.IsVideographer j); [cbn; repeat constructor|].
  destruct (Jumper_Type l) eqn:E;
    try solve [exfalso; clear -Hl;
               repeat (apply elem_of_cons in Hl; destruct Hl as [Hl|Hl]; [discriminate|]);
               inversion Hl];
    destruct (Burble.IsInstructor j); cbn; rewrite ?E; repeat constructor.
Qed.

Lemma jumpersOf_slotFromJumper dn j :
  jumpersOf (slotFromJumper dn j) =
  translateJumper dn j None ::
    ((fun member => translateJumper dn member (Some (translateJumper dn j None)))
       <$> Burble.GroupMembers j).
Proof.
  unfold slotFromJumper. destruct (Burble.GroupMembers j); reflexivity.
Qed.

(** A slot never carries a coach or a coach's student: a jumper alone or
    leading a group is experienced, a videographer, a tandem student or an
    AFF student, and a group member is experienced, a videographer, or a
    tandem or AFF instructor. *)
Theorem slotFromJumper_never_coach dn j x :
  x ∈ jumpersOf (slotFromJumper dn j) ->
  Jumper_Type x <> JumperType_COACH /\ Jumper_Type x <> JumperType_COACH_STUDENT.
Proof.
  rewrite jumpersOf_slotFromJumper. intros Hx.
  assert (H : Jumper_Type x ∈
            [JumperType_EXPERIENCED; JumperType_VIDEOGRAPHER;
             JumperType_TANDEM_STUDENT; JumperType_AFF_STUDENT;
             JumperType_TANDEM_INSTRUCTOR; JumperType_AFF_INSTRUCTOR]).
  { apply elem_of_cons in Hx. destruct Hx as [->|Hx].
    - pose proof (translateJumper_leader_type dn j) as H.
      rewrite !elem_of_cons in H. rewrite !elem_of_cons. tauto.
    - apply list_elem_of_fmap in Hx. destruct Hx as (m & -> & _).
      pose proof (translateJumper_member_type dn m _ (translateJumper_leader_type dn j)) as H.
      rewrite !elem_of_cons in H. rewrite !elem_of_cons. tauto. }
  split; intros E; rewrite E in H;
    repeat (apply elem_of_cons in H; destruct H as [H|H]; [discriminate|]);
    inversion H.
Qed.

(** Every jumper of a slot has the colour of its leader, one of the four
    the server knows: a group member that is itself a tandem or a student
    is not coloured for that. *)
Theorem slot_has_one_colour dn j :
  exists c, c ∈ ["#ffff00"; "#00ff00"; "#ff00ff"; "#ffffff"]%string /\
    forall x, x ∈ jumpersOf (slotFromJumper dn j) -> Jumper_Color x = c.
Proof.
  exists (Jumper_Color (translateJumper dn j None)). split.
  - unfold translateJumper.
    destruct (Burble.IsTandem j); [cbn; repeat constructor|].
    destruct (_ || _) eqn:E1 at 1; rewrite ?E1.
    + cbn. repeat constructor.
    + destruct (HasPrefix _ _ || _); cbn; repeat constructor.
  - intros x. rewrite jumpersOf_slotFromJumper. intros Hx.
    apply elem_of_cons in Hx. destruct Hx as [->|Hx]; [reflexivity|].
    apply list_elem_of_fmap in Hx. destruct Hx as (m & -> & _). reflexivity.
Qed.

Lemma identity_translateJumper dn j leader :
  identity (translateJumper dn j leader) = identityOf j.
Proof.
  unfold translateJumper.
  destruct (match leader with Some l => _ | None => _ end) as [color prefix].
  reflexivity.
Qed.

Lemma identity_slotFromJumper dn j :
  identity <$> jumpersOf (slotFromJumper dn j) = identityOf <$> withMembers j.
Proof.
  rewrite jumpersOf_slotFromJumper. unfold withMembers.
  rewrite !fmap_cons, identity_translateJumper. f_equal.
  rewrite <- list_fmap_compose. apply list_fmap_ext.
  intros i m _. apply identity_translateJumper.
Qed.

(** The slots of a load carry every jumper of the load exactly once and in
    the order of the manifest: the tandems, then the students, then the
    sport jumpers, each followed by the members of its group. Identifier
    and names are passed through (the identifier as a [uint64]). *)
Theorem load_slots_carry_every_jumper dn l :
  identity <$> concat (jumpersOf <$> Load_Slots (translateLoad dn l)) =
  identityOf <$>
    concat (withMembers <$> manifested l).
Proof.
  unfold translateLoad. cbn [Load_Slots].
  rewrite <- !fmap_app. fold (manifested l).
  induction (manifested l) as [|j js IH]; [reflexivity|].
  rewrite !fmap_cons. cbn [concat]. rewrite !fmap_app.
  rewrite identity_slotFromJumper. f_equal. exact IH.
Qed.

Lemma turnsLoop_spec hookTurns : forall turns,
  exists kept dropped,
    hookTurns = kept ++ dropped /\
    turnsLoop hookTurns turns =
      turns ++ ((fun t => mkJumprunTurn (int32 (HookTurn_Distance t))
                                        (int32 (HookTurn_Heading t))) <$> kept) /\
    Forall (fun t => HookTurn_Distance t <> 0 \/ HookTurn_Heading t <> 0) kept /\
    match dropped with
    | [] => True
    | t :: _ => HookTurn_Distance t = 0 /\ HookTurn_Heading t = 0
    end.
Proof.
  induction hookTurns as [|t rest IH]; intros turns.
  - exists [], []. cbn. rewrite app_nil_r. auto.
  - cbn [turnsLoop].
    destruct (HookTurn_Distance t =? 0) eqn:E1; cbn [andb].
    + destruct (HookTurn_Heading t =? 0) eqn:E2.
      * exists [], (t :: rest). cbn. rewrite app_nil_r.
        apply Z.eqb_eq in E1, E2. auto.
      * destruct (IH (turns ++ [mkJumprunTurn (int32 (HookTurn_Distance t))
                                              (int32 (HookTurn_Heading t))]))
          as (kept & dropped & -> & -> & Hk & Hd).
        exists (t :: kept), dropped. rewrite <- app_assoc. cbn.
        repeat split; auto. constructor; auto. right. apply Z.eqb_neq. exact E2.
    + destruct (IH (turns ++ [mkJumprunTurn (int32 (HookTurn_Distance t))
                                            (int32 (HookTurn_Heading t))]))
        as (kept & dropped & -> & -> & Hk & Hd).
      exists (t :: kept), dropped. rewrite <- app_assoc. cbn.
      repeat split; auto. constructor; auto. left. apply Z.eqb_neq. exact E1.
Qed.

(** The path of a jump run that is set carries the hook turns up to the
    first one whose distance and heading are both zero; that turn and all
    turns after it are left out, whatever they hold. *)
Theorem jumprun_turns_end_at_zero_turn j :
  IsSet j = true ->
  exists p kept dropped,
    Jumprun_Path (jumprunBlock j) = Some p /\
    HookTurns j = kept ++ dropped /\
    JumprunPath_Turns p =
      (fun t => mkJumprunTurn (int32 (HookTurn_Distance t))
                              (int32 (HookTurn_Heading t))) <$> kept /\
    Forall (fun t => HookTurn_Distance t <> 0 \/ HookTurn_Heading t <> 0) kept /\
    match dropped with
    | [] => True
    | t :: _ => HookTurn_Distance t = 0 /\ HookTurn_Heading t = 0
    end.
Proof.
  intros Hs. unfold jumprunBlock. cbn [Jumprun_Path]. rewrite Hs.
  destruct (turnsLoop_spec (HookTurns j) []) as (kept & dropped & H1 & H2 & H3 & H4).
  eexists _, kept, dropped. split; [reflexivity|]. cbn [JumprunPath_Turns].
  rewrite H2. auto.
Qed.

End Slots.

(* ===================================================================== *)
(** * The text manifest                                                 *)
(* ===================================================================== *)

Section TextManifest.
Import Go Server Grpc Legacy.

(** The lines of one jumper: its own and one for each member of its group. *)
Lemma addToManifest_app slots jumper :
  addToManifest slots jumper = slots ++ addToManifest [] jumper.
Proof.
  unfold addToManifest. destruct (colorAndPrefix jumper) as [color prefix].
  set (f := fun (slots : list string) member => slots ++ [_]).
  assert (Hf : forall ms a b, fold_left f ms (a ++ b) = a ++ fold_left f ms b).
  { induction ms as [|m ms IH]; intros a b; [reflexivity|].
    cbn [fold_left]. unfold f at 2 4. rewrite <- app_assoc. apply IH. }
  destruct (Burble.IsTandem jumper); [apply (Hf _ slots [_])|].
  destruct (negb _); apply (Hf _ slots [_]).
Qed.

Lemma fold_addToManifest js : forall slots,
  fold_left addToManifest js slots = slots ++ concat (addToManifest [] <$> js).
Proof.
  induction js as [|j js IH]; intros slots; cbn [fold_left fmap list_fmap concat].
  - rewrite app_nil_r. reflexivity.
  - rewrite IH, addToManifest_app, <- app_assoc. reflexivity.
Qed.

Lemma slotsOf_concat load :
  slotsOf load = concat (addToManifest [] <$> manifested load).
Proof.
  unfold slotsOf, manifested. rewrite !fold_addToManifest, !fmap_app, !concat_app.
  reflexivity.
Qed.

Lemma appendLoad_app lines load :
  exists fixed,
    appendLoad lines load = lines ++ fixed ++ slotsOf load /\
    length fixed = 8%nat /\
    fixed !! 0%nat = Some (FormatInt (Burble.Load_ID load)) /\
    fixed !! 4%nat = Some (FormatInt (Z.of_nat (length (slotsOf load)))).
Proof.
  unfold appendLoad.
  destruct (Burble.Load_IsNoTime load), (Burble.Load_CallMinutes load <=? 5),
    (Burble.Load_IsTurning load), (Burble.Load_IsFueling load);
    (eexists [_; _; _; _; _; _; _; _]; split;
     [rewrite <- !app_assoc; reflexivity | repeat split]).
Qed.

(** The text manifest has the layout its comment describes: after the seven
    heading lines, the seventh being the number of loads, each load in
    turn adds eight lines and then its entries, and the fifth of the eight
    (SlotsFilled) is the number of entries that follow. *)
Theorem manifest_layout h loads :
  exists blocks,
    manifestLines h loads = heading h loads ++ concat blocks /\
    heading h loads !! 6%nat = Some (FormatInt (Z.of_nat (length loads))) /\
    length (heading h loads) = 7%nat /\
    Forall2 (fun load block =>
               exists fixed,
                 block = fixed ++ slotsOf load /\
                 length fixed = 8%nat /\
                 fixed !! 0%nat = Some (FormatInt (Burble.Load_ID load)) /\
                 fixed !! 4%nat = Some (FormatInt (Z.of_nat (length (slotsOf load)))))
            loads blocks.
Proof.
  unfold manifestLines. generalize (heading h loads) at 1 2 as lines.
  assert (H : forall ls lines, exists blocks,
             fold_left appendLoad ls lines = lines ++ concat blocks /\
             Forall2 (fun load block =>
               exists fixed,
                 block = fixed ++ slotsOf load /\
                 length fixed = 8%nat /\
                 fixed !! 0%nat = Some (FormatInt (Burble.Load_ID load)) /\
                 fixed !! 4%nat = Some (FormatInt (Z.of_nat (length (slotsOf load)))))
               ls blocks).
  { induction ls as [|l ls IH]; intros lines.
    - exists []. cbn. rewrite app_nil_r. split; [reflexivity|constructor].
    - cbn [fold_left]. destruct (appendLoad_app lines l) as (fixed & -> & H1 & H2 & H3).
      destruct (IH (lines ++ fixed ++ slotsOf l)) as (blocks & -> & HF).
      exists ((fixed ++ slotsOf l) :: blocks). cbn [concat].
      rewrite <- !app_assoc. split; [reflexivity|].
      constructor; [|exact HF]. exists fixed. auto. }
  intros lines. destruct (H loads lines) as (blocks & E & HF).
  exists blocks. repeat split; auto.
Qed.

Lemma colour_agrees j :
  fst (colorAndPrefix j) = Jumper_Color (translateJumper false j None).
Proof.
  unfold colorAndPrefix, translateJumper.
  destruct (Burble.IsTandem j); [reflexivity|].
  destruct (Burble.IsStudent j || _); [reflexivity|].
  destruct (HasPrefix _ _ || _); reflexivity.
Qed.

Lemma prefix_cancel c : forall p s,
  String.prefix (c +:+ p) (c +:+ s) = String.prefix p s.
Proof.
  induction c as [|a c IH]; intros p s; [reflexivity|].
  simpl. destruct (ascii_dec a a); [apply IH|congruence].
Qed.

Lemma coloured c rest : HasPrefix (c +:+ " " +:+ rest) (c +:+ " ") = true.
Proof.
  unfold HasPrefix. rewrite prefix_cancel. simpl. destruct rest; reflexivity.
Qed.

Lemma fold_members {A : Type} (g : A -> string) ms : forall slots,
  fold_left (fun (slots : list string) member => slots ++ [g member]) ms slots =
  slots ++ (g <$> ms).
Proof.
  induction ms as [|m ms IH]; intros slots; cbn [fold_left fmap list_fmap].
  - rewrite app_nil_r. reflexivity.
  - rewrite IH, <- app_assoc. reflexivity.
Qed.

Lemma leader_line j :
  exists line,
    (addToManifest [] j =
       line :: ((fun member => fst (colorAndPrefix j) +:+ " " +:+ tab +:+
                               Burble.Name member +:+ " (" +:+
                               Burble.ShortName member +:+ ")")
                  <$> Burble.GroupMembers j)) /\
    HasPrefix line (fst (colorAndPrefix j) +:+ " ") = true /\
    (line = fst (colorAndPrefix j) +:+ " " +:+
            Jumper_Repr (translateJumper false j None) \/
     labelled_differently (translateJumper false j None)).
Proof.
  unfold addToManifest. destruct (colorAndPrefix j) as [color prefix] eqn:E.
  cbn [fst]. rewrite fold_members.
  unfold colorAndPrefix in E. unfold translateJumper, labelled_differently.
  destruct (Burble.IsTandem j).
  { eexists. split; [reflexivity|]. split; [apply coloured|]. left. reflexivity. }
  destruct (Burble.IsStudent j || _).
  - destruct (HasSuffix (Burble.ShortName j) " H/P") eqn:Es.
    + case_bool_decide as E1.
      { inversion E; subst. eexists. split; [reflexivity|].
        split; [apply (coloured "#00ff00")|]. left. reflexivity. }
      case_bool_decide as E2.
      { inversion E; subst. eexists. split; [reflexivity|].
        split; [apply (coloured "#00ff00")|]. left. reflexivity. }
      inversion E; subst. eexists. split; [reflexivity|].
      split; [apply (coloured "#00ff00")|]. right. cbn. auto.
    + case_bool_decide as E1.
      { rewrite E1 in Es. discriminate Es. }
      case_bool_decide as E2.
      { rewrite E2 in Es. discriminate Es. }
      inversion E; subst. eexists. split; [reflexivity|].
      split; [apply (coloured "#00ff00")|]. left. reflexivity.
  - destruct (HasPrefix _ _ || _); inversion E; subst;
      (eexists; split; [reflexivity|]; split; [apply coloured|]; left; reflexivity).
Qed.

Lemma entries_of_jumper j :
  Forall2 (fun line x =>
             HasPrefix line (Jumper_Color x +:+ " ") = true /\
             (line = Jumper_Color x +:+ " " +:+ Jumper_Repr x \/ labelled_differently x))
    (addToManifest [] j) (jumpersOf (slotFromJumper false j)).
Proof.
  rewrite jumpersOf_slotFromJumper.
  destruct (leader_line j) as (line & -> & H1 & H2).
  rewrite colour_agrees in *.
  constructor; [split; assumption|].
  apply Forall2_fmap. apply Forall_Forall2_diag, Forall_forall.
  intros m _. split; [apply coloured|]. left. reflexivity.
Qed.

(** The text manifest and the stream show the same jumpers: the entries of
    a load in [/manifest] are, one for one and in order, the jumpers of the
    load's slots in the stream (nicknames off), each entry being the
    jumper's colour, a space and its [Repr]. The one difference is the
    hop-and-pop label of a jumper whose short name ends in [" H/P"] without
    being ["3500 H/P"] or ["5500 H/P"]. *)
Theorem text_manifest_matches_stream load :
  Forall2 (fun line x =>
             HasPrefix line (Jumper_Color x +:+ " ") = true /\
             (line = Jumper_Color x +:+ " " +:+ Jumper_Repr x \/ labelled_differently x))
    (slotsOf load)
    (concat (jumpersOf <$> Load_Slots (translateLoad false load))).
Proof.
  rewrite slotsOf_concat. unfold translateLoad. cbn [Load_Slots].
  rewrite <- !fmap_app. fold (manifested load).
  induction (manifested load) as [|j js IH]; [constructor|].
  rewrite !fmap_cons. cbn [concat].
  apply Forall2_app; [apply entries_of_jumper|exact IH].
Qed.

End TextManifest.

(* ===================================================================== *)
(** * Conversions: exact on the values the server shows                 *)
(* ===================================================================== *)

Section Conversions.
Import Metar Units.

Lemma SeparationDelay_checked :
  forallb SeparationDelay_ok (seqZ 1 1000) = true.
Proof. vm_compute. reflexivity. Qed.

(** For every speed from 1 to 1000 knots, [SeparationDelay] computes in
    floating point exactly the seconds needed to cover 1000 feet, rounded
    up: no rounding error of its three divisions reaches the result. *)
Theorem SeparationDelay_exact speed :
  1 <= speed <= 1000 ->
  SeparationDelay speed = Some (seconds_per_1000ft speed).
Proof.
  intros H. pose proof SeparationDelay_checked as C.
  rewrite forallb_forall in C.
  specialize (C speed). unfold SeparationDelay_ok in C.
  apply bool_decide_eq_true in C; [exact C|].
  apply list_elem_of_In, elem_of_seqZ. lia.
Qed.

Lemma Fahrenheit_checked :
  forallb Fahrenheit_ok (seqZ (-1000) 2001) = true.
Proof. vm_compute. reflexivity. Qed.

(** For a whole number of degrees Celsius between -1000 and 1000, the
    Fahrenheit value that the temperature strings print
    ([int64(FahrenheitFromCelsius(c))]) is the exact value cut towards
    zero. *)
Theorem FahrenheitFromCelsius_exact c :
  -1000 <= c <= 1000 ->
  toInt (FahrenheitFromCelsius (f64 c 0)) = Some (fahrenheit c).
Proof.
  intros H. pose proof Fahrenheit_checked as C.
  rewrite forallb_forall in C.
  specialize (C c). unfold Fahrenheit_ok in C.
  apply bool_decide_eq_true in C; [exact C|].
  apply list_elem_of_In, elem_of_seqZ. lia.
Qed.

End Conversions.

Section Separation.
Import Go Metar Units Legacy.

Lemma not_empty c s r : bool_decide (String c s +:+ r = "") = false.
Proof. apply bool_decide_eq_false. cbv [String.app String.append]. discriminate. Qed.

Lemma int64_small z : - 2 ^ 63 <= z < 2 ^ 63 -> int64 z = z.
Proof. intros H. unfold int64. rewrite Z.mod_small by lia. lia. Qed.

(** What [/manifest] shows for the winds at 13000 feet, the fourteenth
    sample, for a wind of 0 to 1000 knots and -1000 to 1000 degrees
    Celsius: below 85 knots (or light and variable) the exact number of
    seconds a plane at 85 knots less the wind needs for 1000 feet, rounded
    up; from 85 knots on the wind itself, in red; and in both cases the
    temperature with its exact Fahrenheit value cut towards zero. *)
Theorem windsAloftString_at_13000_feet samples sample :
  samples !! 13%nat = Some sample ->
  0 <= Speed sample <= 1000 ->
  -1000 <= Temperature sample <= 1000 ->
  windsAloftString (Some samples) =
    Some (let t := "(" +:+ FormatInt (Temperature sample) +:+ "℃ / " +:+
                   FormatInt (fahrenheit (Temperature sample)) +:+ "℉)" in
          if LightAndVariable sample || (Speed sample <? 85) then
            ("#ffffff",
             ("Separation is " +:+
              FormatInt (seconds_per_1000ft
                           (if LightAndVariable sample then 85
                            else 85 - Speed sample)) +:+ " seconds") +:+ " " +:+ t)
          else
            ("#ff0000",
             ("Winds are " +:+ FormatInt (Speed sample) +:+ " knots") +:+ " " +:+ t)).
Proof.
  intros Hs Hv Ht. unfold windsAloftString. rewrite Hs.
  assert (HF : toInt (FahrenheitFromCelsius (f64 (Temperature sample) 0)) =
               Some (fahrenheit (Temperature sample))).
  { pose proof Fahrenheit_checked as C. rewrite forallb_forall in C.
    specialize (C (Temperature sample)). unfold Fahrenheit_ok in C.
    apply bool_decide_eq_true in C; [exact C|].
    apply list_elem_of_In, elem_of_seqZ. lia. }
  assert (HS : forall speed, 1 <= speed <= 1000 ->
               SeparationDelay speed = Some (seconds_per_1000ft speed)).
  { intros speed H. pose proof SeparationDelay_checked as C.
    rewrite forallb_forall in C.
    specialize (C speed). unfold SeparationDelay_ok in C.
    apply bool_decide_eq_true in C; [exact C|].
    apply list_elem_of_In, elem_of_seqZ. lia. }
  rewrite HF. cbv zeta.
  destruct (LightAndVariable sample); cbn [orb].
  - replace (85 <=? 0) with false by reflexivity.
    rewrite (HS 85) by lia. rewrite !not_empty. reflexivity.
  - rewrite int64_small by lia.
    destruct (Speed sample <? 85) eqn:E.
    + apply Z.ltb_lt in E.
      replace (85 - Speed sample <=? 0) with false by (symmetry; apply Z.leb_gt; lia).
      rewrite HS by lia. rewrite !not_empty. reflexivity.
    + apply Z.ltb_ge in E.
      replace (85 - Speed sample <=? 0) with true by (symmetry; apply Z.leb_le; lia).
      rewrite !not_empty. reflexivity.
Qed.

End Separation.

(* ===================================================================== *)
(** * Instances of the properties above                                 *)
(* ===================================================================== *)

Section MoreInstances.
Import Core Server Observe Go MetarReport Grpc Units.

(** A jump-run change is buffered behind a METAR wake-up. *)
Lemma coalescing_loses_no_category_witness :
  let app := mkApp empty_Options empty_Status empty_Jumprun empty_WindsAloft empty_Loads in
  JumprunDataSource ∈ [METARDataSource; JumprunDataSource] /\
  forall v,
    ManifestUpdate_Jumprun (constructUpdate app JumprunDataSource) = Some v ->
    ManifestUpdate_Jumprun
      (constructUpdate app (fst (drain METARDataSource [JumprunDataSource]))) = Some v.
Proof.
  cbv zeta.
  match goal with |- ?A /\ _ => assert (H1 : A) end.
  - apply elem_of_cons; right; apply elem_of_cons; left; reflexivity.
  - split; [exact H1|].
    exact (proj1 (proj2 (proj2
             (coalescing_loses_no_category
                (mkApp empty_Options empty_Status empty_Jumprun empty_WindsAloft empty_Loads)
                METARDataSource [JumprunDataSource] JumprunDataSource H1)))).
Defined.

(** The same two wake-ups in either order. *)
Lemma drain_order_irrelevant_witness :
  [METARDataSource; JumprunDataSource] ≡ₚ [JumprunDataSource; METARDataSource] /\
  fst (drain METARDataSource [JumprunDataSource]) =
  fst (drain JumprunDataSource [METARDataSource]).
Proof.
  match goal with |- ?A /\ _ => assert (H1 : A) end.
  - apply perm_swap.
  - split; [exact H1|].
    exact (drain_order_irrelevant METARDataSource [JumprunDataSource]
             JumprunDataSource [METARDataSource] H1).
Defined.

(** A second subscriber is admitted beside the first. *)
Lemma admission_keeps_subscribers_witness :
  let app := mkApp empty_Options empty_Status empty_Jumprun empty_WindsAloft empty_Loads in
  let cmds := [AddClient (mkAddClientRequest 0%nat 10%nat)] in
  let req := mkAddClientRequest 1%nat 11%nat in
  let a := fst (processUpdates (start app false false false) cmds) in
  let a' := fst (step a (AddClient req)) in
  Z.of_nat (admissions cmds) < 2 ^ 64 - 1 /\
  clients a !! clientID a' = None /\
  (forall id ch, clients a !! id = Some ch -> clients a' !! id = Some ch) /\
  size (clients a') = S (size (clients a)).
Proof.
  cbv zeta.
  match goal with |- ?A /\ _ => assert (H1 : A) end.
  - vm_compute. reflexivity.
  - split; [exact H1|].
    exact (admission_keeps_subscribers
             (mkApp empty_Options empty_Status empty_Jumprun empty_WindsAloft empty_Loads)
             false false false
             [AddClient (mkAddClientRequest 0%nat 10%nat)]
             (mkAddClientRequest 1%nat 11%nat) H1).
Defined.

(** The only subscriber unsubscribes; then the options change. *)
Lemma removed_gets_nothing_witness :
  let o1 := mkOptions false true false "" "#ffffff" in
  let o2 := mkOptions true true false "" "#ffffff" in
  let app o := mkApp o empty_Status empty_Jumprun empty_WindsAloft empty_Loads in
  let a := mkActor 1 {[ 1 := 10%nat ]} (constructUpdate (app o1) OptionsDataSource) in
  let req := mkRemoveClientRequest 2%nat 1 in
  let cmds := [Wake (app o2) OptionsDataSource []] in
  (forall id, clients a !! id = Some 10%nat -> id = removeClientRequest_id req) /\
  (10%nat ∉ offered cmds) /\
  pushed 10%nat (snd (processUpdates (fst (step a (RemoveClient req))) cmds)) = [].
Proof.
  cbv zeta.
  match goal with |- ?A /\ ?B /\ _ => assert (H1 : A); [|assert (H2 : B)] end.
  - intros id H. cbn [clients removeClientRequest_id] in *.
    apply lookup_singleton_Some in H. symmetry. exact (proj1 H).
  - cbn. apply not_elem_of_nil.
  - split; [exact H1|]. split; [exact H2|].
    exact (removed_gets_nothing _ _ _ _ H1 H2).
Defined.

(** Due west. *)
Lemma CardinalDirection_whole_degrees_witness :
  -3600 <= 270 <= 3600 /\
  Metar.CardinalDirection 10 (Metar.f64 270 0) = Metar.Returns "W".
Proof.
  assert (H1 : -3600 <= 270 <= 3600) by lia.
  split; [exact H1|]. exact (CardinalDirection_whole_degrees 270 H1).
Defined.

(** Three passes on the first of June: before sunrise, after sunrise and
    after sunset. *)
Lemma one_day_fires_once_witness :
  let d : Date := (2021, 6, 1) in
  let t n := mkTick (Some (mkTime 100 d, mkTime 900 d)) (mkTime n d) in
  let ticks := [t 50; t 500; t 950] in
  Forall (onDay d) ticks /\
  lastSunrise initialMarkers <> d /\
  lastSunset initialMarkers <> d /\
  sunrises (fst (loop initialMarkers ticks)) = [d] /\
  sunsets (fst (loop initialMarkers ticks)) = [d].
Proof.
  cbv zeta.
  match goal with |- ?A /\ ?B /\ ?C /\ _ =>
    assert (H1 : A); [|assert (H2 : B); [|assert (H3 : C)]] end.
  - repeat apply List.Forall_cons; try apply List.Forall_nil;
      (eexists _, _; split; [reflexivity|split; reflexivity]).
  - discriminate.
  - discriminate.
  - split; [exact H1|]. split; [exact H2|]. split; [exact H3|].
    exact (one_day_fires_once _ _ _ H1 H2 H3).
Defined.

(** Wind from 270 degrees at 15 knots. *)
Lemma Winds_parse_direction_with_unit_witness :
  let w' := mkWinds 27015 0 0 false 0 0 in
  Index "27015KT" "KT" = Some 5%nat /\
  HasPrefix "27015KT" "VRB" = false /\
  Winds_parse zeroWinds ["27015KT"] = Done (w', ["27015"], 1%nat) /\
  (Winds_Direction w' = 0 \/ Winds_Direction w' = 2 ^ 63 - 1 \/
   Winds_Direction w' = - 2 ^ 63).
Proof.
  cbv zeta.
  match goal with |- ?A /\ ?B /\ ?C /\ _ =>
    assert (H1 : A); [|assert (H2 : B); [|assert (H3 : C)]] end.
  - reflexivity.
  - reflexivity.
  - vm_compute. reflexivity.
  - split; [exact H1|]. split; [exact H2|]. split; [exact H3|].
    exact (Winds_parse_direction_with_unit _ _ _ _ _ _ _ H1 H2 H3).
Defined.

(** A vertical visibility of 200 feet. *)
Lemma parseSkyCover_results_witness :
  parseSkyCover ["VV002"; "12/08"] = Done (0%nat, "ceiling at 200") /\
  (0 <= length ["VV002"; "12/08"]%string)%nat /\
  ("ceiling at 200" = "clear" \/ "ceiling at 200" = "overcast" \/
   exists n, "ceiling at 200" = "ceiling at " +:+ FormatInt n).
Proof.
  match goal with |- ?A /\ _ => assert (H1 : A) end.
  - vm_compute. reflexivity.
  - split; [exact H1|]. exact (parseSkyCover_results _ _ _ H1).
Defined.

(** The same report read twice. *)
Lemma parseLine_again_unchanged_witness :
  let c0 := mkController zeroWinds "" "" (Metar.f64 0 0) in
  let c1 := mkController (mkWinds 27015 0 25 false 0 0) "clear" "clear"
              (Metar.f64 12 0) in
  let fields := ["METAR"; "KORE"; "311052Z"; "AUTO"; "27015G25KT"; "10SM"; "CLR";
                 "12/08"; "A3001"; "RMK"; "AO2"] in
  parseLine "KORE" c0 fields = Done (Parsed true c1) /\
  parseLine "KORE" c1 fields = Done (Parsed false c1).
Proof.
  cbv zeta.
  match goal with |- ?A /\ _ => assert (H1 : A) end.
  - vm_compute. reflexivity.
  - split; [exact H1|]. exact (parseLine_again_unchanged _ _ _ _ _ H1).
Defined.

(** A tandem student with its instructor and a videographer. *)
Lemma slotFromJumper_never_coach_witness :
  let instructor := Burble.mkJumper 2 "Ira" "TI" "" false false false true [] in
  let video := Burble.mkJumper 3 "Vic" "VID" "" false false true false [] in
  let student := Burble.mkJumper 1 "Sam" "Tandem" "" true false false false
                   [instructor; video] in
  let x := translateJumper false instructor (Some (translateJumper false student None)) in
  x ∈ jumpersOf (slotFromJumper false student) /\
  Jumper_Type x <> JumperType_COACH /\ Jumper_Type x <> JumperType_COACH_STUDENT.
Proof.
  cbv zeta.
  match goal with |- ?A /\ _ => assert (H1 : A) end.
  - apply elem_of_cons; right; apply elem_of_cons; left; reflexivity.
  - split; [exact H1|]. exact (slotFromJumper_never_coach _ _ _ H1).
Defined.

(** A path with one hook turn, an empty turn and a turn after it. *)
Lemma jumprun_turns_end_at_zero_turn_witness :
  let j := mkJumprunState "42.57" "-72.29" (-14) 20 true 270 2 0 0
             [mkHookTurn 3 90; mkHookTurn 0 0; mkHookTurn 5 180] in
  IsSet j = true /\
  exists p kept dropped,
    Jumprun_Path (jumprunBlock j) = Some p /\
    HookTurns j = kept ++ dropped /\
    JumprunPath_Turns p =
      (fun t => mkJumprunTurn (int32 (HookTurn_Distance t))
                              (int32 (HookTurn_Heading t))) <$> kept /\
    Forall (fun t => HookTurn_Distance t <> 0 \/ HookTurn_Heading t <> 0) kept /\
    match dropped with
    | [] => True
    | t :: _ => HookTurn_Distance t = 0 /\ HookTurn_Heading t = 0
    end.
Proof.
  cbv zeta.
  match goal with |- ?A /\ _ => assert (H1 : A) end.
  - reflexivity.
  - split; [exact H1|]. exact (jumprun_turns_end_at_zero_turn _ H1).
Defined.

(** Eighty-five knots of ground speed. *)
Lemma SeparationDelay_exact_witness :
  1 <= 85 <= 1000 /\ SeparationDelay 85 = Some 7.
Proof.
  assert (H1 : 1 <= 85 <= 1000) by lia.
  split; [exact H1|]. exact (SeparationDelay_exact 85 H1).
Defined.

(** Eighteen degrees of frost. *)
Lemma FahrenheitFromCelsius_exact_witness :
  -1000 <= -18 <= 1000 /\
  Metar.toInt (FahrenheitFromCelsius (Metar.f64 (-18) 0)) = Some 0.
Proof.
  assert (H1 : -1000 <= -18 <= 1000) by lia.
  split; [exact H1|]. exact (FahrenheitFromCelsius_exact (-18) H1).
Defined.

(** Thirty knots at eighteen degrees of frost. *)
Lemma windsAloftString_at_13000_feet_witness :
  let sample := Legacy.mkSample 13000 270 30 (-18) false in
  let samples := replicate 14 sample in
  samples !! 13%nat = Some sample /\
  0 <= Legacy.Speed sample <= 1000 /\
  -1000 <= Legacy.Temperature sample <= 1000 /\
  Legacy.windsAloftString (Some samples) =
    Some ("#ffffff", "Separation is 11 seconds (-18℃ / 0℉)").
Proof.
  cbv zeta.
  match goal with |- ?A /\ ?B /\ ?C /\ _ =>
    assert (H1 : A); [|assert (H2 : B); [|assert (H3 : C)]] end.
  - reflexivity.
  - cbn. lia.
  - cbn. lia.
  - split; [exact H1|]. split; [exact H2|]. split; [exact H3|].
    exact (windsAloftString_at_13000_feet _ _ H1 H2 H3).
Defined.

End MoreInstances.
